(** * cel-validation: the evaluation-matrix runner and benchmark harness of cel.go

    A shallow embedding of [cel.go] (package main).  The YAML decoder, the CEL
    environment, the compiled programs, the clock and the file system are
    external collaborators: they are gathered in the interface
    [Collaborators] and every theorem holds for any implementation of it.
    Everything the program prints, and every call it makes to a collaborator
    together with the answer it got, is recorded in a trace of [Event]s. *)

From Stdlib Require Import ZArith Ascii String.
From stdpp Require Import base tactics option list strings.

Local Open Scope string_scope.
Local Open Scope list_scope.

(** ** Go strings

    A Go string is a sequence of bytes; [string] is used as such (one [ascii]
    per byte).  [len(s)] is [String.length s], [s[:n]] is [substring 0 n s],
    [s[n:]] is [string_drop n s]. *)

Fixpoint string_drop (n : nat) (s : string) : string :=
  match n, s with
  | O, _ => s
  | S n', String _ s' => string_drop n' s'
  | S _, EmptyString => EmptyString
  end.

Definition bytes (l : list nat) : string :=
  string_of_list_ascii (map ascii_of_nat l).

(** *** strings.TrimSpace

    [strings.TrimSpace] removes leading and trailing white space as defined by
    Unicode ([unicode.IsSpace]): the six ASCII characters of [asciiSpace] and
    the code points U+0085, U+00A0, U+1680, U+2000..U+200A, U+2028, U+2029,
    U+202F, U+205F and U+3000, recognised by their UTF-8 encodings.  A byte
    that does not start such an encoding stops the trimming. *)

Definition asciiSpace (c : ascii) : bool :=
  match nat_of_ascii c with
  | 9 | 10 | 11 | 12 | 13 | 32 => true
  | _ => false
  end.

Definition unicodeSpaces : list string :=
  [ bytes [194; 133]; bytes [194; 160]; bytes [225; 154; 128] ]
  ++ map (fun b => bytes [226; 128; b]) (seq 128 11)
  ++ [ bytes [226; 128; 168]; bytes [226; 128; 169]; bytes [226; 128; 175];
       bytes [226; 129; 159]; bytes [227; 128; 128] ].

(** Width in bytes of the white-space rune [s] starts with, if it starts with
    one; [encs] are the multi-byte encodings looked for. *)
Definition spaceWidth (encs : list string) (s : string) : option nat :=
  match s with
  | EmptyString => None
  | String c _ =>
      if asciiSpace c then Some 1
      else String.length <$> List.find (fun enc => String.prefix enc s) encs
  end.

Fixpoint trimLeading (encs : list string) (fuel : nat) (s : string) : string :=
  match fuel with
  | O => s
  | S fuel' =>
      match spaceWidth encs s with
      | Some n => trimLeading encs fuel' (string_drop n s)
      | None => s
      end
  end.

Definition TrimLeft (s : string) : string :=
  trimLeading unicodeSpaces (String.length s) s.

(** The last rune of [s] is the first rune of the reversed string, with its
    encoding reversed. *)
Definition TrimRight (s : string) : string :=
  String.rev (trimLeading (map String.rev unicodeSpaces) (String.length s) (String.rev s)).

Definition TrimSpace (s : string) : string := TrimRight (TrimLeft s).

(** *** strings.Split, for a non-empty separator

    [genSplit] cuts [s] at each successive [strings.Index(s, sep)], left to
    right, and keeps every piece, the empty ones too. *)

Definition Index (s sep : string) : option nat := index 0 sep s.

Fixpoint genSplit (fuel : nat) (s sep : string) : list string :=
  match fuel with
  | O => [s]
  | S fuel' =>
      match Index s sep with
      | None => [s]
      | Some m =>
          substring 0 m s :: genSplit fuel' (string_drop (m + String.length sep) s) sep
      end
  end.

Definition Split (s sep : string) : list string :=
  genSplit (String.length s) s sep.

Definition lf : string := bytes [10].

(** ** Go errors

    The program only ever compares an error with the sentinel [io.EOF] and
    prints it with [%v]; an error is modelled by exactly that: whether it is
    [io.EOF], and its [Error()] text. *)

Inductive error : Type :=
| io_EOF
| errorString (msg : string).

Definition Error (err : error) : string :=
  match err with
  | io_EOF => "EOF"
  | errorString msg => msg
  end.

(** [fmt.Errorf(prefix + "%v", cause)]: a fresh error whose text is the prefix
    followed by the text of the cause. *)
Definition fmt_Errorf (prefix : string) (cause : error) : error :=
  errorString (prefix +:+ Error cause).

Inductive result (A : Type) : Type :=
| Ok (a : A)
| Fail (err : error).
Arguments Ok {A} a.
Arguments Fail {A} err.

(** ** The collaborators

    - [yaml.NewDecoder] / [Decoder.Decode]: a decoder is a state; a call to
      [Decode] answers with a document or an error ([io.EOF] at the end of the
      stream) and leaves the decoder in a new state;
    - [os.ReadFile], [cel.NewEnv] (with the two declarations and
      [ext.Strings()] of [main]);
    - [Env.Compile] answers [(ast, issues)]: [issues] is [None] for a nil
      pointer, [Some e] for issues whose [Err()] is [e];
    - [Env.Program], [Program.Eval] (answers [(out, err)]; the details are
      dropped by the caller) and [time.Now].  [Eval] and [time.Now] run in a
      [World]: whatever state the CEL runtime keeps, and the clock.
    Times are nanoseconds; a [time.Duration] is a number of nanoseconds. *)

Class Collaborators : Type := {
  Document : Type;
  Decoder : Type;
  Env : Type;
  Ast : Type;
  cel_Program : Type;
  Val : Type;
  World : Type;
  yaml_NewDecoder : string -> Decoder;
  Decode : Decoder -> result Document * Decoder;
  os_ReadFile : string -> result string;
  cel_NewEnv : result Env;
  env_Compile : Env -> string -> Ast * option (option error);
  env_Program : Env -> Ast -> result cel_Program;
  program_Eval : cel_Program -> Document -> Document -> World -> (Val * option error) * World;
  time_Now : World -> Z * World;
}.

(** ** Statistics of the benchmark

    [evalCount] is an [int] and [duration] a [time.Duration], both 64 bits
    wide.  No wrap-around is written out: a count is a constant or a sum of
    at most [len(programs)] constants of 2^20, and a duration is added once to
    a zero. *)

Record exprStats : Type := { evalCount : Z; duration : Z }.

(** [min] of cel.go. *)
Definition min (a b : Z) : Z := if (a <? b)%Z then a else b.

(** [expressions[i][:min(50, len(expressions[i]))] + "..."] *)
Definition contentOf (expr : string) : string :=
  substring 0 (Z.to_nat (min 50 (Z.of_nat (String.length expr)))) expr +:+ "...".

(** The iteration count [1024*1024] of the timed phase. *)
Definition iterations : Z := 1024 * 1024.

Inductive Exit : Type :=
| Returned
| Exited (code : Z).

Section Embedding.
Context `{C : Collaborators}.

(** ** Traces

    One constructor for each call to a collaborator that the claims are
    about (with its answer), for each print statement of cel.go (with the
    values that fill its format) and for [log.Fatal].  The two rates are
    printed with [%.0f] from a [float64] division; the event keeps the two
    operands, the count and the duration. *)

Inductive Event : Type :=
| CallCompile (expr : string) (answer : Ast * option (option error))
| CallProgram (ast : Ast) (answer : result cel_Program)
| CallEval (program : cel_Program) (object params : Document) (answer : Val * option error)
| ReadClock (now : Z)
| PrintBenchmarkBanner                                (* "\n======= BENCHMARK =======" *)
| PrintWarmingUp                                      (* "Warming up..." *)
| PrintRunningBenchmark                               (* "Running benchmark..." *)
| PrintBenchmarkError (n : Z) (err : error)           (* "Error during benchmark for expression %d: %v\n" *)
| PrintExpressionNumber (n : Z)                       (* "\n--- Expression %d ---\n" *)
| PrintContent (s : string)                           (* "Content: %s\n" *)
| PrintEvaluations (n : Z)                            (* "Evaluations: %d\n" *)
| PrintTotalTime (d : Z)                              (* "Total time: %v\n" *)
| PrintAverageTime (d : Z)                            (* "Average time per evaluation: %v\n" *)
| PrintEvaluationsPerSecond (count : Z) (d : Z)       (* "Evaluations per second: %.0f\n" *)
| PrintSummaryBanner                                  (* "\n======= SUMMARY =======\n" *)
| PrintTotalDuration (d : Z)                          (* "Total duration: %v\n" *)
| PrintTotalEvaluations (n : Z)                       (* "Total evaluations: %d\n" *)
| PrintOverallRate (count : Z) (d : Z)                (* "Overall evaluations per second: %.0f\n" *)
| PrintUsage                                          (* "Usage: program [--benchmark] ..." *)
| PrintObjectHeader (n : Z)                           (* "\n======= Object %d =======\n" *)
| PrintExpression (n : Z) (expr : string)             (* "\n--- Expression %d ---\n%s\n" *)
| PrintCompilationFailed (err : error)                (* "Compilation failed: %v\n" *)
| PrintProgramFailed (err : error)                    (* "Failed to create program: %v\n" *)
| PrintEvaluationFailed (err : error)                 (* "Evaluation failed: %v\n" *)
| PrintResult (out : Val)                             (* "Result: %v (type: %T)\n" *)
| LogFatal (msg : string) (err : error).              (* log.Fatal(msg, err) *)

(** ** The monad of cel.go: a world that is threaded, a trace that grows *)

Definition M (A : Type) : Type := World -> A * World * list Event.

Definition ret {A} (a : A) : M A := fun w => (a, w, []).

Definition bind {A B} (m : M A) (k : A -> M B) : M B :=
  fun w =>
    let '(a, w1, t1) := m w in
    let '(b, w2, t2) := k a w1 in
    (b, w2, t1 ++ t2).

Definition emit (e : Event) : M unit := fun w => (tt, w, [e]).

End Embedding.

Notation "'let*' x ':=' m 'in' k" := (bind m (fun x => k))
  (at level 10, x pattern, m at level 100, k at level 200, only parsing).
Notation "'do' m 'then' k" := (bind m (fun _ => k))
  (at level 10, m at level 100, k at level 200, only parsing).

Section Program.
Context `{C : Collaborators}.

(** ** Calls to the collaborators, recorded with their answers *)

Definition call_Compile (env : Env) (expr : string) : M (Ast * option (option error)) :=
  fun w => let answer := env_Compile env expr in (answer, w, [CallCompile expr answer]).

Definition call_Program (env : Env) (ast : Ast) : M (result cel_Program) :=
  fun w => let answer := env_Program env ast in (answer, w, [CallProgram ast answer]).

Definition call_Eval (program : cel_Program) (object params : Document) : M (Val * option error) :=
  fun w =>
    let '(answer, w') := program_Eval program object params w in
    (answer, w', [CallEval program object params answer]).

Definition call_Now : M Z :=
  fun w => let '(now, w') := time_Now w in (now, w', [ReadClock now]).

(** [time.Since(t)] is [time.Now().Sub(t)]. *)
Definition time_Since (t : Z) : M Z :=
  let* now := call_Now in ret (now - t)%Z.

(** ** Loops

    [range i xs body] is [for i, x := range xs { body }] (the index starts at
    [i]); [times n body] is [for i := 0; i < n; i++ { body }].  In [rangeUntil]
    and [timesUntil] the body may execute [return]: it answers [Return], and
    the loop and everything around it stop. *)

Inductive Flow : Type := Continue | Return.

Fixpoint range {A} (i : nat) (xs : list A) (body : nat -> A -> M unit) : M unit :=
  match xs with
  | [] => ret tt
  | x :: xs' => do body i x then range (S i) xs' body
  end.

Fixpoint times (n : nat) (body : M unit) : M unit :=
  match n with
  | O => ret tt
  | S n' => do body then times n' body
  end.

Fixpoint rangeUntil {A} (xs : list A) (body : A -> M Flow) : M Flow :=
  match xs with
  | [] => ret Continue
  | x :: xs' =>
      let* f := body x in
      match f with
      | Return => ret Return
      | Continue => rangeUntil xs' body
      end
  end.

Fixpoint timesUntil (n : nat) (body : M Flow) : M Flow :=
  match n with
  | O => ret Continue
  | S n' =>
      let* f := body in
      match f with
      | Return => ret Return
      | Continue => timesUntil n' body
      end
  end.

(** ** parseYAMLDocuments, parseSingleYAMLDocument, loadFile

    The loop of [parseYAMLDocuments] has no bound of its own: it runs until the
    decoder answers with an error.  [fuel] bounds the number of calls to
    [Decode]; [None] means the bound was reached. *)

Fixpoint parseYAMLDocuments_loop (fuel : nat) (decoder : Decoder) (documents : list Document)
  : option (result (list Document)) :=
  match fuel with
  | O => None
  | S fuel' =>
      match Decode decoder with
      | (Fail io_EOF, _) => Some (Ok documents)
      | (Fail err, _) => Some (Fail err)
      | (Ok doc, decoder') => parseYAMLDocuments_loop fuel' decoder' (documents ++ [doc])
      end
  end.

Definition parseYAMLDocuments (fuel : nat) (data : string) : option (result (list Document)) :=
  parseYAMLDocuments_loop fuel (yaml_NewDecoder data) [].

Definition parseSingleYAMLDocument (data : string) : result Document :=
  match Decode (yaml_NewDecoder data) with
  | (Fail err, _) => Fail err
  | (Ok doc, _) => Ok doc
  end.

Definition loadFile (filename : string) : result string := os_ReadFile filename.

(** ** compileExpressions *)

Fixpoint compileExpressions_loop (env : Env) (expressions : list string) (programs : list cel_Program)
  : M (result (list cel_Program)) :=
  match expressions with
  | [] => ret (Ok programs)
  | expr :: rest =>
      if String.eqb expr "" then compileExpressions_loop env rest programs
      else
        let* (ast, issues) := call_Compile env expr in
        match issues with
        | Some (Some cause) => ret (Fail (fmt_Errorf "compilation failed: " cause))
        | _ =>
            let* r := call_Program env ast in
            match r with
            | Fail err => ret (Fail (fmt_Errorf "failed to create program: " err))
            | Ok program => compileExpressions_loop env rest (programs ++ [program])
            end
        end
  end.

Definition compileExpressions (env : Env) (expressions : list string) : M (result (list cel_Program)) :=
  compileExpressions_loop env expressions [].

(** ** runBenchmark *)

Definition warmUp (objects : list Document) (programs : list cel_Program) (params : Document) : M unit :=
  times 10
    (range 0 objects (fun _ object =>
       range 0 programs (fun _ program =>
         let* _ := call_Eval program object params in ret tt))).

(** [make([]exprStats, n)] *)
Definition make_stats (n : nat) : list exprStats :=
  replicate n {| evalCount := 0; duration := 0 |}.

(** The timed phase: [None] when [runBenchmark] returned from inside it,
    otherwise the statistics it leaves in [stats].  An index of [stats] is
    written once, when the program at that index is done. *)
Fixpoint timedPhase (objects : list Document) (params : Document)
    (i : nat) (programs : list cel_Program) (stats : list exprStats)
  : M (option (list exprStats)) :=
  match programs with
  | [] => ret (Some stats)
  | program :: rest =>
      let* exprStart := call_Now in
      let* f :=
        timesUntil (Z.to_nat iterations)
          (rangeUntil objects (fun object =>
             let* (_, err) := call_Eval program object params in
             match err with
             | Some e => do emit (PrintBenchmarkError (Z.of_nat i + 1) e) then ret Return
             | None => ret Continue
             end)) in
      match f with
      | Return => ret None
      | Continue =>
          let* d := time_Since exprStart in
          let stats := alter (fun st => {| evalCount := evalCount st; duration := duration st + d |}) i stats in
          let stats := alter (fun st => {| evalCount := iterations; duration := duration st |}) i stats in
          timedPhase objects params (S i) rest stats
      end
  end.

(** One round of the loop that prints the statistics of each expression.
    [time.Duration] is an integer type: its division truncates. *)
Definition reportExpression (expressions : list string) (totalDuration : Z)
    (i : nat) (stat : exprStats) : M unit :=
  do emit (PrintExpressionNumber (Z.of_nat i + 1)) then
  do match expressions !! i with
     | Some expr => emit (PrintContent (contentOf expr))
     | None => ret tt
     end then
  do emit (PrintEvaluations (evalCount stat)) then
  do emit (PrintTotalTime (duration stat)) then
  if (0 <? evalCount stat)%Z then
    do emit (PrintAverageTime (Z.quot (duration stat) (evalCount stat))) then
    emit (PrintEvaluationsPerSecond (evalCount stat) totalDuration)
  else ret tt.

Definition sumEvals (stats : list exprStats) : Z :=
  fold_left (fun totalEvals stat => (totalEvals + evalCount stat)%Z) stats 0%Z.

Definition report (expressions : list string) (stats : list exprStats) (totalDuration : Z) : M unit :=
  do range 0 stats (reportExpression expressions totalDuration) then
  let totalEvals := sumEvals stats in
  do emit PrintSummaryBanner then
  do emit (PrintTotalDuration totalDuration) then
  do emit (PrintTotalEvaluations totalEvals) then
  emit (PrintOverallRate totalEvals totalDuration).

Definition runBenchmark (objects : list Document) (programs : list cel_Program)
    (params : Document) (expressions : list string) : M unit :=
  do emit PrintBenchmarkBanner then
  do emit PrintWarmingUp then
  do warmUp objects programs params then
  let stats := make_stats (length programs) in
  do emit PrintRunningBenchmark then
  let* startTime := call_Now in
  let* r := timedPhase objects params 0 programs stats in
  match r with
  | None => ret tt
  | Some stats =>
      let* totalDuration := time_Since startTime in
      report expressions stats totalDuration
  end.

(** ** main *)

Fixpoint filterArgs (args : list string) (benchmarkMode : bool) (filteredArgs : list string)
  : bool * list string :=
  match args with
  | [] => (benchmarkMode, filteredArgs)
  | arg :: rest =>
      if String.eqb arg "--benchmark" then filterArgs rest true filteredArgs
      else filterArgs rest benchmarkMode (filteredArgs ++ [arg])
  end.

(** [for i, expr := range expressions { expressions[i] = strings.TrimSpace(expr) }] *)
Fixpoint trimEach (i : nat) (todo : list string) (expressions : list string) : list string :=
  match todo with
  | [] => expressions
  | expr :: todo' => trimEach (S i) todo' (<[i := TrimSpace expr]> expressions)
  end.

Definition splitExpressions (expressionData : string) : list string :=
  let expressions := Split (TrimSpace expressionData) "---" in
  trimEach 0 expressions expressions.

(** The body of the inner loop of the normal mode. *)
Definition evaluateCell (env : Env) (params object : Document) (exprIdx : nat) (expr : string) : M unit :=
  if String.eqb expr "" then ret tt
  else
    do emit (PrintExpression (Z.of_nat exprIdx + 1) expr) then
    let* (ast, issues) := call_Compile env expr in
    match issues with
    | Some (Some cause) => emit (PrintCompilationFailed cause)
    | _ =>
        let* r := call_Program env ast in
        match r with
        | Fail err => emit (PrintProgramFailed err)
        | Ok program =>
            let* (out, err) := call_Eval program object params in
            match err with
            | Some e => emit (PrintEvaluationFailed e)
            | None => emit (PrintResult out)
            end
        end
    end.

(** The two loops of the normal mode. *)
Definition evaluationMatrix (env : Env) (objects : list Document) (expressions : list string)
    (params : Document) : M unit :=
  range 0 objects (fun objIdx object =>
    do emit (PrintObjectHeader (Z.of_nat objIdx + 1)) then
    range 0 expressions (evaluateCell env params object)).

Definition log_Fatal (msg : string) (err : error) : M (option Exit) :=
  do emit (LogFatal msg err) then ret (Some (Exited 1)).

(** [main] with the arguments [os.Args[1:]].  The answer is [None] when
    [fuel] was too small for the object file. *)
Definition main (fuel : nat) (args : list string) : M (option Exit) :=
  let '(benchmarkMode, filteredArgs) := filterArgs args false [] in
  match filteredArgs with
  | objectFile :: expressionFile :: paramsFile :: _ =>
    match loadFile objectFile with
    | Fail err => log_Fatal "Failed to read object file: " err
    | Ok objectData =>
    match parseYAMLDocuments fuel objectData with
    | None => ret None
    | Some (Fail err) => log_Fatal "Failed to parse object YAML: " err
    | Some (Ok objects) =>
    match loadFile expressionFile with
    | Fail err => log_Fatal "Failed to read expression file: " err
    | Ok expressionData =>
    let expressions := splitExpressions expressionData in
    match loadFile paramsFile with
    | Fail err => log_Fatal "Failed to read params file: " err
    | Ok paramsData =>
    match parseSingleYAMLDocument paramsData with
    | Fail err => log_Fatal "Failed to parse params YAML: " err
    | Ok params =>
    match cel_NewEnv with
    | Fail err => log_Fatal "Failed to create CEL environment: " err
    | Ok env =>
      if benchmarkMode then
        let* r := compileExpressions env expressions in
        match r with
        | Fail err => log_Fatal "Failed to compile expressions for benchmark: " err
        | Ok programs =>
            do runBenchmark objects programs params expressions then
            ret (Some Returned)
        end
      else
        do evaluationMatrix env objects expressions params then
        ret (Some Returned)
    end end end end end end
  | _ => do emit PrintUsage then ret (Some (Exited 1))
  end.

End Program.

(** ** Vocabulary of the statements *)

Section Vocabulary.
Context `{C : Collaborators}.

Definition value {A} (r : A * World * list Event) : A := r.1.1.
Definition world {A} (r : A * World * list Event) : World := r.1.2.
Definition trace {A} (r : A * World * list Event) : list Event := r.2.

(** The lines that end a cell of the evaluation matrix: a result, or one of
    the three reported failures. *)
Definition isCell (e : Event) : bool :=
  match e with
  | PrintCompilationFailed _ | PrintProgramFailed _
  | PrintEvaluationFailed _ | PrintResult _ => true
  | _ => false
  end.

(** The (object ordinal, expression ordinal) under which each cell of a trace
    was printed: the numbers of the last object header and of the last
    expression header before it. *)
Fixpoint cellTags (obj expr : Z) (t : list Event) : list (Z * Z) :=
  match t with
  | [] => []
  | PrintObjectHeader n :: t' => cellTags n expr t'
  | PrintExpression n _ :: t' => cellTags obj n t'
  | e :: t' => if isCell e then (obj, expr) :: cellTags obj expr t' else cellTags obj expr t'
  end.

(** The ordinals (from [i + 1]) of the expressions that are not empty. *)
Fixpoint nonEmptyOrdinals (i : nat) (expressions : list string) : list Z :=
  match expressions with
  | [] => []
  | expr :: rest =>
      if String.eqb expr "" then nonEmptyOrdinals (S i) rest
      else (Z.of_nat i + 1)%Z :: nonEmptyOrdinals (S i) rest
  end.

Definition nonEmpty (expressions : list string) : list string :=
  List.filter (fun expr => negb (String.eqb expr "")) expressions.

(** A call to the CEL environment or to a program. *)
Definition isCall (e : Event) : bool :=
  match e with
  | CallCompile _ _ | CallProgram _ _ | CallEval _ _ _ _ => true
  | _ => false
  end.

(** The numbers of the last object header and of the last expression header
    of a trace. *)
Fixpoint headers (obj expr : Z) (t : list Event) : Z * Z :=
  match t with
  | [] => (obj, expr)
  | PrintObjectHeader n :: t' => headers n expr t'
  | PrintExpression n _ :: t' => headers obj n t'
  | _ :: t' => headers obj expr t'
  end.

(** The cells of the evaluation matrix of [K] objects, in the order of the
    two loops: objects first, then the expressions that are not empty. *)
Definition matrixOrder (K : nat) (expressions : list string) : list (Z * Z) :=
  flat_map (fun o => map (fun n => (o, n)) (nonEmptyOrdinals 0 expressions))
           (map (fun j => (Z.of_nat j + 1)%Z) (seq 0 K)).

(** An evaluation, whatever it answered; an evaluation that answered without
    an error; a compilation. *)
Definition isEval (e : Event) : bool :=
  match e with CallEval _ _ _ _ => true | _ => false end.

Definition isGoodEval (e : Event) : bool :=
  match e with CallEval _ _ _ (_, None) => true | _ => false end.

Definition isCompile (e : Event) : bool :=
  match e with CallCompile _ _ => true | _ => false end.

(** The lines of the report of [runBenchmark]: statistics and summary. *)
Definition isReportLine (e : Event) : bool :=
  match e with
  | PrintExpressionNumber _ | PrintContent _ | PrintEvaluations _ | PrintTotalTime _
  | PrintAverageTime _ | PrintEvaluationsPerSecond _ _ | PrintSummaryBanner
  | PrintTotalDuration _ | PrintTotalEvaluations _ | PrintOverallRate _ _ => true
  | _ => false
  end.

(** The error with which [compileExpressions] stops at [expr], if it does:
    [expr] is not empty and either [Compile] reports an error or [Program]
    does. *)
Definition failureOf (env : Env) (expr : string) : option error :=
  if String.eqb expr "" then None
  else
    match env_Compile env expr with
    | (_, Some (Some cause)) => Some (fmt_Errorf "compilation failed: " cause)
    | (ast, _) =>
        match env_Program env ast with
        | Fail cause => Some (fmt_Errorf "failed to create program: " cause)
        | Ok _ => None
        end
    end.

(** The index of the failing expression of a batch: the first one at which
    [compileExpressions] stops. *)
Fixpoint failingIndex (env : Env) (i : nat) (expressions : list string) : option nat :=
  match expressions with
  | [] => None
  | expr :: rest =>
      match failureOf env expr with
      | Some _ => Some i
      | None => failingIndex env (S i) rest
      end
  end.

(** The calls [compileExpressions] makes for one expression that is not
    empty. *)
Definition compileCalls (env : Env) (expr : string) : list Event :=
  CallCompile expr (env_Compile env expr)
  :: match env_Compile env expr with
     | (_, Some (Some _)) => []
     | (ast, _) => [CallProgram ast (env_Program env ast)]
     end.

(** [program] is what [expr] compiles to. *)
Definition compiledFrom (env : Env) (expr : string) (program : cel_Program) : Prop :=
  exists ast issues,
    env_Compile env expr = (ast, issues) /\
    (forall cause, issues <> Some (Some cause)) /\
    env_Program env ast = Ok program.

(** The event records a call that was made: an evaluation with the answer
    the program gave in some world, a compilation of an expression that is not
    empty with the answer of the environment. *)
Definition genuine (e : Event) : Prop :=
  match e with
  | CallEval program object params answer =>
      exists w, (program_Eval program object params w).1 = answer
  | CallCompile expr _ => expr <> ""
  | PrintExpression _ expr => expr <> ""
  | _ => True
  end.

(** [m] leaves only events that satisfy [P] in the trace. *)
Definition leaves {A} (P : Event -> Prop) (m : M A) : Prop :=
  forall w, Forall P (trace (m w)).

(** [e] is the evaluation of [program] on [object] and [params], answered
    without an error. *)
Definition goodEvalOf (program : cel_Program) (params object : Document) (e : Event) : Prop :=
  exists out, e = CallEval program object params (out, None).

(** [evals] is [n] rounds, each evaluating [program] once on every object, in
    order, all answered without an error. *)
Definition roundsOf (program : cel_Program) (params : Document) (objects : list Document)
    (n : nat) (evals : list Event) : Prop :=
  exists rounds : list (list Event),
    length rounds = n /\ evals = concat rounds /\
    Forall (fun round => Forall2 (goodEvalOf program params) objects round) rounds.

(** What the timed phase leaves in the trace for one program that it
    completes: the clock is read, the rounds are run, the clock is read. *)
Record Block : Type := { blockStart : Z; blockEvals : list Event; blockEnd : Z }.

Definition blockTrace (b : Block) : list Event :=
  ReadClock (blockStart b) :: blockEvals b ++ [ReadClock (blockEnd b)].

Definition blockOf (objects : list Document) (params : Document)
    (program : cel_Program) (b : Block) : Prop :=
  roundsOf program params objects (Z.to_nat iterations) (blockEvals b).

(** The statistics the timed phase computes from a block: the difference of
    its two clock readings is added to the duration. *)
Definition statOf (b : Block) (st : exprStats) : exprStats :=
  {| evalCount := iterations; duration := duration st + (blockEnd b - blockStart b) |}.

(** The statistics of a program whose block is [b], when they start from
    zero: the fixed count, and what the two clock readings of the block
    measured. *)
Definition measured (b : Block) : exprStats :=
  {| evalCount := iterations; duration := blockEnd b - blockStart b |}.

(** What the timed phase leaves in the trace before an evaluation answers
    with an error: clock readings and evaluations without an error. *)
Definition isQuiet (e : Event) : bool :=
  match e with
  | ReadClock _ => true
  | _ => isGoodEval e
  end.

(** [t] ends with an evaluation of [program] on one of the objects that
    answered with the error [err], reported at once for the expression number
    [n], after which nothing happened. *)
Definition abortedBy (objects : list Document) (params : Document)
    (program : cel_Program) (n : Z) (err : error) (t : list Event) : Prop :=
  exists pre object out,
    object ∈ objects /\ Forall (fun e => isQuiet e = true) pre /\
    t = pre ++ [CallEval program object params (out, Some err); PrintBenchmarkError n err].

(** The body of the innermost loop of the timed phase, for the program at
    index [i]. *)
Definition timedBody (params : Document) (i : nat) (program : cel_Program)
  : Document -> M Flow :=
  fun object =>
    let* (_, err) := call_Eval program object params in
    match err with
    | Some e => do emit (PrintBenchmarkError (Z.of_nat i + 1) e) then ret Return
    | None => ret Continue
    end.

(** The statistics after the timed phase went through [blocks], for the
    programs at the indices [i], [i + 1], ... *)
Fixpoint applyBlocks (i : nat) (blocks : list Block) (stats : list exprStats) : list exprStats :=
  match blocks with
  | [] => stats
  | b :: blocks' => applyBlocks (S i) blocks' (alter (statOf b) i stats)
  end.

(** The lines of the report, in closed form. *)
Definition expressionLines (expressions : list string) (totalDuration : Z)
    (i : nat) (stat : exprStats) : list Event :=
  [PrintExpressionNumber (Z.of_nat i + 1)]
  ++ match expressions !! i with
     | Some expr => [PrintContent (contentOf expr)]
     | None => []
     end
  ++ [PrintEvaluations (evalCount stat); PrintTotalTime (duration stat)]
  ++ (if (0 <? evalCount stat)%Z
      then [PrintAverageTime (Z.quot (duration stat) (evalCount stat));
            PrintEvaluationsPerSecond (evalCount stat) totalDuration]
      else []).

Definition summaryLines (stats : list exprStats) (totalDuration : Z) : list Event :=
  [PrintSummaryBanner; PrintTotalDuration totalDuration;
   PrintTotalEvaluations (sumEvals stats); PrintOverallRate (sumEvals stats) totalDuration].

Definition reportLines (expressions : list string) (stats : list exprStats)
    (totalDuration : Z) : list Event :=
  concat (imap (expressionLines expressions totalDuration) stats)
  ++ summaryLines stats totalDuration.

End Vocabulary.

(** ** The command line

    [main] looks for the flag ["--benchmark"] among its arguments; the
    arguments that are not the flag are the positional ones. *)

Definition isFlag (arg : string) : bool := String.eqb arg "--benchmark".

Definition positional (args : list string) : list string :=
  List.filter (fun arg => negb (isFlag arg)) args.

(** ** The kinds of events *)

Section Observations.
Context `{C : Collaborators}.

(** What only [runBenchmark] leaves in a trace: its banners, the error line,
    the report, and the readings of the clock. *)
Definition isBenchmarkLine (e : Event) : bool :=
  match e with
  | PrintBenchmarkBanner | PrintWarmingUp | PrintRunningBenchmark
  | PrintBenchmarkError _ _ | ReadClock _ => true
  | _ => isReportLine e
  end.

(** What only the normal mode prints: the headers and the cells. *)
Definition isMatrixLine (e : Event) : bool :=
  match e with
  | PrintObjectHeader _ | PrintExpression _ _ => true
  | _ => isCell e
  end.

(** The two events after which the process exits with status 1. *)
Definition isFatal (e : Event) : bool :=
  match e with
  | LogFatal _ _ | PrintUsage => true
  | _ => false
  end.

(** A call to the CEL environment: a compilation or the making of a program. *)
Definition isCompilation (e : Event) : bool :=
  match e with
  | CallCompile _ _ | CallProgram _ _ => true
  | _ => false
  end.

(** The header of an object. *)
Definition isObjectHeader (e : Event) : bool :=
  match e with
  | PrintObjectHeader _ => true
  | _ => false
  end.

(** The header lines of [K] objects. *)
Definition objectHeaders (K : nat) : list Event :=
  map (fun j => PrintObjectHeader (Z.of_nat j + 1)) (seq 0 K).

(** The expressions that are not empty, each with its ordinal in the file
    (from [i + 1]). *)
Fixpoint numbered (i : nat) (expressions : list string) : list (Z * string) :=
  match expressions with
  | [] => []
  | expr :: rest =>
      if String.eqb expr "" then numbered (S i) rest
      else ((Z.of_nat i + 1)%Z, expr) :: numbered (S i) rest
  end.

(** What the normal mode leaves for the cell of [object] and of the
    expression [cell]: the header of the expression, the compilation, then
    the making of the program if the compilation reported no error, then the
    evaluation if there is a program, and one line for the step that failed
    or for the result.  The evaluation is made in some world [w]. *)
Definition cellOf (env : Env) (params object : Document) (cell : Z * string)
    (t : list Event) : Prop :=
  exists ast issues,
    env_Compile env cell.2 = (ast, issues) /\
    match issues with
    | Some (Some cause) =>
        t = [PrintExpression cell.1 cell.2; CallCompile cell.2 (ast, issues);
             PrintCompilationFailed cause]
    | _ =>
        match env_Program env ast with
        | Fail err =>
            t = [PrintExpression cell.1 cell.2; CallCompile cell.2 (ast, issues);
                 CallProgram ast (Fail err); PrintProgramFailed err]
        | Ok program =>
            exists w,
              t = [PrintExpression cell.1 cell.2; CallCompile cell.2 (ast, issues);
                   CallProgram ast (Ok program);
                   CallEval program object params (program_Eval program object params w).1;
                   match (program_Eval program object params w).1 with
                   | (_, Some e) => PrintEvaluationFailed e
                   | (out, None) => PrintResult out
                   end]
        end
    end.

(** What the normal mode leaves for the objects [objects] (numbered from
    [i + 1]): for each object its header, then its cells. *)
Fixpoint matrixOf (env : Env) (params : Document) (expressions : list string)
    (i : nat) (objects : list Document) (t : list Event) : Prop :=
  match objects with
  | [] => t = []
  | object :: rest =>
      exists cells t',
        t = PrintObjectHeader (Z.of_nat i + 1) :: concat cells ++ t' /\
        Forall2 (cellOf env params object) (numbered 0 expressions) cells /\
        matrixOf env params expressions (S i) rest t'
  end.

(** The readings of the clock in a trace, in order. *)
Fixpoint readings (t : list Event) : list Z :=
  match t with
  | [] => []
  | ReadClock now :: t' => now :: readings t'
  | _ :: t' => readings t'
  end.

(** The times [l] never go down, start at [c] or later and end at [c'] or
    earlier. *)
Fixpoint ascending (c : Z) (l : list Z) (c' : Z) : Prop :=
  match l with
  | [] => (c <= c')%Z
  | x :: l' => (c <= x)%Z /\ ascending x l' c'
  end.

(** The readings [m] makes are in step with the time [clock] of the world:
    they never go down, nor below the time at which [m] starts, nor above the
    time at which it ends. *)
Definition timely (clock : World -> Z) {A} (m : M A) : Prop :=
  forall w, ascending (clock w) (readings (trace (m w))) (clock (world (m w))).

(** The sum of the durations of the statistics. *)
Definition sumDurations (stats : list exprStats) : Z :=
  foldr (fun stat total => (duration stat + total)%Z) 0%Z stats.

(** An evaluation recorded by [e] was given one of [objects], the document
    [params], and a program made from one of [expressions] that is not
    empty. *)
Definition fromTheFiles (env : Env) (params : Document) (objects : list Document)
    (expressions : list string) (e : Event) : Prop :=
  match e with
  | CallEval program object ps _ =>
      ps = params /\ In object objects /\
      exists expr, In expr expressions /\ expr <> "" /\ compiledFrom env expr program
  | _ => True
  end.

(** The inputs of the evaluations of a trace, in order. *)
Fixpoint inputsOf (t : list Event) : list (cel_Program * Document * Document) :=
  match t with
  | [] => []
  | CallEval program object params _ :: t' => (program, object, params) :: inputsOf t'
  | _ :: t' => inputsOf t'
  end.

(** The decoder as a stream: the decoder after [k] calls to [Decode], and
    the answer of the call number [k] (from 0) on the stream of [data]. *)
Fixpoint decoderAfter (k : nat) (decoder : Decoder) : Decoder :=
  match k with
  | O => decoder
  | S k' => decoderAfter k' (Decode decoder).2
  end.

Definition answerAt (data : string) (k : nat) : result Document :=
  (Decode (decoderAfter k (yaml_NewDecoder data))).1.

End Observations.

(** ** A small implementation of the collaborators, to run cel.go on inputs

    A document is one byte of the stream, ["!"] is a malformed document.  An
    expression that starts with ["?"] does not compile, one that starts with
    ["#"] has no program, and a program that starts with ["!"] fails on the
    object ["b"].  The world is the clock: an evaluation takes one
    nanosecond. *)

Module Sample.

Definition decode (decoder : string) : result string * string :=
  match decoder with
  | EmptyString => (Fail io_EOF, EmptyString)
  | String c rest =>
      if Ascii.eqb c "!" then (Fail (errorString "yaml: malformed document"), rest)
      else (Ok (String c EmptyString), rest)
  end.

Definition expressionFile : string :=
  "a==1" +:+ lf +:+ "---" +:+ lf +:+ lf +:+ "---" +:+ lf +:+ "b==2".

Definition readFile (filename : string) : result string :=
  if String.eqb filename "objects.yaml" then Ok "abc"
  else if String.eqb filename "two.yaml" then Ok "ab"
  else if String.eqb filename "expressions.cel" then Ok expressionFile
  else if String.eqb filename "leading.cel" then Ok ("---" +:+ lf +:+ "x > 0")
  else if String.eqb filename "throws.cel" then Ok "!object.k"
  else if String.eqb filename "params.yaml" then Ok "p"
  else if String.eqb filename "empty.yaml" then Ok ""
  else Fail (errorString "open: no such file or directory").

Definition compile (env : unit) (expr : string) : string * option (option error) :=
  if String.prefix "?" expr then (expr, Some (Some (errorString "syntax error")))
  else (expr, None).

Definition newProgram (env : unit) (ast : string) : result string :=
  if String.prefix "#" ast then Fail (errorString "no matching overload") else Ok ast.

Definition eval (program object params : string) (w : Z) : (string * option error) * Z :=
  if String.prefix "!" program && String.eqb object "b"
  then (("", Some (errorString "no such key")), (w + 1)%Z)
  else ((program, None), (w + 1)%Z).

#[export] Instance collaborators : Collaborators := {|
  Document := string;
  Decoder := string;
  Env := unit;
  Ast := string;
  cel_Program := string;
  Val := string;
  World := Z;
  yaml_NewDecoder := fun data => data;
  Decode := decode;
  os_ReadFile := readFile;
  cel_NewEnv := Ok tt;
  env_Compile := compile;
  env_Program := newProgram;
  program_Eval := eval;
  time_Now := fun w => (w, w);
|}.

End Sample.

(** ** The sample collaborators with more files

    ["broken.cel"] holds an expression that does not compile between two that
    do, ["blank.cel"] holds white space only, and ["garbled.yaml"] holds a
    malformed document after a first document that is fine. *)

Module Files.

Definition readFile (filename : string) : result string :=
  if String.eqb filename "broken.cel"
  then Ok ("a==1" +:+ lf +:+ "---" +:+ lf +:+ "?b" +:+ lf +:+ "---" +:+ lf +:+ "c")
  else if String.eqb filename "blank.cel" then Ok (" " +:+ lf)
  else if String.eqb filename "garbled.yaml" then Ok "a!c"
  else Sample.readFile filename.

Definition collaborators : Collaborators := {|
  Document := string;
  Decoder := string;
  Env := unit;
  Ast := string;
  cel_Program := string;
  Val := string;
  World := Z;
  yaml_NewDecoder := fun data => data;
  Decode := Sample.decode;
  os_ReadFile := readFile;
  cel_NewEnv := Ok tt;
  env_Compile := Sample.compile;
  env_Program := Sample.newProgram;
  program_Eval := Sample.eval;
  time_Now := fun w => (w, w);
|}.

End Files.

(** ** The sample collaborators with a file of every outcome

    ["outcomes.cel"] holds, in this order: an expression that evaluates, one
    that does not compile, an empty segment, one whose evaluation fails on
    the object ["b"], one that has no program, and one that evaluates. *)

Module Outcomes.

Definition expressionFile : string :=
  "a==1" +:+ lf +:+ "---" +:+ lf +:+ "?b" +:+ lf +:+ "---" +:+ lf +:+ "---" +:+ lf
  +:+ "!k" +:+ lf +:+ "---" +:+ lf +:+ "#p" +:+ lf +:+ "---" +:+ lf +:+ "c" +:+ lf.

Definition readFile (filename : string) : result string :=
  if String.eqb filename "outcomes.cel" then Ok expressionFile
  else Sample.readFile filename.

Definition collaborators : Collaborators := {|
  Document := string;
  Decoder := string;
  Env := unit;
  Ast := string;
  cel_Program := string;
  Val := string;
  World := Z;
  yaml_NewDecoder := fun data => data;
  Decode := Sample.decode;
  os_ReadFile := readFile;
  cel_NewEnv := Ok tt;
  env_Compile := Sample.compile;
  env_Program := Sample.newProgram;
  program_Eval := Sample.eval;
  time_Now := fun w => (w, w);
|}.

End Outcomes.

(** * Properties *)

(** ** The string functions on examples *)

Example TrimSpace_ascii : TrimSpace ("  " +:+ lf +:+ "object.a > 1 " +:+ lf) = "object.a > 1".
Proof. vm_compute. reflexivity. Qed.

Example TrimSpace_unicode :
  TrimSpace (bytes [226; 128; 131] +:+ "a" +:+ bytes [194; 160; 227; 128; 128]) = "a".
Proof. vm_compute. reflexivity. Qed.

Example TrimSpace_stray_byte :
  TrimSpace (bytes [128; 32; 97; 32; 128]) = bytes [128; 32; 97; 32; 128].
Proof. vm_compute. reflexivity. Qed.

Example TrimSpace_only_spaces : TrimSpace ("  " +:+ lf +:+ " ") = "".
Proof. vm_compute. reflexivity. Qed.

Example Split_keeps_empty : Split "a------b---" "---" = ["a"; ""; "b"; ""].
Proof. vm_compute. reflexivity. Qed.

Example Split_empty : Split "" "---" = [""].
Proof. vm_compute. reflexivity. Qed.

Example Split_four_dashes : Split "a----b" "---" = ["a"; "-b"].
Proof. vm_compute. reflexivity. Qed.

Example contentOf_short : contentOf "a==1" = "a==1...".
Proof. vm_compute. reflexivity. Qed.

Example contentOf_long :
  contentOf "0123456789012345678901234567890123456789012345678901234567890"
  = "01234567890123456789012345678901234567890123456789...".
Proof. vm_compute. reflexivity. Qed.

(** The scenario of the expression file with an empty middle segment. *)
Example splitExpressions_scenario :
  splitExpressions Sample.expressionFile = ["a==1"; ""; "b==2"].
Proof. vm_compute. reflexivity. Qed.

Section Properties.
Context `{C : Collaborators}.

(** ** The monad *)

Lemma run_eta {A} (r : A * World * list Event) : r = (value r, world r, trace r).
Proof. by destruct r as [[??]?]. Qed.

Lemma value_bind {A B} (m : M A) (k : A -> M B) w :
  value (bind m k w) = value (k (value (m w)) (world (m w))).
Proof. unfold bind, value, world, trace. destruct (m w) as [[a w1] t1]; simpl. by destruct (k a w1) as [[??]?]. Qed.

Lemma world_bind {A B} (m : M A) (k : A -> M B) w :
  world (bind m k w) = world (k (value (m w)) (world (m w))).
Proof. unfold bind, value, world, trace. destruct (m w) as [[a w1] t1]; simpl. by destruct (k a w1) as [[??]?]. Qed.

Lemma trace_bind {A B} (m : M A) (k : A -> M B) w :
  trace (bind m k w) = trace (m w) ++ trace (k (value (m w)) (world (m w))).
Proof. unfold bind, value, world, trace. destruct (m w) as [[a w1] t1]; simpl. by destruct (k a w1) as [[??]?]. Qed.

Ltac run_simpl := cbn [value world trace fst snd] in *.

Lemma emit_run e w : emit e w = (tt, w, [e]).
Proof. done. Qed.

(** ** Loops without [return] *)

Lemma range_world_trace {A} (P : Event -> Prop) (c : nat) (body : nat -> A -> M unit) xs :
  (forall i x w, Forall P (trace (body i x w)) /\ length (trace (body i x w)) = c) ->
  forall i w, Forall P (trace (range i xs body w)) /\
              length (trace (range i xs body w)) = length xs * c.
Proof.
  intros Hbody. induction xs as [|x xs IH]; intros i w; simpl.
  - split; [constructor | done].
  - rewrite trace_bind, length_app.
    destruct (Hbody i x w) as [HP Hc].
    destruct (IH (S i) (world (body i x w))) as [HP' Hc'].
    split; [by apply Forall_app | lia].
Qed.

Lemma times_world_trace (P : Event -> Prop) (c : nat) (body : M unit) n :
  (forall w, Forall P (trace (body w)) /\ length (trace (body w)) = c) ->
  forall w, Forall P (trace (times n body w)) /\
            length (trace (times n body w)) = n * c.
Proof.
  intros Hbody. induction n as [|n IH]; intros w; simpl.
  - split; [constructor | done].
  - rewrite trace_bind, length_app.
    destruct (Hbody w) as [HP Hc].
    destruct (IH (world (body w))) as [HP' Hc'].
    split; [by apply Forall_app | lia].
Qed.

Lemma call_Eval_run program object params w :
  call_Eval program object params w =
    ((program_Eval program object params w).1, (program_Eval program object params w).2,
     [CallEval program object params (program_Eval program object params w).1]).
Proof. unfold call_Eval. by destruct (program_Eval program object params w). Qed.

(** The warm-up phase evaluates every (object, program) pair ten times and
    leaves nothing else in the trace, whatever the evaluations answer. *)
Lemma warmUp_trace objects programs params w :
  Forall (fun e => isEval e = true) (trace (warmUp objects programs params w)) /\
  length (trace (warmUp objects programs params w)) = 10 * (length objects * length programs).
Proof.
  unfold warmUp. apply times_world_trace. intros w1.
  apply range_world_trace. intros _ object w2.
  rewrite <- (Nat.mul_1_r (length programs)).
  apply range_world_trace. intros _ program w3.
  rewrite trace_bind, call_Eval_run. simpl. split; [by repeat constructor | done].
Qed.

(** ** The loops of the timed phase *)

Section TimedLoops.
Variables (objects : list Document) (params : Document) (i : nat) (program : cel_Program).

Lemma timed_body_run object w :
  timedBody params i program object w =
    match (program_Eval program object params w).1 with
    | (out, Some e) =>
        (Return, (program_Eval program object params w).2,
         [CallEval program object params (out, Some e); PrintBenchmarkError (Z.of_nat i + 1) e])
    | (out, None) =>
        (Continue, (program_Eval program object params w).2,
         [CallEval program object params (out, None)])
    end.
Proof.
  unfold timedBody. unfold bind at 1. rewrite call_Eval_run.
  destruct (program_Eval program object params w) as [[out [e|]] w']; reflexivity.
Qed.

Lemma rangeUntil_timed (objs : list Document) w :
  objs ⊆ objects ->
  let r := rangeUntil objs (timedBody params i program) w in
  (value r = Continue /\ Forall2 (goodEvalOf program params) objs (trace r)) \/
  (value r = Return /\ exists err, abortedBy objects params program (Z.of_nat i + 1) err (trace r)).
Proof.
  revert w. induction objs as [|object objs IH]; intros w Hsub; simpl.
  - left. split; [done | constructor].
  - rewrite value_bind, trace_bind. rewrite !timed_body_run.
    destruct (program_Eval program object params w) as [[out [e|]] w'] eqn:E; run_simpl.
    + right. split; [done|]. exists e, [], object, out.
      split; [apply Hsub, list_elem_of_here|]. split; [constructor | done].
    + destruct (IH w') as [[Hv Ht]|[Hv (err & pre & o & out' & Ho & Hpre & Ht)]];
        [by intros x Hx; apply Hsub, list_elem_of_further|..].
      * left. split; [done|]. constructor; [by exists out | done].
      * right. split; [done|]. exists err, (CallEval program object params (out, None) :: pre), o, out'.
        split; [done|]. split; [by constructor|]. by rewrite Ht.
Qed.

Lemma timesUntil_timed n w :
  let r := timesUntil n (rangeUntil objects (timedBody params i program)) w in
  (value r = Continue /\ roundsOf program params objects n (trace r)) \/
  (value r = Return /\ exists err, abortedBy objects params program (Z.of_nat i + 1) err (trace r)).
Proof.
  revert w. induction n as [|n IH]; intros w; simpl.
  - left. split; [done|]. exists []. by repeat split.
  - rewrite value_bind, trace_bind.
    destruct (rangeUntil_timed objects w) as [[Hv Ht]|[Hv Hab]]; [done|..]; rewrite Hv.
    + destruct (IH (world (rangeUntil objects (timedBody params i program) w)))
        as [[Hv' (rounds & Hn & Ht' & Hr)]|[Hv' (err & pre & o & out & Ho & Hpre & Ht')]].
      * left. split; [done|]. exists (trace (rangeUntil objects (timedBody params i program) w) :: rounds).
        split; [by simpl; f_equal|]. split; [by simpl; f_equal | by constructor].
      * right. split; [done|]. exists err, (trace (rangeUntil objects (timedBody params i program) w) ++ pre), o, out.
        split; [done|]. split.
        -- apply Forall_app. split; [|done].
           clear -Ht. induction Ht as [|?? ?? [out' ->]]; constructor; done.
        -- by rewrite Ht', app_assoc.
    + right. split; [done|]. simpl. by rewrite app_nil_r.
Qed.

End TimedLoops.

(** ** The timed phase *)

Lemma call_Now_run w : call_Now w = ((time_Now w).1, (time_Now w).2, [ReadClock (time_Now w).1]).
Proof. unfold call_Now. by destruct (time_Now w). Qed.

Lemma time_Since_run t w :
  time_Since t w = (((time_Now w).1 - t)%Z, (time_Now w).2, [ReadClock (time_Now w).1]).
Proof. unfold time_Since, bind. by rewrite call_Now_run. Qed.

Lemma goodEvalOf_quiet program params object e :
  goodEvalOf program params object e -> isQuiet e = true.
Proof. by intros [out ->]. Qed.

Lemma roundsOf_quiet program params objects n evals :
  roundsOf program params objects n evals -> Forall (fun e => isQuiet e = true) evals.
Proof.
  intros (rounds & _ & -> & Hr). induction Hr as [|round rounds Hround _ IH]; simpl; [constructor|].
  apply Forall_app. split; [|done].
  clear -Hround. induction Hround; constructor; eauto using goodEvalOf_quiet.
Qed.

Lemma blockTrace_quiet objects params program b :
  blockOf objects params program b -> Forall (fun e => isQuiet e = true) (blockTrace b).
Proof.
  intros Hb. unfold blockTrace. constructor; [done|].
  apply Forall_app. split; [by eapply roundsOf_quiet | by repeat constructor].
Qed.

Lemma abortedBy_app objects params program n err pre t :
  Forall (fun e => isQuiet e = true) pre ->
  abortedBy objects params program n err t ->
  abortedBy objects params program n err (pre ++ t).
Proof.
  intros Hpre (pre' & o & out & Ho & Hpre' & ->).
  exists (pre ++ pre'), o, out. split; [done|]. split; [by apply Forall_app|].
  by rewrite app_assoc.
Qed.

Lemma timedPhase_run objects params programs : forall i stats w r w' t,
  timedPhase objects params i programs stats w = (r, w', t) ->
  match r with
  | Some stats' =>
      exists blocks,
        Forall2 (blockOf objects params) programs blocks /\
        t = concat (map blockTrace blocks) /\
        stats' = applyBlocks i blocks stats
  | None =>
      exists k program err,
        programs !! k = Some program /\
        abortedBy objects params program (Z.of_nat (i + k) + 1) err t
  end.
Proof.
  induction programs as [|program programs IH]; intros i stats w r w' t Hrun;
    cbn [timedPhase] in Hrun; cbv zeta in Hrun.
  - inversion Hrun; subst. exists []. by repeat split.
  - assert (exists n, n = Z.to_nat iterations) as [n Hn] by eauto.
    rewrite <- Hn in Hrun.
    unfold bind at 1 in Hrun. rewrite call_Now_run in Hrun. unfold bind at 1 in Hrun.
    pose proof (timesUntil_timed objects params i program n (time_Now w).2) as Hit.
    cbv zeta in Hit. unfold timedBody in Hit.
    match type of Hit with context [value ?m] => destruct m as [[f w1] t1] end.
    run_simpl. destruct Hit as [[-> Hr]|[-> (err & Hab)]].
    + unfold bind at 1 in Hrun. rewrite time_Since_run in Hrun.
      match type of Hrun with context [timedPhase _ _ _ _ ?s ?w'] =>
        specialize (IH (S i) s w');
        destruct (timedPhase objects params (S i) programs s w') as [[r2 w2] t2]
      end.
      specialize (IH _ _ _ eq_refl). inversion Hrun; subst r w' t; clear Hrun.
      rewrite Hn in Hr. clear Hn.
      destruct r2 as [stats'|].
      * destruct IH as (blocks & Hblocks & -> & ->).
        exists ({| blockStart := (time_Now w).1; blockEvals := t1; blockEnd := (time_Now w1).1 |} :: blocks).
        split; [by constructor|]. split.
        -- simpl. unfold blockTrace at 1. simpl. by rewrite <- app_assoc.
        -- simpl. f_equal. rewrite list_alter_alter_eq. by apply list_alter_ext.
      * destruct IH as (k & p & err & Hk & Hab).
        exists (S k), p, err. split; [done|]. replace (i + S k) with (S i + k) by lia.
        replace (ReadClock (time_Now w).1 :: t1 ++ ReadClock (time_Now w1).1 :: t2)
          with ((ReadClock (time_Now w).1 :: t1 ++ [ReadClock (time_Now w1).1]) ++ t2)
          by (by simpl; rewrite <- app_assoc).
        apply abortedBy_app; [|done].
        constructor; [done|]. apply Forall_app. split; [by eapply roundsOf_quiet | by repeat constructor].
    + inversion Hrun; subst r w' t; clear Hrun Hn.
      exists 0, program, err. split; [done|]. rewrite Nat.add_0_r.
      by apply (abortedBy_app _ _ _ _ _ [ReadClock _]); [repeat constructor|rewrite app_nil_r].
Qed.

(** The statistics start from zero, so that a completed timed phase leaves,
    for each program, exactly what its block measured. *)
Lemma applyBlocks_replicate blocks : forall i (before : list exprStats) z,
  length before = i ->
  applyBlocks i blocks (before ++ replicate (length blocks) z)
  = before ++ map (fun b => statOf b z) blocks.
Proof.
  induction blocks as [|b blocks IH]; intros i before z Hi; simpl; [done|].
  rewrite alter_app_r_alt by lia. replace (i - length before) with 0 by lia. simpl.
  replace (before ++ statOf b z :: replicate (length blocks) z)
    with ((before ++ [statOf b z]) ++ replicate (length blocks) z) by (by rewrite <- app_assoc).
  rewrite IH by (rewrite length_app; simpl; lia). by rewrite <- app_assoc.
Qed.

Lemma applyBlocks_make_stats blocks :
  applyBlocks 0 blocks (make_stats (length blocks))
  = map (fun b => {| evalCount := iterations; duration := 0 + (blockEnd b - blockStart b) |}) blocks.
Proof. apply (applyBlocks_replicate blocks 0 []). done. Qed.

(** ** The report *)

Lemma reportExpression_run expressions totalDuration i stat w :
  reportExpression expressions totalDuration i stat w
  = (tt, w, expressionLines expressions totalDuration i stat).
Proof.
  unfold reportExpression, expressionLines, bind, emit, ret.
  destruct (expressions !! i); destruct (0 <? evalCount stat)%Z; reflexivity.
Qed.

Lemma range_pure {A} (f : nat -> A -> list Event) (body : nat -> A -> M unit) xs :
  (forall i x w, body i x w = (tt, w, f i x)) ->
  forall i w, range i xs body w = (tt, w, concat (imap (fun j => f (i + j)) xs)).
Proof.
  intros Hbody. induction xs as [|x xs IH]; intros i w; simpl; [done|].
  unfold bind. rewrite Hbody, IH. rewrite Nat.add_0_r. do 3 f_equal.
  apply imap_ext. intros j y _. simpl. f_equal. lia.
Qed.

Lemma report_run expressions stats totalDuration w :
  report expressions stats totalDuration w = (tt, w, reportLines expressions stats totalDuration).
Proof.
  unfold report. unfold bind at 1.
  rewrite (range_pure (expressionLines expressions totalDuration))
    by apply reportExpression_run.
  reflexivity.
Qed.

(** ** runBenchmark, as a whole *)

Lemma runBenchmark_run objects programs params expressions w r w' t :
  runBenchmark objects programs params expressions w = (r, w', t) ->
  exists warm t0 timed,
    Forall (fun e => isEval e = true) warm /\
    length warm = 10 * (length objects * length programs) /\
    t = [PrintBenchmarkBanner; PrintWarmingUp] ++ warm
        ++ [PrintRunningBenchmark; ReadClock t0] ++ timed /\
    ((exists blocks t1,
        Forall2 (blockOf objects params) programs blocks /\
        timed = concat (map blockTrace blocks)
                ++ ReadClock t1
                   :: reportLines expressions
                        (applyBlocks 0 blocks (make_stats (length programs))) (t1 - t0))
     \/
     (exists k program err,
        programs !! k = Some program /\
        abortedBy objects params program (Z.of_nat k + 1) err timed)).
Proof.
  intros Hrun. unfold runBenchmark in Hrun. cbv zeta in Hrun.
  unfold bind at 1 2 3 in Hrun. rewrite !emit_run in Hrun.
  destruct (warmUp_trace objects programs params w) as [Hwarm Hlen].
  destruct (warmUp objects programs params w) as [[[] w1] warm]. run_simpl.
  unfold bind at 1 2 in Hrun. rewrite emit_run, call_Now_run in Hrun.
  unfold bind at 1 in Hrun.
  pose proof (timedPhase_run objects params programs 0 (make_stats (length programs)) (time_Now w1).2) as Htimed.
  destruct (timedPhase objects params 0 programs (make_stats (length programs)) (time_Now w1).2)
    as [[stats' w2] timed].
  specialize (Htimed _ _ _ eq_refl).
  exists warm, (time_Now w1).1. destruct stats' as [stats'|].
  - destruct Htimed as (blocks & Hblocks & -> & ->).
    unfold bind at 1 in Hrun. rewrite time_Since_run, report_run in Hrun.
    inversion Hrun; subst; clear Hrun.
    eexists. split; [done|]. split; [done|]. split; [reflexivity|].
    left. by exists blocks, (time_Now w2).1.
  - destruct Htimed as (k & p & err & Hk & Hab).
    inversion Hrun; subst; clear Hrun.
    exists timed. split; [done|]. split; [done|]. split.
    { simpl. by rewrite app_nil_r. }
    right. by exists k, p, err.
Qed.

(** ** What a run leaves in the trace *)

Lemma leaves_ret {A} P (a : A) : leaves P (ret a).
Proof. intros w. constructor. Qed.

Lemma leaves_emit (P : Event -> Prop) e : P e -> leaves P (emit e).
Proof. intros He w. by repeat constructor. Qed.

Lemma leaves_bind {A B} P (m : M A) (k : A -> M B) :
  leaves P m -> (forall a, leaves P (k a)) -> leaves P (bind m k).
Proof. intros Hm Hk w. rewrite trace_bind. apply Forall_app. split; [apply Hm | apply Hk]. Qed.

Lemma leaves_range {A} P (body : nat -> A -> M unit) xs i :
  (forall j x, leaves P (body j x)) -> leaves P (range i xs body).
Proof.
  intros Hbody. revert i. induction xs as [|x xs IH]; intros i; simpl.
  - apply leaves_ret.
  - apply leaves_bind; [apply Hbody | intros _; apply IH].
Qed.

Lemma leaves_times P (body : M unit) n : leaves P body -> leaves P (times n body).
Proof.
  intros Hbody. induction n as [|n IH]; simpl.
  - apply leaves_ret.
  - apply leaves_bind; [done | by intros _].
Qed.

Lemma leaves_rangeUntil {A} P (body : A -> M Flow) xs :
  (forall x, leaves P (body x)) -> leaves P (rangeUntil xs body).
Proof.
  intros Hbody. induction xs as [|x xs IH]; simpl.
  - apply leaves_ret.
  - apply leaves_bind; [apply Hbody | intros []; [done | apply leaves_ret]].
Qed.

Lemma leaves_timesUntil P (body : M Flow) n : leaves P body -> leaves P (timesUntil n body).
Proof.
  intros Hbody. induction n as [|n IH]; simpl.
  - apply leaves_ret.
  - apply leaves_bind; [done | intros []; [done | apply leaves_ret]].
Qed.

Lemma leaves_call_Eval program object params : leaves genuine (call_Eval program object params).
Proof. intros w. rewrite call_Eval_run. repeat constructor. by exists w. Qed.

Lemma leaves_call_Now : leaves genuine call_Now.
Proof. intros w. rewrite call_Now_run. by repeat constructor. Qed.

Lemma leaves_time_Since t : leaves genuine (time_Since t).
Proof. intros w. rewrite time_Since_run. by repeat constructor. Qed.

Lemma leaves_call_Compile env expr : expr <> "" -> leaves genuine (call_Compile env expr).
Proof. intros Hne w. by repeat constructor. Qed.

Lemma leaves_call_Program env ast : leaves genuine (call_Program env ast).
Proof. intros w. by repeat constructor. Qed.

Lemma leaves_warmUp objects programs params : leaves genuine (warmUp objects programs params).
Proof.
  apply leaves_times, leaves_range. intros _ object. apply leaves_range. intros _ program.
  apply leaves_bind; [apply leaves_call_Eval | intros _; apply leaves_ret].
Qed.

Lemma leaves_timedPhase objects params programs : forall i stats,
  leaves genuine (timedPhase objects params i programs stats).
Proof.
  induction programs as [|program programs IH]; intros i stats; cbn [timedPhase].
  - apply leaves_ret.
  - apply leaves_bind; [apply leaves_call_Now | intros exprStart].
    apply leaves_bind.
    + apply leaves_timesUntil, leaves_rangeUntil. intros object.
      apply leaves_bind; [apply leaves_call_Eval | intros [out [e|]]].
      * apply leaves_bind; [by apply leaves_emit | intros _; apply leaves_ret].
      * apply leaves_ret.
    + intros []; [|apply leaves_ret].
      apply leaves_bind; [apply leaves_time_Since | intros d; apply IH].
Qed.

Lemma leaves_report expressions stats totalDuration :
  leaves genuine (report expressions stats totalDuration).
Proof.
  intros w. rewrite report_run. simpl. unfold reportLines. apply Forall_app. split.
  - apply Forall_concat, Forall_forall. intros l [i Hi]%list_elem_of_lookup_1.
    apply list_lookup_imap_Some in Hi as (stat & _ & ->).
    unfold expressionLines.
    destruct (expressions !! i); destruct (0 <? evalCount _)%Z; by repeat constructor.
  - by repeat constructor.
Qed.

Lemma leaves_runBenchmark objects programs params expressions :
  leaves genuine (runBenchmark objects programs params expressions).
Proof.
  unfold runBenchmark.
  apply leaves_bind; [by apply leaves_emit | intros _].
  apply leaves_bind; [by apply leaves_emit | intros _].
  apply leaves_bind; [apply leaves_warmUp | intros _].
  apply leaves_bind; [by apply leaves_emit | intros _].
  apply leaves_bind; [apply leaves_call_Now | intros startTime].
  apply leaves_bind; [apply leaves_timedPhase | intros [stats|]]; [|apply leaves_ret].
  apply leaves_bind; [apply leaves_time_Since | intros d; apply leaves_report].
Qed.

Lemma leaves_compileExpressions_loop env expressions : forall programs,
  leaves genuine (compileExpressions_loop env expressions programs).
Proof.
  induction expressions as [|expr rest IH]; intros programs; simpl.
  - apply leaves_ret.
  - destruct (String.eqb_spec expr "") as [->|Hne]; [apply IH|].
    apply leaves_bind; [by apply leaves_call_Compile | intros [ast [[cause|]|]]].
    + apply leaves_ret.
    + apply leaves_bind; [apply leaves_call_Program | intros [program|err]];
        [apply IH | apply leaves_ret].
    + apply leaves_bind; [apply leaves_call_Program | intros [program|err]];
        [apply IH | apply leaves_ret].
Qed.

Lemma leaves_evaluateCell env params object exprIdx expr :
  leaves genuine (evaluateCell env params object exprIdx expr).
Proof.
  unfold evaluateCell. destruct (String.eqb_spec expr "") as [->|Hne]; [apply leaves_ret|].
  apply leaves_bind; [by apply leaves_emit | intros _].
  apply leaves_bind; [by apply leaves_call_Compile | intros [ast issues]].
  assert (leaves genuine
    (let* r := call_Program env ast in
     match r with
     | Ok program =>
         let* (out, err) := call_Eval program object params in
         match err with
         | Some e => emit (PrintEvaluationFailed e)
         | None => emit (PrintResult out)
         end
     | Fail err => emit (PrintProgramFailed err)
     end)) as Hrest.
  { apply leaves_bind; [apply leaves_call_Program | intros [program|err]]; [|by apply leaves_emit].
    apply leaves_bind; [apply leaves_call_Eval | intros [out [e|]]]; by apply leaves_emit. }
  destruct issues as [[cause|]|]; [by apply leaves_emit | done | done].
Qed.

Lemma leaves_evaluationMatrix env objects expressions params :
  leaves genuine (evaluationMatrix env objects expressions params).
Proof.
  apply leaves_range. intros objIdx object.
  apply leaves_bind; [by apply leaves_emit | intros _].
  apply leaves_range. intros exprIdx expr. apply leaves_evaluateCell.
Qed.

Lemma leaves_log_Fatal msg err : leaves genuine (log_Fatal msg err).
Proof. apply leaves_bind; [by apply leaves_emit | intros _; apply leaves_ret]. Qed.

Lemma leaves_main fuel args : leaves genuine (main fuel args).
Proof.
  unfold main. destruct (filterArgs args false []) as [benchmarkMode filteredArgs].
  destruct filteredArgs as [|objectFile [|expressionFile [|paramsFile rest]]];
    try (apply leaves_bind; [by apply leaves_emit | intros _; apply leaves_ret]).
  destruct (loadFile objectFile); [|apply leaves_log_Fatal].
  destruct (parseYAMLDocuments fuel _) as [[objects|]|];
    [|apply leaves_log_Fatal|apply leaves_ret].
  destruct (loadFile expressionFile); [|apply leaves_log_Fatal].
  destruct (loadFile paramsFile); [|apply leaves_log_Fatal].
  destruct (parseSingleYAMLDocument _) as [params|]; [|apply leaves_log_Fatal].
  destruct cel_NewEnv as [env|]; [|apply leaves_log_Fatal].
  destruct benchmarkMode.
  - apply leaves_bind; [apply leaves_compileExpressions_loop | intros [programs|err]];
      [|apply leaves_log_Fatal].
    apply leaves_bind; [apply leaves_runBenchmark | intros _; apply leaves_ret].
  - apply leaves_bind; [apply leaves_evaluationMatrix | intros _; apply leaves_ret].
Qed.

(** ** The document loader *)

Lemma parseYAMLDocuments_loop_extends fuel : forall decoder documents parsed,
  parseYAMLDocuments_loop fuel decoder documents = Some (Ok parsed) ->
  exists more, parsed = documents ++ more.
Proof.
  induction fuel as [|fuel IH]; intros decoder documents parsed Hloop; simpl in Hloop; [done|].
  destruct (Decode decoder) as [[doc|[|msg]] decoder']; simplify_eq.
  - apply IH in Hloop as [more ->]. exists (doc :: more). by rewrite <- app_assoc.
  - exists []. by rewrite app_nil_r.
Qed.

(** More fuel does not change an answer. *)
Lemma parseYAMLDocuments_loop_fuel fuel : forall fuel' decoder documents answer,
  parseYAMLDocuments_loop fuel decoder documents = Some answer ->
  fuel <= fuel' ->
  parseYAMLDocuments_loop fuel' decoder documents = Some answer.
Proof.
  induction fuel as [|fuel IH]; intros fuel' decoder documents answer Hloop Hle;
    simpl in Hloop; [done|].
  destruct fuel' as [|fuel']; [lia|]. simpl.
  destruct (Decode decoder) as [[doc|[|msg]] decoder']; try done.
  apply IH; [done | lia].
Qed.

(** With a decoder that consumes its input ([size] decreases with every
    document decoded), the loop ends: fuel above the size of the decoder is
    enough. *)
Lemma parseYAMLDocuments_loop_ends (size : Decoder -> nat) :
  (forall decoder doc decoder', Decode decoder = (Ok doc, decoder') -> size decoder' < size decoder) ->
  forall fuel decoder documents,
    size decoder < fuel -> parseYAMLDocuments_loop fuel decoder documents <> None.
Proof.
  intros Hsize. induction fuel as [|fuel IH]; intros decoder documents Hfuel; [lia|].
  simpl. destruct (Decode decoder) as [[doc|[|msg]] decoder'] eqn:E; [|done..].
  apply IH. apply Hsize in E. lia.
Qed.

(** C8. Whenever both parsers succeed on the same bytes, the document that
    [parseSingleYAMLDocument] returns is the first element (index 0) of the
    sequence that [parseYAMLDocuments] returns. *)
Theorem parseSingleYAMLDocument_is_first_document fuel data doc documents :
  parseSingleYAMLDocument data = Ok doc ->
  parseYAMLDocuments fuel data = Some (Ok documents) ->
  documents !! 0 = Some doc.
Proof.
  unfold parseSingleYAMLDocument, parseYAMLDocuments. intros Hsingle Hmulti.
  destruct fuel as [|fuel]; simpl in Hmulti; [done|].
  destruct (Decode (yaml_NewDecoder data)) as [[first|err] decoder']; [|done].
  simplify_eq. by apply parseYAMLDocuments_loop_extends in Hmulti as [more ->].
Qed.

Lemma zero_documents_EOF fuel data :
  parseYAMLDocuments fuel data = Some (Ok []) ->
  (Decode (yaml_NewDecoder data)).1 = Fail io_EOF.
Proof.
  unfold parseYAMLDocuments. intros Hmulti.
  destruct fuel as [|fuel]; simpl in Hmulti; [done|].
  destruct (Decode (yaml_NewDecoder data)) as [[first|[|msg]] decoder']; simplify_eq; [|done].
  apply parseYAMLDocuments_loop_extends in Hmulti as [more Hmore]. done.
Qed.

(** ** main: what happens once the three files are loaded *)

Lemma main_loaded fuel args benchmarkMode objectFile expressionFile paramsFile rest
    objectData objects expressionData paramsData :
  filterArgs args false [] = (benchmarkMode, objectFile :: expressionFile :: paramsFile :: rest) ->
  loadFile objectFile = Ok objectData ->
  parseYAMLDocuments fuel objectData = Some (Ok objects) ->
  loadFile expressionFile = Ok expressionData ->
  loadFile paramsFile = Ok paramsData ->
  main fuel args =
    match parseSingleYAMLDocument paramsData with
    | Fail err => log_Fatal "Failed to parse params YAML: " err
    | Ok params =>
        match cel_NewEnv with
        | Fail err => log_Fatal "Failed to create CEL environment: " err
        | Ok env =>
            let expressions := splitExpressions expressionData in
            if benchmarkMode then
              let* r := compileExpressions env expressions in
              match r with
              | Fail err => log_Fatal "Failed to compile expressions for benchmark: " err
              | Ok programs =>
                  do runBenchmark objects programs params expressions then
                  ret (Some Returned)
              end
            else
              do evaluationMatrix env objects expressions params then
              ret (Some Returned)
        end
    end.
Proof.
  intros Hargs Hobj Hparse Hexpr Hparams. unfold main.
  rewrite Hargs, Hobj, Hparse, Hexpr, Hparams. reflexivity.
Qed.

(** C10. A params file whose stream holds zero documents (the multi-document
    parser finds none in it) makes [parseSingleYAMLDocument] fail: the
    [io.EOF] of the first [Decode] is returned as the error.  [main] then
    stops with [log.Fatal], in either mode, before anything is compiled or
    evaluated. *)
Theorem empty_params_file_is_fatal fuel args benchmarkMode objectFile expressionFile
    paramsFile rest objectData objects expressionData paramsData fuel' w :
  filterArgs args false [] = (benchmarkMode, objectFile :: expressionFile :: paramsFile :: rest) ->
  loadFile objectFile = Ok objectData ->
  parseYAMLDocuments fuel objectData = Some (Ok objects) ->
  loadFile expressionFile = Ok expressionData ->
  loadFile paramsFile = Ok paramsData ->
  parseYAMLDocuments fuel' paramsData = Some (Ok []) ->
  parseSingleYAMLDocument paramsData = Fail io_EOF /\
  main fuel args w = (Some (Exited 1), w, [LogFatal "Failed to parse params YAML: " io_EOF]).
Proof.
  intros Hargs Hobj Hparse Hexpr Hparams Hzero.
  assert (parseSingleYAMLDocument paramsData = Fail io_EOF) as Hsingle.
  { apply zero_documents_EOF in Hzero. unfold parseSingleYAMLDocument.
    destruct (Decode (yaml_NewDecoder paramsData)) as [[doc|err] decoder']; simpl in Hzero;
      by simplify_eq. }
  split; [done|].
  rewrite (main_loaded _ _ _ _ _ _ _ _ _ _ _ Hargs Hobj Hparse Hexpr Hparams), Hsingle.
  reflexivity.
Qed.

(** ** compileExpressions *)

(** One round of the loop, on an expression that is not empty. *)
Lemma compileExpressions_loop_fail env expr rest programs w err :
  failureOf env expr = Some err ->
  compileExpressions_loop env (expr :: rest) programs w = (Fail err, w, compileCalls env expr).
Proof.
  intros Hfail. cbn [compileExpressions_loop]. unfold failureOf, compileCalls in *.
  destruct (String.eqb expr ""); [done|].
  unfold bind at 1, call_Compile.
  destruct (env_Compile env expr) as [ast [[cause|]|]]; [by simplify_eq|..];
    (unfold bind at 1, call_Program; simpl;
     destruct (env_Program env ast) as [program|cause]; by simplify_eq).
Qed.

Lemma compileExpressions_loop_pass env expr rest programs w :
  expr <> "" -> failureOf env expr = None ->
  exists program,
    compiledFrom env expr program /\
    compileExpressions_loop env (expr :: rest) programs w =
      (value (compileExpressions_loop env rest (programs ++ [program]) w),
       world (compileExpressions_loop env rest (programs ++ [program]) w),
       compileCalls env expr ++ trace (compileExpressions_loop env rest (programs ++ [program]) w)).
Proof.
  intros Hne Hok. cbn [compileExpressions_loop]. unfold failureOf, compileCalls, compiledFrom in *.
  apply String.eqb_neq in Hne. rewrite Hne in *.
  unfold bind at 1, call_Compile.
  destruct (env_Compile env expr) as [ast issues].
  assert (forall cause, issues <> Some (Some cause)) as Hissues
    by (intros cause ->; done).
  assert (exists program, env_Program env ast = Ok program) as [program Hprogram].
  { destruct issues as [[cause|]|]; [done|..]; destruct (env_Program env ast); eauto; done. }
  exists program. split; [by exists ast, issues|].
  assert ((let* r := call_Program env ast in
           match r with
           | Ok program => compileExpressions_loop env rest (programs ++ [program])
           | Fail err => ret (Fail (fmt_Errorf "failed to create program: " err))
           end) w
          = (value (compileExpressions_loop env rest (programs ++ [program]) w),
             world (compileExpressions_loop env rest (programs ++ [program]) w),
             CallProgram ast (Ok program)
             :: trace (compileExpressions_loop env rest (programs ++ [program]) w))) as Hrest.
  { unfold bind, call_Program. rewrite Hprogram.
    by destruct (compileExpressions_loop env rest (programs ++ [program]) w) as [[??]?]. }
  rewrite Hprogram.
  destruct issues as [[cause|]|]; [by destruct (Hissues cause)|..]; cbn -[bind]; by rewrite Hrest.
Qed.

(** A batch without a failing expression compiles to one program for each
    expression that is not empty, in order. *)
Lemma compileExpressions_loop_ok env expressions : forall programs w,
  Forall (fun expr => failureOf env expr = None) expressions ->
  exists new t,
    compileExpressions_loop env expressions programs w = (Ok (programs ++ new), w, t) /\
    Forall2 (compiledFrom env) (nonEmpty expressions) new.
Proof.
  induction expressions as [|expr rest IH]; intros programs w Hok.
  - exists [], []. rewrite app_nil_r. split; [done | constructor].
  - apply Forall_cons in Hok as [Hexpr Hrest].
    destruct (String.eqb_spec expr "") as [->|Hne].
    + destruct (IH programs w Hrest) as (new & t & Hrun & Hnew). by exists new, t.
    + destruct (compileExpressions_loop_pass env expr rest programs w Hne Hexpr)
        as (program & Hprogram & ->).
      destruct (IH (programs ++ [program]) w Hrest) as (new & t & Hrun & Hnew).
      exists (program :: new), (compileCalls env expr ++ t). rewrite Hrun. split.
      * cbn. by rewrite <- app_assoc.
      * unfold nonEmpty. simpl. apply String.eqb_neq in Hne as Hne'. rewrite Hne'. simpl.
        by constructor.
Qed.

(** The batch stops at the first failing expression: the programs compiled so
    far are dropped, the error is the one of that expression, and the
    expressions after it are not looked at. *)
Lemma compileExpressions_loop_stop env before expr after err : forall programs w,
  Forall (fun e => failureOf env e = None) before ->
  failureOf env expr = Some err ->
  exists new t,
    compileExpressions_loop env before programs w = (Ok (programs ++ new), w, t) /\
    compileExpressions_loop env (before ++ expr :: after) programs w
      = (Fail err, w, t ++ compileCalls env expr).
Proof.
  induction before as [|first before IH]; intros programs w Hok Hfail.
  - exists [], []. rewrite app_nil_r. split; [done|]. simpl app.
    by rewrite (compileExpressions_loop_fail _ _ _ _ _ _ Hfail).
  - apply Forall_cons in Hok as [Hfirst Hrest]. simpl app.
    destruct (String.eqb_spec first "") as [->|Hne].
    + destruct (IH programs w Hrest Hfail) as (new & t & Hrun & Hstop). by exists new, t.
    + destruct (compileExpressions_loop_pass env first before programs w Hne Hfirst)
        as (program & Hprogram & ->).
      destruct (compileExpressions_loop_pass env first (before ++ expr :: after) programs w Hne Hfirst)
        as (program' & [ast' [issues' (E' & _ & Hp')]] & ->).
      destruct Hprogram as [ast [issues (E & _ & Hp)]].
      assert (program' = program) as -> by congruence.
      destruct (IH (programs ++ [program]) w Hrest Hfail) as (new & t & Hrun & Hstop).
      exists (program :: new), (compileCalls env first ++ t). rewrite Hrun, Hstop. split.
      * cbn. by rewrite <- app_assoc.
      * cbn. by rewrite <- app_assoc.
Qed.

(** A batch either has no failing expression, or splits at the first one. *)
Lemma first_failure env expressions :
  Forall (fun e => failureOf env e = None) expressions \/
  exists before expr after err,
    expressions = before ++ expr :: after /\
    Forall (fun e => failureOf env e = None) before /\ failureOf env expr = Some err.
Proof.
  induction expressions as [|first rest IH]; [by left|].
  destruct (failureOf env first) as [err|] eqn:Hfirst.
  - right. by exists [], first, rest, err.
  - destruct IH as [Hok|(before & expr & after & err & -> & Hbefore & Hfail)].
    + left. by constructor.
    + right. exists (first :: before), expr, after, err. split; [done|]. split; [by constructor | done].
Qed.

Lemma failingIndex_first env before expr after err i :
  Forall (fun e => failureOf env e = None) before ->
  failureOf env expr = Some err ->
  failingIndex env i (before ++ expr :: after) = Some (i + length before).
Proof.
  intros Hbefore Hfail. revert i. induction Hbefore as [|first before Hfirst _ IH]; intros i; simpl.
  - rewrite Hfail. f_equal. lia.
  - rewrite Hfirst, IH. f_equal. lia.
Qed.

(** C2, as the code has it.  [compileExpressions] stops at the first
    expression that fails to compile or to get a program: nothing after it is
    compiled, no program is returned, and the error returned is made of the
    text of the underlying cause after a prefix that names the step.  The
    error is determined by the failing expression alone: its index, the
    number of expressions before it, is not part of it. *)
Theorem compileExpressions_stops_at_first_failure env before expr after err w :
  Forall (fun e => failureOf env e = None) before ->
  failureOf env expr = Some err ->
  (exists programs t,
     compileExpressions env before w = (Ok programs, w, t) /\
     compileExpressions env (before ++ expr :: after) w = (Fail err, w, t ++ compileCalls env expr)) /\
  failingIndex env 0 (before ++ expr :: after) = Some (length before) /\
  ((exists ast cause,
      env_Compile env expr = (ast, Some (Some cause)) /\
      err = errorString ("compilation failed: " +:+ Error cause)) \/
   (exists ast issues cause,
      env_Compile env expr = (ast, issues) /\ (forall c, issues <> Some (Some c)) /\
      env_Program env ast = Fail cause /\
      err = errorString ("failed to create program: " +:+ Error cause))).
Proof.
  intros Hbefore Hfail. split; [|split].
  - destruct (compileExpressions_loop_stop env before expr after err [] w Hbefore Hfail)
      as (new & t & Hrun & Hstop).
    by exists new, t.
  - by rewrite (failingIndex_first env before expr after err 0 Hbefore Hfail).
  - unfold failureOf in Hfail. destruct (String.eqb expr ""); [done|].
    destruct (env_Compile env expr) as [ast [[cause|]|]] eqn:E.
    + left. exists ast, cause. split; [done|]. by simplify_eq.
    + right. destruct (env_Program env ast) as [|cause] eqn:E'; [done|].
      exists ast, (Some None), cause. repeat split; try done. by simplify_eq.
    + right. destruct (env_Program env ast) as [|cause] eqn:E'; [done|].
      exists ast, None, cause. repeat split; try done. by simplify_eq.
Qed.

(** ** The expression set loader *)

Lemma substring_string_drop m s : substring 0 m s +:+ string_drop m s = s.
Proof.
  revert s. induction m as [|m IH]; intros [|c s]; try done.
  change (String c (substring 0 m s +:+ string_drop m s) = String c s). by rewrite IH.
Qed.

Lemma string_drop_add a b s : string_drop (a + b) s = string_drop b (string_drop a s).
Proof.
  revert s. induction a as [|a IH]; intros s; simpl; [done|].
  destruct s as [|c s]; [by destruct b | apply IH].
Qed.

Lemma substring_from m k s : substring m k s = substring 0 k (string_drop m s).
Proof.
  revert s. induction m as [|m IH]; intros s; simpl; [done|].
  destruct s as [|c s]; [by destruct k | apply IH].
Qed.

Lemma genSplit_cons fuel s sep : exists piece pieces, genSplit fuel s sep = piece :: pieces.
Proof. destruct fuel as [|fuel]; simpl; [eauto|]. destruct (Index s sep); eauto. Qed.

(** Nothing is lost by [Split]: the pieces, joined by the separator again,
    are the string that was split. *)
Lemma concat_genSplit sep fuel : forall s, String.concat sep (genSplit fuel s sep) = s.
Proof.
  induction fuel as [|fuel IH]; intros s; simpl; [done|].
  destruct (Index s sep) as [m|] eqn:Hm; [|done].
  specialize (IH (string_drop (m + String.length sep) s)).
  destruct (genSplit_cons fuel (string_drop (m + String.length sep) s) sep) as (piece & pieces & Hp).
  rewrite Hp.
  change (substring 0 m s +:+ sep +:+ String.concat sep (piece :: pieces) = s).
  rewrite <- Hp, IH.
  apply index_correct1 in Hm. rewrite substring_from in Hm.
  rewrite string_drop_add. rewrite <- Hm at 1.
  by rewrite !substring_string_drop.
Qed.

Lemma trimEach_map todo : forall i (before : list string),
  length before = i ->
  trimEach i todo (before ++ todo) = before ++ map TrimSpace todo.
Proof.
  induction todo as [|expr todo IH]; intros i before Hi; simpl; [done|].
  rewrite insert_app_r_alt by lia. replace (i - length before) with 0 by lia. simpl.
  replace (before ++ TrimSpace expr :: todo) with ((before ++ [TrimSpace expr]) ++ todo)
    by (by rewrite <- app_assoc).
  rewrite IH by (rewrite length_app; simpl; lia). by rewrite <- app_assoc.
Qed.

Lemma splitExpressions_map expressionData :
  splitExpressions expressionData = map TrimSpace (Split (TrimSpace expressionData) "---").
Proof. unfold splitExpressions. apply (trimEach_map _ 0 []). done. Qed.

(** ** The evaluation matrix *)

Lemma cellTags_calls calls : forall obj expr t,
  Forall (fun e => isCall e = true) calls ->
  cellTags obj expr (calls ++ t) = cellTags obj expr t /\
  headers obj expr (calls ++ t) = headers obj expr t.
Proof.
  induction calls as [|e calls IH]; intros obj expr t Hcalls; [done|].
  apply Forall_cons in Hcalls as [He Hcalls]. destruct e; try done; apply IH; done.
Qed.

Lemma cellTags_app t1 : forall obj expr t2,
  cellTags obj expr (t1 ++ t2)
  = cellTags obj expr t1 ++ cellTags (headers obj expr t1).1 (headers obj expr t1).2 t2.
Proof.
  induction t1 as [|e t1 IH]; intros obj expr t2; [done|].
  destruct e; simpl; rewrite ?IH; done.
Qed.

Lemma headers_app t1 : forall obj expr t2,
  headers obj expr (t1 ++ t2) = headers (headers obj expr t1).1 (headers obj expr t1).2 t2.
Proof.
  induction t1 as [|e t1 IH]; intros obj expr t2; [done|].
  destruct e; simpl; rewrite ?IH; done.
Qed.

Lemma cellTags_length t : forall obj expr,
  length (cellTags obj expr t) = length (List.filter isCell t).
Proof.
  induction t as [|e t IH]; intros obj expr; [done|].
  destruct e; simpl; rewrite ?IH; done.
Qed.

(** One cell: the header of the expression, the calls, then exactly one line
    with the result or the failure; among the calls, exactly one compilation. *)
Lemma evaluateCell_run env params object exprIdx expr w :
  expr <> "" ->
  exists calls cell,
    trace (evaluateCell env params object exprIdx expr w)
      = PrintExpression (Z.of_nat exprIdx + 1) expr :: calls ++ [cell] /\
    Forall (fun e => isCall e = true) calls /\ isCell cell = true /\
    length (List.filter isCompile calls) = 1.
Proof.
  intros Hne. unfold evaluateCell. apply String.eqb_neq in Hne. rewrite Hne.
  unfold bind, emit, ret, call_Compile, call_Program, call_Eval, trace.
  destruct (env_Compile env expr) as [ast issues].
  destruct issues as [[cause|]|]; simpl.
  - exists [CallCompile expr (ast, Some (Some cause))], (PrintCompilationFailed cause).
    by repeat split; repeat constructor.
  - destruct (env_Program env ast) as [program|err]; simpl.
    + destruct (program_Eval program object params w) as [[out [e|]] w']; simpl.
      * exists [CallCompile expr (ast, Some None); CallProgram ast (Ok program);
                CallEval program object params (out, Some e)], (PrintEvaluationFailed e).
        by repeat split; repeat constructor.
      * exists [CallCompile expr (ast, Some None); CallProgram ast (Ok program);
                CallEval program object params (out, None)], (PrintResult out).
        by repeat split; repeat constructor.
    + exists [CallCompile expr (ast, Some None); CallProgram ast (Fail err)], (PrintProgramFailed err).
      by repeat split; repeat constructor.
  - destruct (env_Program env ast) as [program|err]; simpl.
    + destruct (program_Eval program object params w) as [[out [e|]] w']; simpl.
      * exists [CallCompile expr (ast, None); CallProgram ast (Ok program);
                CallEval program object params (out, Some e)], (PrintEvaluationFailed e).
        by repeat split; repeat constructor.
      * exists [CallCompile expr (ast, None); CallProgram ast (Ok program);
                CallEval program object params (out, None)], (PrintResult out).
        by repeat split; repeat constructor.
    + exists [CallCompile expr (ast, None); CallProgram ast (Fail err)], (PrintProgramFailed err).
      by repeat split; repeat constructor.
Qed.

Lemma evaluateCell_empty env params object exprIdx w :
  evaluateCell env params object exprIdx "" w = (tt, w, []).
Proof. done. Qed.

Lemma nonEmptyOrdinals_length expressions : forall i,
  length (nonEmptyOrdinals i expressions) = length (nonEmpty expressions).
Proof.
  induction expressions as [|expr rest IH]; intros i; simpl; [done|].
  unfold nonEmpty in *. simpl. destruct (String.eqb expr ""); simpl; by rewrite IH.
Qed.

(** The inner loop: one cell for each expression that is not empty, in the
    order of the expressions, whatever the cells before it did. *)
Lemma expression_loop_cells env params object expressions : forall i w obj expr0,
  let t := trace (range i expressions (evaluateCell env params object) w) in
  cellTags obj expr0 t = map (fun n => (obj, n)) (nonEmptyOrdinals i expressions) /\
  (headers obj expr0 t).1 = obj /\
  length (List.filter isCompile t) = length (nonEmpty expressions).
Proof.
  induction expressions as [|expr rest IH]; intros i w obj expr0; cbv zeta; [done|].
  cbn [range]. rewrite trace_bind.
  destruct (String.eqb_spec expr "") as [->|Hne].
  - rewrite evaluateCell_empty. run_simpl. apply IH.
  - destruct (evaluateCell_run env params object i expr w Hne)
      as (calls & cell & Hcell & Hcalls & Hiscell & Hcount).
    rewrite Hcell.
    set (w1 := world (evaluateCell env params object i expr w)).
    specialize (IH (S i) w1). cbv zeta in IH.
    set (t := trace (range (S i) rest (evaluateCell env params object) w1)) in *.
    apply String.eqb_neq in Hne.
    assert (cellTags obj expr0 (PrintExpression (Z.of_nat i + 1) expr :: calls ++ [cell])
            = [(obj, (Z.of_nat i + 1)%Z)] /\
            headers obj expr0 (PrintExpression (Z.of_nat i + 1) expr :: calls ++ [cell])
            = (obj, (Z.of_nat i + 1)%Z)) as [Htags Hheaders].
    { cbn [cellTags headers].
      destruct (cellTags_calls calls obj (Z.of_nat i + 1)%Z [cell] Hcalls) as [-> ->].
      by destruct cell. }
    rewrite cellTags_app, headers_app, Htags, Hheaders. cbn [fst snd nonEmptyOrdinals].
    rewrite Hne. destruct (IH obj (Z.of_nat i + 1)%Z) as (-> & -> & IHcount).
    split; [done|]. split; [done|].
    rewrite List.filter_app, length_app. cbn [List.filter isCompile].
    rewrite List.filter_app, length_app, Hcount, IHcount.
    replace (length (List.filter isCompile [cell])) with 0 by (by destruct cell).
    unfold nonEmpty. cbn [List.filter]. rewrite Hne. simpl. lia.
Qed.

(** The outer loop: the objects in order, each with all its cells. *)
Lemma object_loop_cells env params expressions objects : forall i w obj0 expr0,
  let t := trace (range i objects (fun objIdx object =>
                    do emit (PrintObjectHeader (Z.of_nat objIdx + 1)) then
                    range 0 expressions (evaluateCell env params object)) w) in
  cellTags obj0 expr0 t
    = flat_map (fun o => map (fun n => (o, n)) (nonEmptyOrdinals 0 expressions))
               (map (fun j => (Z.of_nat j + 1)%Z) (seq i (length objects))) /\
  length (List.filter isCompile t) = length objects * length (nonEmpty expressions).
Proof.
  induction objects as [|object objects IH]; intros i w obj0 expr0; cbv zeta; [done|].
  cbn [range]. rewrite trace_bind, trace_bind, emit_run. run_simpl.
  set (w1 := world (bind (emit (PrintObjectHeader (Z.of_nat i + 1)))
                         (fun _ => range 0 expressions (evaluateCell env params object)) w)).
  specialize (IH (S i) w1). cbv zeta in IH.
  destruct (expression_loop_cells env params object expressions 0 w (Z.of_nat i + 1)%Z expr0)
    as (Htags & Hobj & Hcount).
  set (t1 := trace (range 0 expressions (evaluateCell env params object) w)) in *.
  rewrite <- app_assoc. cbn [app cellTags length seq map flat_map].
  rewrite cellTags_app, Htags.
  destruct (IH (headers (Z.of_nat i + 1)%Z expr0 t1).1 (headers (Z.of_nat i + 1)%Z expr0 t1).2)
    as [-> IHcount].
  split; [done|].
  cbn [List.filter isCompile]. rewrite List.filter_app, length_app, Hcount, IHcount. lia.
Qed.

Lemma evaluateCell_cell env params object exprIdx expr w :
  expr <> "" ->
  cellOf env params object ((Z.of_nat exprIdx + 1)%Z, expr)
         (trace (evaluateCell env params object exprIdx expr w)).
Proof.
  intros Hne. unfold evaluateCell, cellOf. destruct (String.eqb_spec expr ""); [done|].
  rewrite !trace_bind, !emit_run. unfold call_Compile. run_simpl.
  destruct (env_Compile env expr) as [ast issues]. exists ast, issues. split; [done|].
  assert (forall w0,
    trace ((let* r := call_Program env ast in
            match r with
            | Ok program =>
                let* (out, err) := call_Eval program object params in
                match err with
                | Some e => emit (PrintEvaluationFailed e)
                | None => emit (PrintResult out)
                end
            | Fail err => emit (PrintProgramFailed err)
            end) w0)
    = CallProgram ast (env_Program env ast)
      :: match env_Program env ast with
         | Ok program =>
             [CallEval program object params (program_Eval program object params w0).1;
              match (program_Eval program object params w0).1 with
              | (_, Some e) => PrintEvaluationFailed e
              | (out, None) => PrintResult out
              end]
         | Fail err => [PrintProgramFailed err]
         end) as Hrest.
  { intros w0. rewrite trace_bind. unfold call_Program at 1 2 3. run_simpl.
    destruct (env_Program env ast) as [program|err]; [|done].
    rewrite trace_bind, call_Eval_run. run_simpl.
    by destruct (program_Eval program object params w0) as [[out [e|]] w']. }
  destruct issues as [[cause|]|]; [done| |]; cbv beta iota; rewrite Hrest;
    (destruct (env_Program env ast) as [program|err]; [by exists w | done]).
Qed.

Lemma expression_loop_shape env params object expressions : forall i w,
  exists cells,
    trace (range i expressions (evaluateCell env params object) w) = concat cells /\
    Forall2 (cellOf env params object) (numbered i expressions) cells.
Proof.
  induction expressions as [|expr rest IH]; intros i w; [by exists []|].
  cbn [range numbered]. rewrite trace_bind.
  destruct (IH (S i) (world (evaluateCell env params object i expr w))) as (cells & -> & Hcells).
  destruct (String.eqb_spec expr "") as [->|Hne].
  - exists cells. by rewrite evaluateCell_empty.
  - exists (trace (evaluateCell env params object i expr w) :: cells). split; [done|].
    constructor; [by apply evaluateCell_cell | done].
Qed.

Lemma object_loop_shape env params expressions objects : forall i w,
  matrixOf env params expressions i objects
    (trace (range i objects (fun objIdx object =>
              do emit (PrintObjectHeader (Z.of_nat objIdx + 1)) then
              range 0 expressions (evaluateCell env params object)) w)).
Proof.
  induction objects as [|object objects IH]; intros i w; [done|].
  cbn [range matrixOf]. rewrite !trace_bind, emit_run. run_simpl.
  destruct (expression_loop_shape env params object expressions 0 w) as (cells & -> & Hcells).
  eexists cells, _. split; [done|]. split; [done|]. apply IH.
Qed.

Lemma numbered_ordinals expressions : forall i,
  map fst (numbered i expressions) = nonEmptyOrdinals i expressions /\
  map snd (numbered i expressions) = nonEmpty expressions.
Proof.
  induction expressions as [|expr rest IH]; intros i; [done|].
  unfold nonEmpty. cbn [numbered nonEmptyOrdinals List.filter].
  destruct (IH (S i)) as [Hfst Hsnd]. destruct (String.eqb expr ""); simpl; [done|].
  unfold nonEmpty in Hsnd. by rewrite Hfst, Hsnd.
Qed.

(** In a matrix every cell whose expression has a program is evaluated on
    its object, whatever the other cells did. *)
Lemma matrixOf_evaluated env params expressions objects : forall i t,
  matrixOf env params expressions i objects t ->
  forall j object cell program,
    objects !! j = Some object -> In cell (numbered 0 expressions) ->
    compiledFrom env cell.2 program ->
    exists answer, In (CallEval program object params answer) t.
Proof.
  induction objects as [|first objects IH]; intros i t Hmatrix j object cell program
    Hobject Hcell Hprogram; [done|].
  destruct Hmatrix as (cells & t' & -> & Hcells & Hrest).
  destruct j as [|j]; simpl in Hobject.
  - simplify_eq. apply list_elem_of_In, list_elem_of_lookup_1 in Hcell as [k Hk].
    destruct (Forall2_lookup_l _ _ _ _ _ Hcells Hk) as (run & Hrun & Hof).
    destruct Hof as (ast & issues & Hcompile & Hshape).
    destruct Hprogram as (ast' & issues' & Hcompile' & Hissues & Hmade).
    rewrite Hcompile in Hcompile'. simplify_eq.
    assert (exists w0, run = [PrintExpression cell.1 cell.2; CallCompile cell.2 (ast', issues');
                              CallProgram ast' (Ok program);
                              CallEval program object params
                                (program_Eval program object params w0).1;
                              match (program_Eval program object params w0).1 with
                              | (_, Some e) => PrintEvaluationFailed e
                              | (out, None) => PrintResult out
                              end]) as [w0 ->].
    { destruct issues' as [[cause|]|]; [by destruct (Hissues cause)| |];
        by rewrite Hmade in Hshape. }
    exists (program_Eval program object params w0).1. right. apply in_or_app. left.
    apply in_concat. eexists. split; [by apply list_elem_of_In, list_elem_of_lookup_2 with k|].
    simpl. tauto.
  - destruct (IH _ _ Hrest j object cell program Hobject Hcell Hprogram) as [answer Hin].
    exists answer. right. apply in_or_app. by right.
Qed.

(** C3. In the normal mode, [K] object documents and an expression file with
    [M] expressions that are not empty after trimming give exactly [K * M]
    result cells, each a result or a reported failure, in the order of the
    two loops: objects by ascending ordinal, and for each object the
    expressions by ascending ordinal, the empty ones skipped.  This holds
    whatever the compiler and the programs answer: every cell is compiled
    anew, [K * M] compilations in all, and no failure keeps a later cell from
    being run.  The output is the matrix itself: after the header of each
    object comes one cell for every expression that is not empty, and a cell
    is the outcome of its own expression on its own object: the compilation,
    then the making of the program if the compilation reported no error, then
    the evaluation on the object if there is a program, and one line with the
    error of the step that failed or with the result.  So every expression
    that has a program is evaluated on every object, whatever the cells before
    it did. *)
Theorem normal_mode_evaluates_every_cell fuel args objectFile expressionFile paramsFile rest
    objectData objects expressionData paramsData params env w :
  filterArgs args false [] = (false, objectFile :: expressionFile :: paramsFile :: rest) ->
  loadFile objectFile = Ok objectData ->
  parseYAMLDocuments fuel objectData = Some (Ok objects) ->
  loadFile expressionFile = Ok expressionData ->
  loadFile paramsFile = Ok paramsData ->
  parseSingleYAMLDocument paramsData = Ok params ->
  cel_NewEnv = Ok env ->
  let expressions := splitExpressions expressionData in
  let K := length objects in
  let M := length (nonEmpty expressions) in
  let r := main fuel args w in
  value r = Some Returned /\
  length (List.filter isCell (trace r)) = K * M /\
  cellTags 0 0 (trace r) = matrixOrder K expressions /\
  length (matrixOrder K expressions) = K * M /\
  length (List.filter isCompile (trace r)) = K * M /\
  matrixOf env params expressions 0 objects (trace r) /\
  map fst (numbered 0 expressions) = nonEmptyOrdinals 0 expressions /\
  map snd (numbered 0 expressions) = nonEmpty expressions /\
  (forall j object cell program,
     objects !! j = Some object -> In cell (numbered 0 expressions) ->
     compiledFrom env cell.2 program ->
     exists answer, In (CallEval program object params answer) (trace r)).
Proof.
  intros Hargs Hobj Hparse Hexpr Hparams Hsingle Henv expressions K M r.
  subst r. rewrite (main_loaded _ _ _ _ _ _ _ _ _ _ _ Hargs Hobj Hparse Hexpr Hparams).
  rewrite Hsingle, Henv. cbv zeta. fold expressions.
  rewrite value_bind, trace_bind. run_simpl. rewrite app_nil_r.
  destruct (object_loop_cells env params expressions objects 0 w 0%Z 0%Z) as [Htags Hcount].
  pose proof (object_loop_shape env params expressions objects 0 w) as Hshape.
  unfold evaluationMatrix. split; [done|].
  assert (length (matrixOrder K expressions) = K * M) as Hlen.
  { unfold matrixOrder, K, M. generalize 0 at 2. clear.
    induction (length objects) as [|n IH]; intros i; simpl; [done|].
    rewrite length_app, length_map, nonEmptyOrdinals_length, IH. done. }
  split; [by rewrite <- cellTags_length with (obj := 0%Z) (expr := 0%Z), Htags|].
  split; [done|]. split; [done|]. split; [done|]. split; [done|].
  split; [apply numbered_ordinals|]. split; [apply numbered_ordinals|].
  by apply matrixOf_evaluated with 0.
Qed.

Lemma compileExpressions_loop_nonEmpty env expressions : forall programs w,
  compileExpressions_loop env expressions programs w
  = compileExpressions_loop env (nonEmpty expressions) programs w.
Proof.
  induction expressions as [|expr rest IH]; intros programs w; [done|].
  unfold nonEmpty. cbn [List.filter]. destruct (String.eqb_spec expr "") as [->|Hne].
  - apply IH.
  - cbn [negb]. fold (nonEmpty rest). destruct (failureOf env expr) as [err|] eqn:Hexpr.
    + by rewrite !(compileExpressions_loop_fail _ _ _ _ _ _ Hexpr).
    + destruct (compileExpressions_loop_pass env expr rest programs w Hne Hexpr)
        as (program & [ast [issues (E & _ & Hp)]] & ->).
      destruct (compileExpressions_loop_pass env expr (nonEmpty rest) programs w Hne Hexpr)
        as (program' & [ast' [issues' (E' & _ & Hp')]] & ->).
      assert (program' = program) as -> by congruence.
      by rewrite IH.
Qed.

(** C5. The expression file is trimmed, cut at every ["---"] and each piece is
    trimmed: no piece is dropped, the empty ones stay in the sequence (joined
    by ["---"] again, the pieces of the cut are the trimmed file).  The
    consumers skip them: [compileExpressions] gives the same answer, with the
    same calls, as on the sequence without its empty expressions, and its
    programs are, one for one, those of the expressions that are not empty;
    a cell of the matrix with an empty expression compiles nothing, evaluates
    nothing and prints nothing; and in no run of [main] is an empty expression
    compiled or printed as the expression of a cell. *)
Theorem empty_expressions_are_kept_and_skipped :
  (forall expressionData,
     splitExpressions expressionData = map TrimSpace (Split (TrimSpace expressionData) "---") /\
     length (splitExpressions expressionData) = length (Split (TrimSpace expressionData) "---") /\
     String.concat "---" (Split (TrimSpace expressionData) "---") = TrimSpace expressionData) /\
  (forall env expressions w,
     compileExpressions env expressions w = compileExpressions env (nonEmpty expressions) w /\
     match value (compileExpressions env expressions w) with
     | Ok programs => Forall2 (compiledFrom env) (nonEmpty expressions) programs
     | Fail _ => True
     end) /\
  (forall env params object exprIdx w,
     evaluateCell env params object exprIdx "" w = (tt, w, [])) /\
  (forall fuel args w,
     Forall (fun e => match e with
                      | CallCompile expr _ | PrintExpression _ expr => expr <> ""
                      | _ => True
                      end) (trace (main fuel args w))).
Proof.
  split; [|split; [|split]].
  - intros expressionData. rewrite splitExpressions_map, length_map.
    split; [done|]. split; [done|]. apply concat_genSplit.
  - intros env expressions w. split; [apply compileExpressions_loop_nonEmpty|].
    unfold compileExpressions.
    destruct (first_failure env expressions)
      as [Hok|(before & expr & after & err & -> & Hbefore & Hfail)].
    + destruct (compileExpressions_loop_ok env expressions [] w Hok) as (new & t & -> & Hnew).
      done.
    + destruct (compileExpressions_loop_stop env before expr after err [] w Hbefore Hfail)
        as (new & t & _ & ->).
      done.
  - intros. apply evaluateCell_empty.
  - intros fuel args w. eapply Forall_impl; [apply leaves_main|].
    intros e He. by destruct e.
Qed.

(** ** A completed benchmark *)

Lemma applyBlocks_measured blocks :
  applyBlocks 0 blocks (make_stats (length blocks)) = map measured blocks.
Proof.
  rewrite applyBlocks_make_stats. apply map_ext. intros b. unfold measured. by f_equal.
Qed.

Lemma roundsOf_length program params objects n evals :
  roundsOf program params objects n evals -> length evals = n * length objects.
Proof.
  intros (rounds & <- & -> & Hr). induction Hr as [|round rounds Hround _ IH]; simpl; [done|].
  rewrite length_app, IH. apply Forall2_length in Hround. lia.
Qed.

Lemma abortedBy_reports objects params program n err t :
  abortedBy objects params program n err t -> In (PrintBenchmarkError n err) t.
Proof.
  intros (pre & o & out & _ & _ & ->). apply in_or_app. right. simpl. auto.
Qed.

(** A run of [runBenchmark] that reports no evaluation error: the warm-up,
    then one block for each program between two readings of the clock, then
    the report of what the blocks measured. *)
Lemma runBenchmark_completed objects programs params expressions w r w' t :
  runBenchmark objects programs params expressions w = (r, w', t) ->
  (forall n err, ~ In (PrintBenchmarkError n err) t) ->
  exists warm t0 blocks t1,
    Forall (fun e => isEval e = true) warm /\
    length warm = 10 * (length objects * length programs) /\
    Forall2 (blockOf objects params) programs blocks /\
    t = [PrintBenchmarkBanner; PrintWarmingUp] ++ warm
        ++ [PrintRunningBenchmark; ReadClock t0]
        ++ concat (map blockTrace blocks)
        ++ ReadClock t1 :: reportLines expressions (map measured blocks) (t1 - t0).
Proof.
  intros Hrun Hnone.
  destruct (runBenchmark_run _ _ _ _ _ _ _ _ Hrun)
    as (warm & t0 & timed & Hwarm & Hlen & -> & [(blocks & t1 & Hblocks & ->)|(k & p & err & _ & Hab)]).
  - exists warm, t0, blocks, t1. repeat split; try done.
    by rewrite (Forall2_length _ _ _ Hblocks), applyBlocks_measured.
  - exfalso. apply (Hnone (Z.of_nat k + 1)%Z err).
    apply in_or_app. right. apply in_or_app. right. apply in_or_app. right.
    by apply abortedBy_reports in Hab.
Qed.

Lemma In_reportLines e expressions stats totalDuration :
  In e (reportLines expressions stats totalDuration) ->
  (exists i stat, stats !! i = Some stat /\ In e (expressionLines expressions totalDuration i stat))
  \/ In e (summaryLines stats totalDuration).
Proof.
  unfold reportLines. intros [Hin|Hin]%in_app_or; [left | by right].
  apply in_concat in Hin as (l & Hl & Hin).
  apply list_elem_of_In, list_elem_of_lookup_1 in Hl as [i Hi].
  apply list_lookup_imap_Some in Hi as (stat & Hstat & ->). eauto.
Qed.

Lemma In_quiet e l : Forall (fun e => isQuiet e = true) l -> In e l -> isQuiet e = true.
Proof. intros Hl Hin. rewrite List.Forall_forall in Hl. by apply Hl. Qed.

Lemma split_at_only {A} (x : A) l1 : forall l2 l1' l2',
  l1 ++ x :: l2 = l1' ++ x :: l2' -> ~ In x l1 -> ~ In x l2 -> l1' = l1 /\ l2' = l2.
Proof.
  induction l1 as [|y l1 IH]; intros l2 l1' l2' Heq Hl1 Hl2; destruct l1' as [|y' l1'];
    simpl in *; simplify_eq.
  - done.
  - exfalso. apply Hl2, in_or_app. right. by left.
  - exfalso. apply Hl1. by left.
  - destruct (IH l2 l1' l2') as [-> ->]; auto.
Qed.

Lemma reportLines_are_report_lines expressions stats totalDuration :
  Forall (fun e => isReportLine e = true) (reportLines expressions stats totalDuration).
Proof.
  rewrite List.Forall_forall. intros e [(i & stat & _ & Hin)|Hin]%In_reportLines.
  - unfold expressionLines in Hin.
    destruct (expressions !! i); destruct (0 <? evalCount stat)%Z; simpl in Hin;
      repeat (destruct Hin as [<-|Hin]; [done|]); done.
  - simpl in Hin. repeat (destruct Hin as [<-|Hin]; [done|]); done.
Qed.

Lemma blocks_quiet objects params programs blocks :
  Forall2 (blockOf objects params) programs blocks ->
  Forall (fun e => isQuiet e = true) (concat (map blockTrace blocks)).
Proof.
  intros Hblocks. induction Hblocks as [|program b programs blocks Hb _ IH]; [constructor|].
  cbn [map concat]. apply Forall_app. split; [by eapply blockTrace_quiet | done].
Qed.

(** C4. When an evaluation of the timed phase answers with an error, the run
    stops there: the error is printed at once with the number of the
    expression, it is the last thing the run leaves in the trace (no further
    evaluation, no reading of the clock), everything before it in the timed
    phase went without an error, and no line of the report (statistics of an
    expression, summary) is printed in the whole run. *)
Theorem evaluation_error_stops_the_benchmark objects programs params expressions w r w' t
    before after program object out err :
  runBenchmark objects programs params expressions w = (r, w', t) ->
  t = before ++ PrintRunningBenchmark :: after ->
  In (CallEval program object params (out, Some err)) after ->
  exists k quiet,
    programs !! k = Some program /\
    after = quiet ++ [CallEval program object params (out, Some err);
                      PrintBenchmarkError (Z.of_nat k + 1) err] /\
    Forall (fun e => isQuiet e = true) quiet /\
    Forall (fun e => isReportLine e = false) t.
Proof.
  intros Hrun Hsplit Hbad.
  destruct (runBenchmark_run _ _ _ _ _ _ _ _ Hrun)
    as (warm & t0 & timed & Hwarm & Hlen & Ht & Hcases).
  assert (forall e, In e warm -> isEval e = true) as Hwarm'
    by (by rewrite List.Forall_forall in Hwarm).
  assert (~ In PrintRunningBenchmark timed) as Htimed.
  { destruct Hcases as [(blocks & t1 & Hblocks & ->)|(k & p & err' & _ & pre & o & out' & _ & Hpre & ->)].
    - intros [Hin|[Hin|Hin]]%in_app_or; [|done|].
      + by apply (In_quiet _ _ (blocks_quiet _ _ _ _ Hblocks)) in Hin.
      + pose proof (reportLines_are_report_lines expressions
          (applyBlocks 0 blocks (make_stats (length programs))) (t1 - t0)) as Hrep.
        rewrite List.Forall_forall in Hrep. by apply Hrep in Hin.
    - intros [Hin|[Hin|[Hin|[]]]]%in_app_or; [|done..].
      by apply (In_quiet _ _ Hpre) in Hin. }
  assert (before = [PrintBenchmarkBanner; PrintWarmingUp] ++ warm /\ after = ReadClock t0 :: timed)
    as [-> ->].
  { rewrite Hsplit in Ht. symmetry in Ht.
    replace ([PrintBenchmarkBanner; PrintWarmingUp] ++ warm ++ [PrintRunningBenchmark; ReadClock t0] ++ timed)
      with (([PrintBenchmarkBanner; PrintWarmingUp] ++ warm) ++ PrintRunningBenchmark :: ReadClock t0 :: timed)
      in Ht by (by rewrite <- app_assoc).
    apply split_at_only in Ht; [done|..].
    - intros [Hin|[Hin|Hin]]; [done..|]. by apply Hwarm' in Hin.
    - by intros [Hin|Hin]. }
  destruct Hcases as [(blocks & t1 & Hblocks & ->)|(k & p & err' & Hk & pre & o & out' & Ho & Hpre & ->)].
  - exfalso. destruct Hbad as [Hbad|Hbad]; [done|].
    apply in_app_or in Hbad as [Hbad|[Hbad|Hbad]]; [|done|].
    + by apply (In_quiet _ _ (blocks_quiet _ _ _ _ Hblocks)) in Hbad.
    + pose proof (reportLines_are_report_lines expressions
        (applyBlocks 0 blocks (make_stats (length programs))) (t1 - t0)) as Hrep.
      rewrite List.Forall_forall in Hrep. by apply Hrep in Hbad.
  - destruct Hbad as [Hbad|Hbad]; [done|].
    apply in_app_or in Hbad as [Hbad|[Hbad|[Hbad|[]]]]; [by apply (In_quiet _ _ Hpre) in Hbad| |done].
    simplify_eq. exists k, (ReadClock t0 :: pre).
    split; [done|]. split; [done|]. split; [by constructor|].
    apply Forall_app. split.
    + repeat constructor. eapply Forall_impl; [done|]. intros e He. by destruct e.
    + repeat constructor. apply Forall_app. split; [|by repeat constructor].
      eapply Forall_impl; [done|]. intros e He. by destruct e.
Qed.

Lemma sumEvals_measured blocks :
  sumEvals (map measured blocks) = (iterations * Z.of_nat (length blocks))%Z.
Proof.
  unfold sumEvals.
  assert (forall total,
            fold_left (fun totalEvals stat => (totalEvals + evalCount stat)%Z)
              (map measured blocks) total
            = (total + iterations * Z.of_nat (length blocks))%Z) as Hfold.
  { induction blocks as [|b blocks IH]; intros total; simpl fold_left.
    - simpl. lia.
    - rewrite IH. cbn [evalCount measured length]. lia. }
  rewrite Hfold. lia.
Qed.

Lemma iterations_positive : (0 <? iterations)%Z = true.
Proof. done. Qed.

Lemma expressionLines_measured expressions totalDuration i b :
  expressionLines expressions totalDuration i (measured b)
  = PrintExpressionNumber (Z.of_nat i + 1)
    :: match expressions !! i with
       | Some expr => [PrintContent (contentOf expr)]
       | None => []
       end
    ++ [PrintEvaluations iterations;
        PrintTotalTime (blockEnd b - blockStart b);
        PrintAverageTime (Z.quot (blockEnd b - blockStart b) iterations);
        PrintEvaluationsPerSecond iterations totalDuration].
Proof.
  unfold expressionLines. cbn [evalCount duration measured]. by rewrite iterations_positive.
Qed.

Lemma In_completed e warm t0 (blocks : list Block) t1 expressions objects params programs :
  Forall (fun e => isEval e = true) warm ->
  Forall2 (blockOf objects params) programs blocks ->
  In e ([PrintBenchmarkBanner; PrintWarmingUp] ++ warm
        ++ [PrintRunningBenchmark; ReadClock t0]
        ++ concat (map blockTrace blocks)
        ++ ReadClock t1 :: reportLines expressions (map measured blocks) (t1 - t0)) ->
  isReportLine e = true ->
  In e (reportLines expressions (map measured blocks) (t1 - t0)).
Proof.
  intros Hwarm Hblocks Hin Hrep.
  apply in_app_or in Hin as [[<-|[<-|[]]]|Hin]; [done..|].
  apply in_app_or in Hin as [Hin|Hin].
  { rewrite List.Forall_forall in Hwarm. apply Hwarm in Hin. by destruct e. }
  apply in_app_or in Hin as [[<-|[<-|[]]]|Hin]; [done..|].
  apply in_app_or in Hin as [Hin|[<-|Hin]]; [|done..].
  apply (In_quiet _ _ (blocks_quiet _ _ _ _ Hblocks)) in Hin. by destruct e.
Qed.

(** C6. In the report of a completed benchmark, the "evaluations per second"
    of each program is its evaluation count over the total duration, the
    difference of the two clock readings taken before the first program and
    after the last one (the program's own duration, printed as "Total time"
    and used for the average, is not used for it); the overall rate is the
    sum of the counts over the same total duration. *)
Theorem rates_are_over_the_total_duration objects programs params expressions w r w' t :
  runBenchmark objects programs params expressions w = (r, w', t) ->
  (forall n err, ~ In (PrintBenchmarkError n err) t) ->
  exists warm t0 blocks t1,
    Forall (fun e => isEval e = true) warm /\
    Forall2 (blockOf objects params) programs blocks /\
    t = [PrintBenchmarkBanner; PrintWarmingUp] ++ warm
        ++ [PrintRunningBenchmark; ReadClock t0]
        ++ concat (map blockTrace blocks)
        ++ ReadClock t1 :: reportLines expressions (map measured blocks) (t1 - t0) /\
    (forall i b, blocks !! i = Some b ->
       expressionLines expressions (t1 - t0) i (measured b)
       = PrintExpressionNumber (Z.of_nat i + 1)
         :: match expressions !! i with
            | Some expr => [PrintContent (contentOf expr)]
            | None => []
            end
         ++ [PrintEvaluations (evalCount (measured b));
             PrintTotalTime (blockEnd b - blockStart b);
             PrintAverageTime (Z.quot (blockEnd b - blockStart b) (evalCount (measured b)));
             PrintEvaluationsPerSecond (evalCount (measured b)) (t1 - t0)]) /\
    (forall count d, In (PrintEvaluationsPerSecond count d) t ->
       d = (t1 - t0)%Z /\ exists i b, blocks !! i = Some b /\ count = evalCount (measured b)) /\
    (forall count d, In (PrintOverallRate count d) t ->
       d = (t1 - t0)%Z /\ count = sumEvals (map measured blocks)) /\
    In (PrintOverallRate (sumEvals (map measured blocks)) (t1 - t0)) t /\
    sumEvals (map measured blocks) = (iterations * Z.of_nat (length programs))%Z.
Proof.
  intros Hrun Hnone.
  destruct (runBenchmark_completed _ _ _ _ _ _ _ _ Hrun Hnone)
    as (warm & t0 & blocks & t1 & Hwarm & _ & Hblocks & ->).
  exists warm, t0, blocks, t1.
  split; [done|]. split; [done|]. split; [done|]. split; [|split; [|split; [|split]]].
  - intros i b _. apply expressionLines_measured.
  - intros count d Hin. eapply In_completed in Hin; [|done..].
    apply In_reportLines in Hin as [(i & stat & Hstat & Hin)|Hin].
    + rewrite list_lookup_fmap in Hstat. destruct (blocks !! i) as [b|] eqn:Hb; [|done].
      simpl in Hstat. simplify_eq. rewrite expressionLines_measured in Hin.
      destruct Hin as [Hin|Hin]; [done|]. apply in_app_or in Hin as [Hin|Hin].
      * by destruct (expressions !! i); [destruct Hin as [Hin|[]]|].
      * simpl in Hin. destruct Hin as [Hin|[Hin|[Hin|[Hin|[]]]]]; try done.
        simplify_eq. split; [done|]. by exists i, b.
    + simpl in Hin. by repeat (destruct Hin as [Hin|Hin]; [done|]).
  - intros count d Hin. eapply In_completed in Hin; [|done..].
    apply In_reportLines in Hin as [(i & stat & Hstat & Hin)|Hin].
    + rewrite list_lookup_fmap in Hstat. destruct (blocks !! i) as [b|] eqn:Hb; [|done].
      simpl in Hstat. simplify_eq. rewrite expressionLines_measured in Hin.
      destruct Hin as [Hin|Hin]; [done|]. apply in_app_or in Hin as [Hin|Hin].
      * by destruct (expressions !! i); [destruct Hin as [Hin|[]]|].
      * simpl in Hin. by repeat (destruct Hin as [Hin|Hin]; [done|]).
    + simpl in Hin. destruct Hin as [Hin|[Hin|[Hin|[Hin|[]]]]]; try done. by simplify_eq.
  - do 4 (apply in_or_app; right). right. unfold reportLines. apply in_or_app. right.
    simpl. auto.
  - by rewrite sumEvals_measured, (Forall2_length _ _ _ Hblocks).
Qed.

(** C7. The statistics that the timed phase starts from are all zero, count
    and duration, whatever the warm-up did: the warm-up leaves nothing but
    its evaluations in the trace, ten for each (object, program) pair, with
    any answers, errors included, and the statistics are made after it.  So
    the statistics reported by a completed benchmark are those measured by
    the blocks of the timed phase alone (started from [z] instead of zero
    they would carry the duration of [z] along). *)
Theorem statistics_start_from_zero objects programs params expressions w r w' t :
  runBenchmark objects programs params expressions w = (r, w', t) ->
  (forall i stat, make_stats (length programs) !! i = Some stat ->
     evalCount stat = 0%Z /\ duration stat = 0%Z) /\
  exists warm after,
    t = [PrintBenchmarkBanner; PrintWarmingUp] ++ warm ++ PrintRunningBenchmark :: after /\
    Forall (fun e => isEval e = true) warm /\
    length warm = 10 * (length objects * length programs) /\
    ((forall n err, ~ In (PrintBenchmarkError n err) t) ->
     exists t0 blocks t1,
       Forall2 (blockOf objects params) programs blocks /\
       after = ReadClock t0 :: concat (map blockTrace blocks)
               ++ ReadClock t1
                  :: reportLines expressions
                       (applyBlocks 0 blocks (make_stats (length programs))) (t1 - t0) /\
       applyBlocks 0 blocks (make_stats (length programs)) = map measured blocks /\
       forall z,
         applyBlocks 0 blocks (replicate (length programs) z)
         = map (fun b => {| evalCount := iterations;
                            duration := duration z + (blockEnd b - blockStart b) |}) blocks).
Proof.
  intros Hrun. split.
  { intros i stat [-> _]%lookup_replicate. done. }
  destruct (runBenchmark_run _ _ _ _ _ _ _ _ Hrun)
    as (warm & t0 & timed & Hwarm & Hlen & -> & Hcases).
  exists warm, (ReadClock t0 :: timed). repeat split; try done.
  intros Hnone.
  destruct Hcases as [(blocks & t1 & Hblocks & ->)|(k & p & err & _ & Hab)].
  - exists t0, blocks, t1. split; [done|]. split; [done|].
    rewrite (Forall2_length _ _ _ Hblocks). split; [apply applyBlocks_measured|].
    intros z. apply (applyBlocks_replicate blocks 0 []). done.
  - exfalso. apply (Hnone (Z.of_nat k + 1)%Z err).
    apply in_or_app. right. apply in_or_app. right. right. right.
    by apply abortedBy_reports in Hab.
Qed.

Lemma string_length_app (a b : string) :
  String.length (a +:+ b) = String.length a + String.length b.
Proof.
  induction a as [|c a IH]; [done|].
  change (S (String.length (a +:+ b)) = S (String.length a + String.length b)). by rewrite IH.
Qed.

(** The content printed for an expression that is not empty is not the one
    printed for the empty expression. *)
Lemma contentOf_nonempty source : source <> "" -> contentOf "" <> contentOf source.
Proof.
  intros Hne Heq. destruct source as [|c source]; [done|].
  apply (f_equal String.length) in Heq. unfold contentOf in Heq.
  rewrite !string_length_app in Heq.
  assert (exists n, Z.to_nat (min 50 (Z.of_nat (String.length (String c source)))) = S n) as [n Hn].
  { exists (Z.to_nat (min 50 (Z.of_nat (String.length (String c source)))) - 1).
    unfold min. cbn [String.length]. destruct (50 <? _)%Z; lia. }
  rewrite Hn in Heq. simpl in Heq. lia.
Qed.

(** When an empty expression comes before one that is not, some index holds
    an empty expression in the split sequence and a real expression in the
    sequence that is compiled. *)
Lemma first_empty before : forall after,
  nonEmpty after <> [] ->
  exists i source,
    (before ++ "" :: after) !! i = Some "" /\
    nonEmpty (before ++ "" :: after) !! i = Some source /\ source <> "".
Proof.
  assert (forall l, nonEmpty l <> [] -> exists source, nonEmpty l !! 0 = Some source /\ source <> "")
    as Hhead.
  { intros l Hl. destruct (nonEmpty l) as [|source rest] eqn:E; [done|].
    exists source. split; [done|].
    assert (In source (nonEmpty l)) as Hin by (rewrite E; by left).
    apply List.filter_In in Hin as [_ Hin]. intros ->. done. }
  induction before as [|first before IH]; intros after Hafter.
  - destruct (Hhead after Hafter) as (source & Hsource & Hne). by exists 0, source.
  - destruct (String.eqb_spec first "") as [->|Hfirst].
    + destruct (Hhead (before ++ "" :: after)) as (source & Hsource & Hne).
      { unfold nonEmpty in *. rewrite List.filter_app. simpl.
        intros [_ Hnil]%app_eq_nil. done. }
      by exists 0, source.
    + destruct (IH after Hafter) as (i & source & Hraw & Hsource & Hne).
      exists (S i), source. split; [done|]. split; [|done].
      unfold nonEmpty in *. simpl. apply String.eqb_neq in Hfirst. by rewrite Hfirst.
Qed.

Lemma concat_lookup {A} (ls : list (list A)) i l :
  ls !! i = Some l -> exists before after, concat ls = before ++ l ++ after.
Proof.
  revert i. induction ls as [|l' ls IH]; intros [|i] Hi; simplify_eq/=.
  - exists [], (concat ls). done.
  - destruct (IH i Hi) as (before & after & ->). exists (l' ++ before), after.
    by rewrite <- app_assoc.
Qed.

(** The content lines of a completed benchmark: the one of the program at
    position [i] is made from the entry at index [i] of [expressions], the
    sequence given to [runBenchmark], while the programs were compiled from
    the expressions of it that are not empty. *)
Lemma benchmark_content_lines env expressions programs
    objects params w0 w0' t0 w r w' t :
  compileExpressions env expressions w0 = (Ok programs, w0', t0) ->
  runBenchmark objects programs params expressions w = (r, w', t) ->
  (forall n err, ~ In (PrintBenchmarkError n err) t) ->
  Forall2 (compiledFrom env) (nonEmpty expressions) programs /\
  (forall i program, programs !! i = Some program ->
     exists lines after,
       t = lines ++ PrintExpressionNumber (Z.of_nat i + 1)
                    :: match expressions !! i with
                       | Some raw => [PrintContent (contentOf raw)]
                       | None => []
                       end
                    ++ PrintEvaluations iterations :: after) /\
  (forall before after,
     expressions = before ++ "" :: after -> nonEmpty after <> [] ->
     exists i source program lines rest,
       expressions !! i = Some "" /\
       nonEmpty expressions !! i = Some source /\
       programs !! i = Some program /\ compiledFrom env source program /\
       contentOf "" <> contentOf source /\
       t = lines ++ PrintExpressionNumber (Z.of_nat i + 1)
                    :: PrintContent (contentOf "") :: PrintEvaluations iterations :: rest).
Proof.
  intros Hcompile Hrun Hnone.
  assert (Forall2 (compiledFrom env) (nonEmpty expressions) programs) as Hprograms.
  { unfold compileExpressions in Hcompile.
    destruct (first_failure env expressions)
      as [Hok|(before & expr & after & err & -> & Hbefore & Hfail)].
    - destruct (compileExpressions_loop_ok env expressions [] w0 Hok) as (new & t' & Hrun' & Hnew).
      rewrite Hrun' in Hcompile. by simplify_eq.
    - destruct (compileExpressions_loop_stop env before expr after err [] w0 Hbefore Hfail)
        as (new & t' & _ & Hstop).
      rewrite Hstop in Hcompile. done. }
  destruct (runBenchmark_completed _ _ _ _ _ _ _ _ Hrun Hnone)
    as (warm & t1 & blocks & t2 & Hwarm & _ & Hblocks & ->).
  assert (forall i program, programs !! i = Some program ->
     exists lines after,
       [PrintBenchmarkBanner; PrintWarmingUp] ++ warm
       ++ [PrintRunningBenchmark; ReadClock t1] ++ concat (map blockTrace blocks)
       ++ ReadClock t2 :: reportLines expressions (map measured blocks) (t2 - t1)
       = lines ++ PrintExpressionNumber (Z.of_nat i + 1)
                  :: match expressions !! i with
                     | Some raw => [PrintContent (contentOf raw)]
                     | None => []
                     end
                  ++ PrintEvaluations iterations :: after) as Hlines.
  { intros i program Hi.
    destruct (Forall2_lookup_l _ _ _ _ _ Hblocks Hi) as (b & Hb & _).
    assert (imap (expressionLines expressions (t2 - t1)) (map measured blocks) !! i
            = Some (expressionLines expressions (t2 - t1) i (measured b))) as Himap.
    { by rewrite list_lookup_imap, list_lookup_fmap, Hb. }
    apply concat_lookup in Himap as (pre & post & Hconcat).
    unfold reportLines. rewrite Hconcat, expressionLines_measured.
    exists ([PrintBenchmarkBanner; PrintWarmingUp] ++ warm
            ++ [PrintRunningBenchmark; ReadClock t1] ++ concat (map blockTrace blocks)
            ++ [ReadClock t2] ++ pre),
           ([PrintTotalTime (blockEnd b - blockStart b);
             PrintAverageTime (Z.quot (blockEnd b - blockStart b) iterations);
             PrintEvaluationsPerSecond iterations (t2 - t1)]
            ++ post ++ summaryLines (map measured blocks) (t2 - t1)).
    destruct (expressions !! i); repeat (rewrite <- app_assoc || cbn [app]); reflexivity. }
  split; [done|]. split; [done|].
  intros before after -> Hafter.
  destruct (first_empty before after Hafter) as (i & source & Hraw & Hsource & Hne).
  destruct (Forall2_lookup_l _ _ _ _ _ Hprograms Hsource) as (program & Hprogram & Hfrom).
  destruct (Hlines i program Hprogram) as (lines & rest & Ht). rewrite Hraw in Ht.
  exists i, source, program, lines, rest. repeat split; try done.
  by apply contentOf_nonempty.
Qed.

(** [main] in benchmark mode, once the files are loaded and the batch is
    compiled: the calls of the compilation, then [runBenchmark] on the
    programs and on the split sequence itself. *)
Lemma main_benchmark_run fuel args objectFile expressionFile paramsFile rest
    objectData objects expressionData paramsData params env programs w w1 compiled :
  filterArgs args false [] = (true, objectFile :: expressionFile :: paramsFile :: rest) ->
  loadFile objectFile = Ok objectData ->
  parseYAMLDocuments fuel objectData = Some (Ok objects) ->
  loadFile expressionFile = Ok expressionData ->
  loadFile paramsFile = Ok paramsData ->
  parseSingleYAMLDocument paramsData = Ok params ->
  cel_NewEnv = Ok env ->
  compileExpressions env (splitExpressions expressionData) w = (Ok programs, w1, compiled) ->
  value (main fuel args w) = Some Returned /\
  trace (main fuel args w)
  = compiled ++ trace (runBenchmark objects programs params (splitExpressions expressionData) w1).
Proof.
  intros Hargs Hobj Hparse Hexpr Hparams Hsingle Henv Hcompile.
  rewrite (main_loaded _ _ _ _ _ _ _ _ _ _ _ Hargs Hobj Hparse Hexpr Hparams).
  rewrite Hsingle, Henv. cbv zeta.
  rewrite value_bind, trace_bind, Hcompile. run_simpl.
  rewrite value_bind, trace_bind. run_simpl. by rewrite app_nil_r.
Qed.

(** C9. In benchmark mode, [main] hands the split sequence, which still holds
    the empty expressions, to [runBenchmark] together with the programs
    compiled from the expressions that are not empty.  In the report of a
    completed benchmark, the "Content" line of the program at position [i]
    of the compiled sequence is made from the entry at index [i] of the split
    sequence.  So when an empty expression comes before one that is not,
    there is a program, compiled from a real expression, whose content line
    is the one of the empty expression. *)
Theorem content_line_is_taken_from_the_split_sequence fuel args objectFile expressionFile
    paramsFile rest objectData objects expressionData paramsData params env
    programs w w1 compiled :
  filterArgs args false [] = (true, objectFile :: expressionFile :: paramsFile :: rest) ->
  loadFile objectFile = Ok objectData ->
  parseYAMLDocuments fuel objectData = Some (Ok objects) ->
  loadFile expressionFile = Ok expressionData ->
  loadFile paramsFile = Ok paramsData ->
  parseSingleYAMLDocument paramsData = Ok params ->
  cel_NewEnv = Ok env ->
  let expressions := splitExpressions expressionData in
  let t := trace (main fuel args w) in
  compileExpressions env expressions w = (Ok programs, w1, compiled) ->
  (forall n err, ~ In (PrintBenchmarkError n err) t) ->
  Forall2 (compiledFrom env) (nonEmpty expressions) programs /\
  (forall i program, programs !! i = Some program ->
     exists lines after,
       t = lines ++ PrintExpressionNumber (Z.of_nat i + 1)
                    :: match expressions !! i with
                       | Some raw => [PrintContent (contentOf raw)]
                       | None => []
                       end
                    ++ PrintEvaluations iterations :: after) /\
  (forall before after,
     expressions = before ++ "" :: after -> nonEmpty after <> [] ->
     exists i source program lines rest,
       expressions !! i = Some "" /\
       nonEmpty expressions !! i = Some source /\
       programs !! i = Some program /\ compiledFrom env source program /\
       contentOf "" <> contentOf source /\
       t = lines ++ PrintExpressionNumber (Z.of_nat i + 1)
                    :: PrintContent (contentOf "") :: PrintEvaluations iterations :: rest).
Proof.
  intros Hargs Hobj Hparse Hexpr Hparams Hsingle Henv expressions t Hcompile Hnone.
  destruct (main_benchmark_run _ _ _ _ _ _ _ _ _ _ _ _ _ _ _ _
              Hargs Hobj Hparse Hexpr Hparams Hsingle Henv Hcompile) as [_ Ht].
  fold expressions in Ht. fold t in Ht. clearbody t.
  destruct (benchmark_content_lines env expressions programs objects params w w1 compiled
              w1 _ _ _ Hcompile (run_eta _)) as (Hprograms & Hlines & Hempty).
  { intros n err Hin. apply (Hnone n err). rewrite Ht. apply in_or_app. by right. }
  split; [done|]. split.
  - intros i program Hi. destruct (Hlines i program Hi) as (lines & after & Hrun).
    exists (compiled ++ lines), after. by rewrite Ht, Hrun, <- app_assoc.
  - intros before after Hsplit Hafter.
    destruct (Hempty before after Hsplit Hafter)
      as (i & source & program & lines & rest' & Hi & Hsource & Hprogram & Hfrom & Hne & Hrun).
    exists i, source, program, (compiled ++ lines), rest'.
    repeat split; try done. by rewrite Ht, Hrun, <- app_assoc.
Qed.

(** ** What the benchmark counts *)

(** An error reported by the benchmark is the error of an evaluation of one
    of the programs. *)
Lemma reported_error_is_genuine objects programs params expressions w r w' t n err :
  runBenchmark objects programs params expressions w = (r, w', t) ->
  In (PrintBenchmarkError n err) t ->
  exists program object out w1,
    In program programs /\ (program_Eval program object params w1).1 = (out, Some err).
Proof.
  intros Hrun Hin.
  pose proof (leaves_runBenchmark objects programs params expressions w) as Hgenuine.
  rewrite Hrun in Hgenuine. cbn [trace snd] in Hgenuine.
  destruct (runBenchmark_run _ _ _ _ _ _ _ _ Hrun)
    as (warm & t0 & timed & Hwarm & _ & -> & [(blocks & t1 & Hblocks & ->)|(k & p & err' & Hk & Hab)]).
  - exfalso.
    apply in_app_or in Hin as [[Hin|[Hin|[]]]|Hin]; [done..|].
    apply in_app_or in Hin as [Hin|Hin].
    { rewrite List.Forall_forall in Hwarm. by apply Hwarm in Hin. }
    apply in_app_or in Hin as [[Hin|[Hin|[]]]|Hin]; [done..|].
    apply in_app_or in Hin as [Hin|[Hin|Hin]]; [|done|].
    + by apply (In_quiet _ _ (blocks_quiet _ _ _ _ Hblocks)) in Hin.
    + pose proof (reportLines_are_report_lines expressions
        (applyBlocks 0 blocks (make_stats (length programs))) (t1 - t0)) as Hrep.
      rewrite List.Forall_forall in Hrep. by apply Hrep in Hin.
  - destruct Hab as (pre & object & out & _ & Hpre & ->).
    rewrite List.Forall_forall in Hgenuine.
    assert (In (PrintBenchmarkError n err)
              (pre ++ [CallEval p object params (out, Some err');
                       PrintBenchmarkError (Z.of_nat k + 1) err'])) as Hlast.
    { apply in_app_or in Hin as [[Hin|[Hin|[]]]|Hin]; [done..|].
      apply in_app_or in Hin as [Hin|Hin].
      { rewrite List.Forall_forall in Hwarm. by apply Hwarm in Hin. }
      by apply in_app_or in Hin as [[Hin|[Hin|[]]]|Hin]. }
    apply in_app_or in Hlast as [Hlast|[Hlast|[Hlast|[]]]];
      [by apply (In_quiet _ _ Hpre) in Hlast | done |]. simplify_eq.
    destruct (Hgenuine (CallEval p object params (out, Some err))) as [w1 Hw1].
    { do 3 (apply in_or_app; right). apply in_or_app. right. by left. }
    exists p, object, out, w1. split; [|done].
    by apply list_elem_of_In, list_elem_of_lookup_2 with k.
Qed.

(** What a completed benchmark counts: the count reported for every program
    is the number of iterations, whatever the number of objects, while the
    block of each program holds one evaluation for each iteration and object. *)
Lemma completed_benchmark_counts objects programs params expressions w r w' t :
  runBenchmark objects programs params expressions w = (r, w', t) ->
  (forall n err, ~ In (PrintBenchmarkError n err) t) ->
  exists warm t0 blocks t1,
    Forall2 (blockOf objects params) programs blocks /\
    t = [PrintBenchmarkBanner; PrintWarmingUp] ++ warm
        ++ [PrintRunningBenchmark; ReadClock t0]
        ++ concat (map blockTrace blocks)
        ++ ReadClock t1 :: reportLines expressions (map measured blocks) (t1 - t0) /\
    Forall (fun b => Z.of_nat (length (blockEvals b))
                     = (iterations * Z.of_nat (length objects))%Z) blocks /\
    (forall n, In (PrintEvaluations n) t -> n = iterations) /\
    (forall i program, programs !! i = Some program ->
       In (PrintEvaluations iterations) t).
Proof.
  intros Hrun Hnone.
  destruct (runBenchmark_completed _ _ _ _ _ _ _ _ Hrun Hnone)
    as (warm & t0 & blocks & t1 & Hwarm & _ & Hblocks & ->).
  exists warm, t0, blocks, t1. split; [done|]. split; [done|]. split; [|split].
  - clear -Hblocks. induction Hblocks as [|program b programs blocks Hb _ IH]; constructor; [|done].
    apply roundsOf_length in Hb. rewrite Hb, Nat2Z.inj_mul, Z2Nat.id; [done|].
    pose proof iterations_positive as Hpos. apply Z.ltb_lt in Hpos. lia.
  - intros n Hin. eapply In_completed in Hin; [|done..].
    apply In_reportLines in Hin as [(i & stat & Hstat & Hin)|Hin].
    + rewrite list_lookup_fmap in Hstat. destruct (blocks !! i) as [b|] eqn:Hb; [|done].
      simpl in Hstat. simplify_eq. rewrite expressionLines_measured in Hin.
      destruct Hin as [Hin|Hin]; [done|]. apply in_app_or in Hin as [Hin|Hin].
      * by destruct (expressions !! i); [destruct Hin as [Hin|[]]|].
      * simpl in Hin. destruct Hin as [Hin|[Hin|[Hin|[Hin|[]]]]]; try done. by simplify_eq.
    + simpl in Hin. by repeat (destruct Hin as [Hin|Hin]; [done|]).
  - intros i program Hi. destruct (Forall2_lookup_l _ _ _ _ _ Hblocks Hi) as (b & Hb & _).
    do 4 (apply in_or_app; right). right. unfold reportLines. apply in_or_app. left.
    apply in_concat. exists (expressionLines expressions (t1 - t0) i (measured b)). split.
    + apply list_elem_of_In, list_elem_of_lookup_2 with i.
      by rewrite list_lookup_imap, list_lookup_fmap, Hb.
    + rewrite expressionLines_measured. right. apply in_or_app. right. by left.
Qed.

(** * Further properties of cel.go *)

(** ** The command line *)

Lemma filterArgs_run args : forall benchmarkMode filteredArgs,
  filterArgs args benchmarkMode filteredArgs
  = (benchmarkMode || existsb isFlag args, filteredArgs ++ positional args).
Proof.
  induction args as [|arg args IH]; intros benchmarkMode filteredArgs; simpl.
  - by rewrite orb_false_r, app_nil_r.
  - unfold positional, isFlag in *. simpl. destruct (String.eqb arg "--benchmark"); simpl.
    + rewrite IH. by rewrite orb_true_r.
    + rewrite IH. by rewrite <- app_assoc.
Qed.

Lemma positional_not_flag args arg : In arg (positional args) -> isFlag arg = false.
Proof. unfold positional. intros [_ Harg]%List.filter_In. by destruct (isFlag arg). Qed.

(** X1. The flag is recognised wherever it stands among the arguments and
    however often it is given; it never counts as a file name, and the other
    arguments keep their order. *)
Theorem flag_is_recognised_anywhere args :
  filterArgs args false [] = (existsb isFlag args, positional args) /\
  (existsb isFlag args = true <-> In "--benchmark" args) /\
  ~ In "--benchmark" (positional args) /\
  (forall before after,
     positional (before ++ "--benchmark" :: after) = positional (before ++ after)) /\
  (forall before after,
     positional (before ++ after) = positional before ++ positional after).
Proof.
  split; [by rewrite filterArgs_run|]. split; [|split; [|split]].
  - rewrite existsb_exists. split.
    + intros (arg & Hin & Harg). by apply String.eqb_eq in Harg as ->.
    + intros Hin. by exists "--benchmark".
  - by intros Hin%positional_not_flag.
  - intros before after. unfold positional. by rewrite !List.filter_app.
  - intros before after. unfold positional. by rewrite List.filter_app.
Qed.

(** X2. With fewer than three positional arguments [main] prints the usage
    line and exits with status 1, whatever the files are: nothing else is
    printed, and nothing is compiled or evaluated. *)
Theorem too_few_arguments_print_usage fuel args w :
  length (positional args) < 3 ->
  main fuel args w = (Some (Exited 1), w, [PrintUsage]).
Proof.
  intros Hfew. unfold main. rewrite filterArgs_run. simpl.
  destruct (positional args) as [|objectFile [|expressionFile [|paramsFile rest]]];
    simpl in Hfew; try lia; reflexivity.
Qed.

(** X3. Only the first three positional arguments are used: what follows
    them is ignored, and so are the place and the number of the flags. *)
Theorem surplus_arguments_are_ignored fuel args objectFile expressionFile paramsFile surplus :
  positional args = objectFile :: expressionFile :: paramsFile :: surplus ->
  main fuel args
  = main fuel ((if existsb isFlag args then ["--benchmark"] else [])
               ++ [objectFile; expressionFile; paramsFile]).
Proof.
  intros Hargs.
  assert (forall arg, In arg [objectFile; expressionFile; paramsFile] -> isFlag arg = false)
    as Hfiles.
  { intros arg Hin. apply (positional_not_flag args). rewrite Hargs. simpl in *. tauto. }
  assert (positional [objectFile; expressionFile; paramsFile]
          = [objectFile; expressionFile; paramsFile]) as Hsame.
  { unfold positional. simpl.
    rewrite (Hfiles objectFile), (Hfiles expressionFile), (Hfiles paramsFile); simpl; tauto. }
  assert (filterArgs ((if existsb isFlag args then ["--benchmark"] else [])
                      ++ [objectFile; expressionFile; paramsFile]) false []
          = (existsb isFlag args, [objectFile; expressionFile; paramsFile])) as Hshort.
  { rewrite filterArgs_run. destruct (existsb isFlag args); simpl; f_equal.
    - apply Hsame.
    - unfold isFlag in *. simpl.
      by rewrite (Hfiles objectFile), (Hfiles expressionFile), (Hfiles paramsFile)
        by (simpl; tauto).
    - apply Hsame. }
  unfold main. rewrite Hshort, filterArgs_run, Hargs. reflexivity.
Qed.

(** ** The kinds of events each part of cel.go leaves *)

Lemma leaves_impl {A} (P Q : Event -> Prop) (m : M A) :
  (forall e, P e -> Q e) -> leaves P m -> leaves Q m.
Proof. intros HPQ Hm w. eapply Forall_impl; [apply Hm | done]. Qed.

Lemma leaves_call_Eval_any (P : Event -> Prop) program object params :
  (forall answer, P (CallEval program object params answer)) ->
  leaves P (call_Eval program object params).
Proof. intros HP w. rewrite call_Eval_run. by repeat constructor. Qed.

Lemma leaves_call_Now_any (P : Event -> Prop) :
  (forall now, P (ReadClock now)) -> leaves P call_Now.
Proof. intros HP w. rewrite call_Now_run. by repeat constructor. Qed.

Lemma leaves_time_Since_any (P : Event -> Prop) t :
  (forall now, P (ReadClock now)) -> leaves P (time_Since t).
Proof. intros HP w. rewrite time_Since_run. by repeat constructor. Qed.

Lemma runBenchmark_lines objects programs params expressions :
  leaves (fun e => isBenchmarkLine e || isEval e = true)
         (runBenchmark objects programs params expressions).
Proof.
  unfold runBenchmark.
  apply leaves_bind; [by apply leaves_emit | intros _].
  apply leaves_bind; [by apply leaves_emit | intros _].
  apply leaves_bind; [|intros _].
  { intros w. eapply Forall_impl; [apply warmUp_trace|]. by intros e ->; rewrite orb_true_r. }
  apply leaves_bind; [by apply leaves_emit | intros _].
  apply leaves_bind; [by apply leaves_call_Now_any | intros startTime].
  apply leaves_bind; [|intros [stats|]]; [| |apply leaves_ret].
  - generalize 0 (make_stats (length programs)).
    induction programs as [|program rest IH]; intros i stats; cbn [timedPhase].
    + apply leaves_ret.
    + apply leaves_bind; [by apply leaves_call_Now_any | intros exprStart].
      apply leaves_bind.
      * apply leaves_timesUntil, leaves_rangeUntil. intros object.
        apply leaves_bind; [by apply leaves_call_Eval_any | intros [out [e|]]].
        -- apply leaves_bind; [by apply leaves_emit | intros _; apply leaves_ret].
        -- apply leaves_ret.
      * intros []; [|apply leaves_ret].
        apply leaves_bind; [by apply leaves_time_Since_any | intros d; apply IH].
  - apply leaves_bind; [by apply leaves_time_Since_any | intros d].
    intros w. rewrite report_run. simpl.
    eapply Forall_impl; [apply reportLines_are_report_lines|].
    intros e He. by destruct e.
Qed.

Lemma evaluationMatrix_lines env objects expressions params :
  leaves (fun e => isMatrixLine e || isCall e = true)
         (evaluationMatrix env objects expressions params).
Proof.
  apply leaves_range. intros objIdx object.
  apply leaves_bind; [by apply leaves_emit | intros _].
  apply leaves_range. intros exprIdx expr.
  unfold evaluateCell. destruct (String.eqb expr ""); [apply leaves_ret|].
  apply leaves_bind; [by apply leaves_emit | intros _].
  apply leaves_bind; [intros w; by repeat constructor | intros [ast issues]].
  assert (leaves (fun e => isMatrixLine e || isCall e = true)
    (let* r := call_Program env ast in
     match r with
     | Ok program =>
         let* (out, err) := call_Eval program object params in
         match err with
         | Some e => emit (PrintEvaluationFailed e)
         | None => emit (PrintResult out)
         end
     | Fail err => emit (PrintProgramFailed err)
     end)) as Hrest.
  { apply leaves_bind; [intros w; by repeat constructor | intros [program|err]];
      [|by apply leaves_emit].
    apply leaves_bind; [by apply leaves_call_Eval_any | intros [out [e|]]]; by apply leaves_emit. }
  destruct issues as [[cause|]|]; [by apply leaves_emit | done | done].
Qed.

(** Compiling changes nothing in the world and leaves only calls to the CEL
    environment. *)
Lemma compileExpressions_loop_calls env expressions : forall programs w,
  world (compileExpressions_loop env expressions programs w) = w /\
  Forall (fun e => isCompilation e = true)
         (trace (compileExpressions_loop env expressions programs w)).
Proof.
  induction expressions as [|expr rest IH]; intros programs w; simpl; [done|].
  destruct (String.eqb expr ""); [apply IH|].
  rewrite world_bind, trace_bind. unfold call_Compile at 1 2 3 4. run_simpl.
  destruct (env_Compile env expr) as [ast [[cause|]|]]; run_simpl.
  - split; [done | by repeat constructor].
  - rewrite world_bind, trace_bind. unfold call_Program at 1 2 3 4. run_simpl.
    destruct (env_Program env ast) as [program|err]; run_simpl.
    + destruct (IH (programs ++ [program]) w) as [-> Hcalls]. split; [done|].
      by repeat constructor.
    + split; [done | by repeat constructor].
  - rewrite world_bind, trace_bind. unfold call_Program at 1 2 3 4. run_simpl.
    destruct (env_Program env ast) as [program|err]; run_simpl.
    + destruct (IH (programs ++ [program]) w) as [-> Hcalls]. split; [done|].
      by repeat constructor.
    + split; [done | by repeat constructor].
Qed.

(** ** The two modes and the exit status *)

(** X4. The two modes do not mix.  Without the flag, [main] prints no line of
    the benchmark and never reads the clock; with the flag, it prints no
    object header, no expression header and no cell. *)
Theorem modes_do_not_mix fuel args w :
  Forall (fun e => if existsb isFlag args then isMatrixLine e = false
                   else isBenchmarkLine e = false)
         (trace (main fuel args w)).
Proof.
  revert w.
  set (P := fun e => if existsb isFlag args then isMatrixLine e = false
                     else isBenchmarkLine e = false).
  change (leaves P (main fuel args)).
  assert (forall msg err, leaves P (log_Fatal msg err)) as Hfatal.
  { intros msg err. apply leaves_bind; [|intros _; apply leaves_ret].
    apply leaves_emit. unfold P. by destruct (existsb isFlag args). }
  unfold main. rewrite filterArgs_run. simpl.
  destruct (positional args) as [|objectFile [|expressionFile [|paramsFile rest]]];
    try (apply leaves_bind; [|intros _; apply leaves_ret];
         apply leaves_emit; unfold P; by destruct (existsb isFlag args)).
  destruct (loadFile objectFile); [|apply Hfatal].
  destruct (parseYAMLDocuments fuel _) as [[objects|]|]; [|apply Hfatal|apply leaves_ret].
  destruct (loadFile expressionFile); [|apply Hfatal].
  destruct (loadFile paramsFile); [|apply Hfatal].
  destruct (parseSingleYAMLDocument _) as [params|]; [|apply Hfatal].
  destruct cel_NewEnv as [env|]; [|apply Hfatal].
  subst P. destruct (existsb isFlag args).
  - apply leaves_bind; [|intros [programs|err]; [|apply Hfatal]].
    + intros w0. eapply Forall_impl; [apply compileExpressions_loop_calls|].
      intros e He. by destruct e.
    + apply leaves_bind; [|intros _; apply leaves_ret].
      eapply leaves_impl; [|apply runBenchmark_lines]. intros e He. by destruct e.
  - apply leaves_bind; [|intros _; apply leaves_ret].
    eapply leaves_impl; [|apply evaluationMatrix_lines]. intros e He. by destruct e.
Qed.

(** X5. What the exit status tells.  When [main] exits with a status, the
    status is 1, the last thing it did was to print the usage line or to log
    a fatal error, and before that it made nothing but compilations: no
    program was evaluated and the clock was not read.  When [main] returns,
    it logged no fatal error and did not print the usage line: in the normal
    mode no failure of a compilation or of an evaluation ends the run. *)
Theorem exit_status_tells_what_ran fuel args w :
  (forall code, value (main fuel args w) = Some (Exited code) ->
     code = 1%Z /\ world (main fuel args w) = w /\
     exists compilations last,
       trace (main fuel args w) = compilations ++ [last] /\ isFatal last = true /\
       Forall (fun e => isCompilation e = true) compilations) /\
  (value (main fuel args w) = Some Returned ->
     Forall (fun e => isFatal e = false) (trace (main fuel args w))) /\
  (existsb isFlag args = false -> 3 <= length (positional args) ->
     forall code, value (main fuel args w) = Some (Exited code) ->
     exists msg err, trace (main fuel args w) = [LogFatal msg err] /\
       msg <> "Failed to compile expressions for benchmark: ").
Proof.
  assert (forall msg err,
    log_Fatal msg err w = (Some (Exited 1), w, [LogFatal msg err])) as Hfatal by done.
  unfold main. rewrite filterArgs_run. simpl.
  destruct (positional args) as [|objectFile [|expressionFile [|paramsFile rest]]];
    try (split; [|split]; [intros code [= <-]; repeat split; by exists [], PrintUsage
                          | done | simpl; lia]).
  destruct (loadFile objectFile); [|rewrite Hfatal; split; [|split];
    [intros code [= <-]; repeat split; by eexists [], _ | done | by eauto]].
  destruct (parseYAMLDocuments fuel _) as [[objects|]|]; [| |done];
    [|rewrite Hfatal; split; [|split];
       [intros code [= <-]; repeat split; by eexists [], _ | done | by eauto]].
  destruct (loadFile expressionFile) as [expressionData|]; [|rewrite Hfatal; split; [|split];
    [intros code [= <-]; repeat split; by eexists [], _ | done | by eauto]].
  destruct (loadFile paramsFile); [|rewrite Hfatal; split; [|split];
    [intros code [= <-]; repeat split; by eexists [], _ | done | by eauto]].
  destruct (parseSingleYAMLDocument _) as [params|]; [|rewrite Hfatal; split; [|split];
    [intros code [= <-]; repeat split; by eexists [], _ | done | by eauto]].
  destruct cel_NewEnv as [env|]; [|rewrite Hfatal; split; [|split];
    [intros code [= <-]; repeat split; by eexists [], _ | done | by eauto]].
  destruct (existsb isFlag args).
  - rewrite value_bind, world_bind, trace_bind.
    destruct (compileExpressions_loop_calls env (splitExpressions expressionData) [] w) as [Hw Hcalls].
    fold (compileExpressions env (splitExpressions expressionData)) in *. rewrite Hw.
    destruct (value (compileExpressions env (splitExpressions expressionData) w)) as [programs|err].
    + rewrite value_bind, trace_bind. run_simpl. split; [done|]. split; [|done].
      intros _. apply Forall_app. split.
      * eapply Forall_impl; [apply Hcalls|]. intros e He. by destruct e.
      * rewrite app_nil_r. eapply Forall_impl; [apply runBenchmark_lines|].
        intros e He. by destruct e.
    + rewrite Hfatal. run_simpl. split; [|done].
      intros code [= <-]. repeat split. by eexists _, _.
  - rewrite value_bind, trace_bind. run_simpl. split; [done|]. split; [|done].
    intros _. rewrite app_nil_r. eapply Forall_impl; [apply evaluationMatrix_lines|].
    intros e He. by destruct e.
Qed.

(** ** compileExpressions when every expression compiles, and in [main] *)

Lemma failingIndex_None env expressions : forall i,
  failingIndex env i expressions = None <->
  Forall (fun e => failureOf env e = None) expressions.
Proof.
  induction expressions as [|expr rest IH]; intros i; simpl; [done|].
  rewrite Forall_cons. destruct (failureOf env expr) as [err|].
  - split; [done | by intros [? _]].
  - rewrite IH. split; [done | by intros [_ ?]].
Qed.

Lemma failingIndex_Some env expressions k :
  failingIndex env 0 expressions = Some k ->
  exists before expr after err,
    expressions = before ++ expr :: after /\ k = length before /\
    Forall (fun e => failureOf env e = None) before /\ failureOf env expr = Some err.
Proof.
  intros Hk. destruct (first_failure env expressions)
    as [Hall|(before & expr & after & err & -> & Hbefore & Hfail)].
  - apply (failingIndex_None env expressions 0) in Hall. congruence.
  - rewrite (failingIndex_first env before expr after err 0 Hbefore Hfail) in Hk.
    simplify_eq. by exists before, expr, after, err.
Qed.

Lemma compileExpressions_loop_trace env expressions : forall programs w,
  Forall (fun e => failureOf env e = None) expressions ->
  trace (compileExpressions_loop env expressions programs w)
  = flat_map (compileCalls env) (nonEmpty expressions).
Proof.
  induction expressions as [|expr rest IH]; intros programs w Hall; [done|].
  apply Forall_cons in Hall as [Hexpr Hrest].
  destruct (String.eqb_spec expr "") as [->|Hne].
  - simpl. by apply IH.
  - destruct (compileExpressions_loop_pass env expr rest programs w Hne Hexpr)
      as (program & _ & ->). run_simpl. rewrite IH by done.
    unfold nonEmpty. simpl. by destruct (String.eqb_spec expr "").
Qed.

(** X6. When no expression fails, [compileExpressions] compiles every
    expression that is not empty exactly once, in the order of the file, makes
    one program of each, and returns the programs in that order.  (The normal
    mode compiles an expression once for every object instead.) *)
Theorem compileExpressions_compiles_each_expression_once env expressions w :
  failingIndex env 0 expressions = None ->
  exists programs,
    compileExpressions env expressions w
    = (Ok programs, w, flat_map (compileCalls env) (nonEmpty expressions)) /\
    Forall2 (compiledFrom env) (nonEmpty expressions) programs /\
    length (List.filter isCompile (flat_map (compileCalls env) (nonEmpty expressions)))
    = length programs.
Proof.
  intros Hall%failingIndex_None. unfold compileExpressions.
  destruct (compileExpressions_loop_ok env expressions [] w Hall) as (programs & t & Hrun & Hprograms).
  pose proof (compileExpressions_loop_trace env expressions [] w Hall) as Htrace.
  rewrite Hrun in Htrace. run_simpl. subst t. exists programs. split; [done|]. split; [done|].
  rewrite <- (Forall2_length _ _ _ Hprograms).
  clear. induction (nonEmpty expressions) as [|expr rest IH]; [done|].
  simpl. rewrite List.filter_app, length_app, IH. unfold compileCalls. simpl.
  by destruct (env_Compile env expr) as [ast [[cause|]|]].
Qed.

(** X7. In the benchmark mode one expression that fails to compile costs the
    whole run: the expressions before it are compiled, the failure is logged
    as fatal with the error of [compileExpressions], and the process exits
    with status 1 before the benchmark starts: nothing is evaluated and no
    line of the benchmark is printed. *)
Theorem benchmark_needs_every_expression_to_compile fuel args objectFile expressionFile
    paramsFile rest objectData objects expressionData paramsData params env k w :
  filterArgs args false [] = (true, objectFile :: expressionFile :: paramsFile :: rest) ->
  loadFile objectFile = Ok objectData ->
  parseYAMLDocuments fuel objectData = Some (Ok objects) ->
  loadFile expressionFile = Ok expressionData ->
  loadFile paramsFile = Ok paramsData ->
  parseSingleYAMLDocument paramsData = Ok params ->
  cel_NewEnv = Ok env ->
  failingIndex env 0 (splitExpressions expressionData) = Some k ->
  exists expr err,
    splitExpressions expressionData !! k = Some expr /\
    failureOf env expr = Some err /\
    main fuel args w
    = (Some (Exited 1), w,
       flat_map (compileCalls env) (nonEmpty (take k (splitExpressions expressionData)))
       ++ compileCalls env expr
       ++ [LogFatal "Failed to compile expressions for benchmark: " err]).
Proof.
  intros Hargs Hobj Hparse Hexpr Hparams Hsingle Henv Hk.
  rewrite (main_loaded _ _ _ _ _ _ _ _ _ _ _ Hargs Hobj Hparse Hexpr Hparams), Hsingle, Henv.
  cbv zeta.
  destruct (failingIndex_Some _ _ _ Hk) as (before & expr & after & err & -> & -> & Hbefore & Hfail).
  exists expr, err. split; [by rewrite list_lookup_middle|]. split; [done|].
  rewrite take_app_length.
  destruct (compileExpressions_loop_stop env before expr after err [] w Hbefore Hfail)
    as (new & t & Hrun & Hstop).
  pose proof (compileExpressions_loop_trace env before [] w Hbefore) as Htrace.
  rewrite Hrun in Htrace. run_simpl. subst t.
  unfold bind, compileExpressions. rewrite Hstop. simpl. by rewrite <- app_assoc.
Qed.

(** ** The two parsers and the stream of the decoder *)

Lemma parseYAMLDocuments_loop_stream fuel : forall decoder documents parsed,
  parseYAMLDocuments_loop fuel decoder documents = Some (Ok parsed) <->
  exists more,
    parsed = documents ++ more /\ length more < fuel /\
    (forall i doc, more !! i = Some doc -> (Decode (decoderAfter i decoder)).1 = Ok doc) /\
    (Decode (decoderAfter (length more) decoder)).1 = Fail io_EOF.
Proof.
  induction fuel as [|fuel IH]; intros decoder documents parsed; simpl.
  - split; [done | intros (more & _ & Hlt & _); lia].
  - destruct (Decode decoder) as [[doc|[|msg]] decoder'] eqn:E.
    + rewrite IH. split.
      * intros (more & -> & Hlt & Hdocs & Hend). exists (doc :: more).
        split; [by rewrite <- app_assoc|]. split; [simpl; lia|]. split.
        -- intros [|i] d Hd; simpl in *; [by rewrite E; simplify_eq|].
           rewrite E. by apply Hdocs.
        -- simpl. by rewrite E.
      * intros (more & -> & Hlt & Hdocs & Hend). destruct more as [|first more].
        -- simpl in Hend. by rewrite E in Hend.
        -- pose proof (Hdocs 0 first eq_refl) as Hfirst. simpl in Hfirst. rewrite E in Hfirst.
           simpl in Hfirst. simplify_eq. exists more.
           split; [by rewrite <- app_assoc|]. split; [simpl in Hlt; lia|]. split.
           ++ intros i d Hd. specialize (Hdocs (S i) d Hd). simpl in Hdocs. by rewrite E in Hdocs.
           ++ simpl in Hend. by rewrite E in Hend.
    + split.
      * intros [= <-]. exists []. rewrite app_nil_r. simpl. rewrite E.
        split; [done|]. split; [lia|]. by split.
      * intros (more & -> & _ & Hdocs & _). destruct more as [|first more].
        -- by rewrite app_nil_r.
        -- specialize (Hdocs 0 first eq_refl). simpl in Hdocs. by rewrite E in Hdocs.
    + split; [done|].
      intros (more & -> & _ & Hdocs & Hend). destruct more as [|first more].
      * simpl in Hend. by rewrite E in Hend.
      * specialize (Hdocs 0 first eq_refl). simpl in Hdocs. by rewrite E in Hdocs.
Qed.

Lemma parseYAMLDocuments_loop_error fuel : forall decoder documents err,
  parseYAMLDocuments_loop fuel decoder documents = Some (Fail err) <->
  err <> io_EOF /\
  exists k, k < fuel /\
    (forall i, i < k -> exists doc, (Decode (decoderAfter i decoder)).1 = Ok doc) /\
    (Decode (decoderAfter k decoder)).1 = Fail err.
Proof.
  induction fuel as [|fuel IH]; intros decoder documents err; simpl.
  - split; [done | intros (_ & k & Hlt & _); lia].
  - destruct (Decode decoder) as [[doc|[|msg]] decoder'] eqn:E.
    + rewrite IH. split.
      * intros (Herr & k & Hlt & Hdocs & Hend). split; [done|]. exists (S k).
        split; [lia|]. split.
        -- intros [|i] Hi; simpl; rewrite E; [by exists doc|]. apply Hdocs. lia.
        -- simpl. by rewrite E.
      * intros (Herr & k & Hlt & Hdocs & Hend). split; [done|]. destruct k as [|k].
        -- simpl in Hend. by rewrite E in Hend.
        -- exists k. split; [lia|]. split.
           ++ intros i Hi. specialize (Hdocs (S i) ltac:(lia)). simpl in Hdocs.
              by rewrite E in Hdocs.
           ++ simpl in Hend. by rewrite E in Hend.
    + split; [done|]. intros (Herr & k & _ & Hdocs & Hend). destruct k as [|k].
      * simpl in Hend. rewrite E in Hend. simpl in Hend. by simplify_eq.
      * destruct (Hdocs 0 ltac:(lia)) as [doc Hdoc]. simpl in Hdoc. by rewrite E in Hdoc.
    + split.
      * intros [= <-]. split; [done|]. exists 0. split; [lia|]. split; [intros i Hi; lia|].
        simpl. by rewrite E.
      * intros (Herr & k & _ & Hdocs & Hend). destruct k as [|k].
        -- simpl in Hend. rewrite E in Hend. simpl in Hend. by simplify_eq.
        -- destruct (Hdocs 0 ltac:(lia)) as [doc Hdoc]. simpl in Hdoc. by rewrite E in Hdoc.
Qed.

(** X8. [parseYAMLDocuments] returns exactly the documents that the decoder
    answers before its first [io.EOF], in the order of the stream: it succeeds
    with [documents] if and only if the calls number 0, 1, ... to [Decode]
    answer with these documents and the next call answers [io.EOF]. *)
Theorem parseYAMLDocuments_returns_the_stream fuel data documents :
  parseYAMLDocuments fuel data = Some (Ok documents) <->
  length documents < fuel /\
  (forall i doc, documents !! i = Some doc -> answerAt data i = Ok doc) /\
  answerAt data (length documents) = Fail io_EOF.
Proof.
  unfold parseYAMLDocuments, answerAt. rewrite parseYAMLDocuments_loop_stream. split.
  - by intros (more & -> & H).
  - intros H. by exists documents.
Qed.

(** X9. [parseYAMLDocuments] fails exactly when an error that is not
    [io.EOF] comes before the first [io.EOF]: the error it returns is the
    first such error of the stream, and the documents decoded before it are
    not returned. *)
Theorem parseYAMLDocuments_fails_on_the_first_error fuel data err :
  parseYAMLDocuments fuel data = Some (Fail err) <->
  err <> io_EOF /\
  exists k, k < fuel /\
    (forall i, i < k -> exists doc, answerAt data i = Ok doc) /\
    answerAt data k = Fail err.
Proof. unfold parseYAMLDocuments, answerAt. apply parseYAMLDocuments_loop_error. Qed.

(** X10. [parseSingleYAMLDocument] looks at the first answer of the decoder
    only.  Where [parseYAMLDocuments] finds documents, it returns the first;
    where [parseYAMLDocuments] finds none, it fails with [io.EOF]; and where
    [parseYAMLDocuments] fails, it fails with the same error only if the
    error is that of the first document: after a first document that is fine,
    what follows is ignored. *)
Theorem parseSingleYAMLDocument_ignores_what_follows fuel data answer :
  parseYAMLDocuments fuel data = Some answer ->
  parseSingleYAMLDocument data = answerAt data 0 /\
  match answer with
  | Ok [] => parseSingleYAMLDocument data = Fail io_EOF
  | Ok (doc :: _) => parseSingleYAMLDocument data = Ok doc
  | Fail err =>
      (parseSingleYAMLDocument data = Fail err /\ answerAt data 0 = Fail err) \/
      (exists doc k, parseSingleYAMLDocument data = Ok doc /\ 0 < k /\ answerAt data k = Fail err)
  end.
Proof.
  intros Hmulti.
  assert (parseSingleYAMLDocument data = answerAt data 0) as Hsingle.
  { unfold parseSingleYAMLDocument, answerAt. simpl.
    by destruct (Decode (yaml_NewDecoder data)) as [[doc|err] decoder']. }
  split; [done|]. rewrite Hsingle. destruct answer as [[|doc documents]|err].
  - apply parseYAMLDocuments_loop_stream in Hmulti as (more & Hmore & _ & _ & Hend).
    simpl in Hmore. by subst more.
  - apply parseYAMLDocuments_loop_stream in Hmulti as (more & Hmore & _ & Hdocs & _).
    simpl in Hmore. subst more. by apply (Hdocs 0).
  - apply parseYAMLDocuments_loop_error in Hmulti as (_ & k & _ & Hdocs & Hend).
    destruct k as [|k]; [by left|]. right.
    destruct (Hdocs 0 ltac:(lia)) as [doc Hdoc]. exists doc, (S k). split; [done|]. split; [lia|done].
Qed.

(** ** Runs with nothing to evaluate *)

Lemma times_pure (body : M unit) :
  (forall w, body w = (tt, w, [])) -> forall n w, times n body w = (tt, w, []).
Proof.
  intros Hbody. induction n as [|n IH]; intros w; simpl; [done|].
  unfold bind. by rewrite Hbody, IH.
Qed.

Lemma range_nothing {A} (body : nat -> A -> M unit) xs :
  (forall i x w, body i x w = (tt, w, [])) -> forall i w, range i xs body w = (tt, w, []).
Proof.
  intros Hbody. induction xs as [|x xs IH]; intros i w; simpl; [done|].
  unfold bind. by rewrite Hbody, IH.
Qed.

Lemma warmUp_no_programs objects params w : warmUp objects [] params w = (tt, w, []).
Proof. unfold warmUp. apply times_pure. intros w0. by apply range_nothing. Qed.

(** X11. The benchmark of an expression file without any expression (an
    empty file, white space, separators only) compiles nothing and evaluates
    nothing, whatever the objects: it reads the clock twice and prints the
    summary alone, with 0 evaluations and a rate of 0 over the time between
    the two readings. *)
Theorem benchmark_without_expressions fuel args objectFile expressionFile
    paramsFile rest objectData objects expressionData paramsData params env w :
  filterArgs args false [] = (true, objectFile :: expressionFile :: paramsFile :: rest) ->
  loadFile objectFile = Ok objectData ->
  parseYAMLDocuments fuel objectData = Some (Ok objects) ->
  loadFile expressionFile = Ok expressionData ->
  loadFile paramsFile = Ok paramsData ->
  parseSingleYAMLDocument paramsData = Ok params ->
  cel_NewEnv = Ok env ->
  nonEmpty (splitExpressions expressionData) = [] ->
  let t0 := (time_Now w).1 in
  let t1 := (time_Now (time_Now w).2).1 in
  main fuel args w
  = (Some Returned, (time_Now (time_Now w).2).2,
     [PrintBenchmarkBanner; PrintWarmingUp; PrintRunningBenchmark;
      ReadClock t0; ReadClock t1;
      PrintSummaryBanner; PrintTotalDuration (t1 - t0);
      PrintTotalEvaluations 0; PrintOverallRate 0 (t1 - t0)]).
Proof.
  intros Hargs Hobj Hparse Hexpr Hparams Hsingle Henv Hnone.
  rewrite (main_loaded _ _ _ _ _ _ _ _ _ _ _ Hargs Hobj Hparse Hexpr Hparams), Hsingle, Henv.
  cbv zeta. unfold bind at 1, compileExpressions.
  rewrite compileExpressions_loop_nonEmpty, Hnone. simpl.
  unfold runBenchmark, bind. simpl. rewrite warmUp_no_programs.
  rewrite call_Now_run, time_Since_run. reflexivity.
Qed.

Lemma evaluateCell_no_header env params object exprIdx expr :
  leaves (fun e => isObjectHeader e = false) (evaluateCell env params object exprIdx expr).
Proof.
  unfold evaluateCell. destruct (String.eqb expr ""); [apply leaves_ret|].
  apply leaves_bind; [by apply leaves_emit | intros _].
  apply leaves_bind; [intros w; by repeat constructor | intros [ast issues]].
  assert (leaves (fun e => isObjectHeader e = false)
    (let* r := call_Program env ast in
     match r with
     | Ok program =>
         let* (out, err) := call_Eval program object params in
         match err with
         | Some e => emit (PrintEvaluationFailed e)
         | None => emit (PrintResult out)
         end
     | Fail err => emit (PrintProgramFailed err)
     end)) as Hrest.
  { apply leaves_bind; [intros w; by repeat constructor | intros [program|err]];
      [|by apply leaves_emit].
    apply leaves_bind; [by apply leaves_call_Eval_any | intros [out [e|]]]; by apply leaves_emit. }
  destruct issues as [[cause|]|]; [by apply leaves_emit | done | done].
Qed.

Lemma filter_none {A} (f : A -> bool) l : Forall (fun x => f x = false) l -> List.filter f l = [].
Proof. induction 1 as [|x l Hx _ IH]; simpl; [done|]. by rewrite Hx. Qed.

Lemma object_loop_headers env params expressions objects : forall i w,
  List.filter isObjectHeader
    (trace (range i objects (fun objIdx object =>
              do emit (PrintObjectHeader (Z.of_nat objIdx + 1)) then
              range 0 expressions (evaluateCell env params object)) w))
  = map (fun j => PrintObjectHeader (Z.of_nat j + 1)) (seq i (length objects)).
Proof.
  induction objects as [|object objects IH]; intros i w; [done|].
  cbn [range length seq map]. rewrite !trace_bind, !List.filter_app, IH. simpl. f_equal.
  rewrite filter_none; [done|]. apply leaves_range. intros j expr. apply evaluateCell_no_header.
Qed.

Lemma expression_loop_nothing env params object expressions : forall i w,
  nonEmpty expressions = [] ->
  range i expressions (evaluateCell env params object) w = (tt, w, []).
Proof.
  induction expressions as [|expr rest IH]; intros i w Hnone; [done|].
  unfold nonEmpty in Hnone. simpl in Hnone.
  destruct (String.eqb_spec expr "") as [->|Hne]; [|done].
  cbn [range]. unfold bind. by rewrite evaluateCell_empty, IH.
Qed.

Lemma object_loop_nothing env params expressions objects : forall i w,
  nonEmpty expressions = [] ->
  range i objects (fun objIdx object =>
    do emit (PrintObjectHeader (Z.of_nat objIdx + 1)) then
    range 0 expressions (evaluateCell env params object)) w
  = (tt, w, map (fun j => PrintObjectHeader (Z.of_nat j + 1)) (seq i (length objects))).
Proof.
  intros i w Hnone. revert i w.
  induction objects as [|object objects IH]; intros i w; [done|].
  cbn [range length seq map]. unfold bind at 1 2. simpl.
  by rewrite expression_loop_nothing, IH.
Qed.

(** X12. In the normal mode one header is printed for every object of the
    object file, numbered from 1 in the order of the file, whatever the
    expressions do.  With an expression file without any expression the
    headers are all that is printed, and nothing is compiled or evaluated;
    with an object file without any document nothing is printed at all. *)
Theorem normal_mode_prints_one_header_per_object fuel args objectFile expressionFile
    paramsFile rest objectData objects expressionData paramsData params env w :
  filterArgs args false [] = (false, objectFile :: expressionFile :: paramsFile :: rest) ->
  loadFile objectFile = Ok objectData ->
  parseYAMLDocuments fuel objectData = Some (Ok objects) ->
  loadFile expressionFile = Ok expressionData ->
  loadFile paramsFile = Ok paramsData ->
  parseSingleYAMLDocument paramsData = Ok params ->
  cel_NewEnv = Ok env ->
  List.filter isObjectHeader (trace (main fuel args w)) = objectHeaders (length objects) /\
  (nonEmpty (splitExpressions expressionData) = [] ->
     main fuel args w = (Some Returned, w, objectHeaders (length objects))) /\
  (objects = [] -> main fuel args w = (Some Returned, w, [])).
Proof.
  intros Hargs Hobj Hparse Hexpr Hparams Hsingle Henv.
  rewrite (main_loaded _ _ _ _ _ _ _ _ _ _ _ Hargs Hobj Hparse Hexpr Hparams), Hsingle, Henv.
  cbv zeta. unfold evaluationMatrix, objectHeaders. split; [|split].
  - rewrite trace_bind, List.filter_app, object_loop_headers. simpl. by rewrite app_nil_r.
  - intros Hnone. unfold bind at 1. rewrite object_loop_nothing by done. simpl.
    by rewrite app_nil_r.
  - by intros ->.
Qed.

(** ** The content line *)

Lemma substring_0_length n : forall s,
  String.length (substring 0 n s) = Nat.min n (String.length s).
Proof.
  induction n as [|n IH]; intros [|c s]; simpl; try done. by rewrite IH.
Qed.

Lemma substring_0_all n : forall s, String.length s <= n -> substring 0 n s = s.
Proof.
  induction n as [|n IH]; intros [|c s] Hlen; simpl in *; try done; [lia|].
  rewrite IH; [done | lia].
Qed.

(** X13. [min] returns the smaller of its two arguments, so the bound of the
    slice of the content line never passes the end of the expression: the
    slice does not panic.  The content line shows the first 50 bytes of the
    expression, or all of it when it has fewer, and always ends with three
    dots, also when nothing was cut. *)
Theorem content_is_a_bounded_prefix expr :
  let n := Nat.min 50 (String.length expr) in
  (forall a b, min a b = Z.min a b) /\
  (0 <= min 50 (Z.of_nat (String.length expr)) <= Z.of_nat (String.length expr))%Z /\
  contentOf expr = substring 0 n expr +:+ "..." /\
  expr = substring 0 n expr +:+ string_drop n expr /\
  String.length (contentOf expr) = n + 3 /\
  (String.length expr <= 50 -> contentOf expr = expr +:+ "...").
Proof.
  intros n.
  assert (forall a b, min a b = Z.min a b) as Hmin.
  { intros a b. unfold min. destruct (Z.ltb_spec a b); lia. }
  assert (Z.to_nat (min 50 (Z.of_nat (String.length expr))) = n) as Hn.
  { rewrite Hmin. subst n. lia. }
  split; [done|]. split; [rewrite Hmin; lia|].
  unfold contentOf. rewrite Hn. split; [done|]. split; [by rewrite substring_string_drop|].
  split.
  - rewrite string_length_app, substring_0_length. change (String.length "...") with 3.
    unfold n. lia.
  - intros Hshort. rewrite substring_0_all; [done|]. subst n. lia.
Qed.

(** ** The exit status once the files are loaded *)

(** X14. Once the three files are loaded and the environment is created,
    the exit status depends on one thing only: in the benchmark mode, whether
    an expression fails to compile.  An evaluation that fails never changes
    it, in either mode: a benchmark that an evaluation error stopped still
    ends with a normal return; and in the normal mode an expression that
    fails to compile does not change it either. *)
Theorem exit_status_after_startup fuel args benchmarkMode objectFile expressionFile
    paramsFile rest objectData objects expressionData paramsData params env w :
  filterArgs args false [] = (benchmarkMode, objectFile :: expressionFile :: paramsFile :: rest) ->
  loadFile objectFile = Ok objectData ->
  parseYAMLDocuments fuel objectData = Some (Ok objects) ->
  loadFile expressionFile = Ok expressionData ->
  loadFile paramsFile = Ok paramsData ->
  parseSingleYAMLDocument paramsData = Ok params ->
  cel_NewEnv = Ok env ->
  value (main fuel args w)
  = match (if benchmarkMode then failingIndex env 0 (splitExpressions expressionData)
           else None) with
    | Some _ => Some (Exited 1)
    | None => Some Returned
    end.
Proof.
  intros Hargs Hobj Hparse Hexpr Hparams Hsingle Henv.
  rewrite (main_loaded _ _ _ _ _ _ _ _ _ _ _ Hargs Hobj Hparse Hexpr Hparams), Hsingle, Henv.
  cbv zeta. destruct benchmarkMode; [|by rewrite value_bind].
  rewrite value_bind. unfold compileExpressions.
  destruct (failingIndex env 0 (splitExpressions expressionData)) as [k|] eqn:Hk.
  - destruct (failingIndex_Some _ _ _ Hk)
      as (before & expr & after & err & Hsplit & _ & Hbefore & Hfail).
    destruct (compileExpressions_loop_stop env before expr after err [] w Hbefore Hfail)
      as (new & t & _ & Hstop).
    rewrite Hsplit, Hstop. reflexivity.
  - apply failingIndex_None in Hk.
    destruct (compileExpressions_loop_ok env _ [] w Hk) as (programs & t & Hrun & _).
    rewrite Hrun. run_simpl. by rewrite value_bind.
Qed.

(** ** The shape of the output of the normal mode *)

(** X15. The shape of the output of the normal mode.  For every object, in
    the order of the file, the header of the object is followed by one cell
    for every expression that is not empty, in the order of the file.  In a
    cell each step is made only if the step before it succeeded (compile, make
    the program, evaluate), and the cell ends with one line: the error of the
    step that failed, or the result of the evaluation.  Issues of a
    compilation whose error is nil do not stop the cell. *)
Theorem normal_mode_output_shape fuel args objectFile expressionFile paramsFile rest
    objectData objects expressionData paramsData params env w :
  filterArgs args false [] = (false, objectFile :: expressionFile :: paramsFile :: rest) ->
  loadFile objectFile = Ok objectData ->
  parseYAMLDocuments fuel objectData = Some (Ok objects) ->
  loadFile expressionFile = Ok expressionData ->
  loadFile paramsFile = Ok paramsData ->
  parseSingleYAMLDocument paramsData = Ok params ->
  cel_NewEnv = Ok env ->
  matrixOf env params (splitExpressions expressionData) 0 objects (trace (main fuel args w)).
Proof.
  intros Hargs Hobj Hparse Hexpr Hparams Hsingle Henv.
  rewrite (main_loaded _ _ _ _ _ _ _ _ _ _ _ Hargs Hobj Hparse Hexpr Hparams), Hsingle, Henv.
  cbv zeta. rewrite trace_bind. run_simpl. rewrite app_nil_r. apply object_loop_shape.
Qed.

(** ** The durations of a benchmark under a clock that does not go back *)

Lemma readings_app t1 t2 : readings (t1 ++ t2) = readings t1 ++ readings t2.
Proof. induction t1 as [|[] t1 IH]; simpl; by rewrite ?IH. Qed.

Lemma readings_evals t : Forall (fun e => isEval e = true) t -> readings t = [].
Proof. induction 1 as [|[] t He _ IH]; simpl in *; done. Qed.

Lemma readings_report t : Forall (fun e => isReportLine e = true) t -> readings t = [].
Proof. induction 1 as [|[] t He _ IH]; simpl in *; done. Qed.

Lemma ascending_app l1 : forall a b c l2,
  ascending a l1 b -> ascending b l2 c -> ascending a (l1 ++ l2) c.
Proof.
  induction l1 as [|x l1 IH]; intros a b c l2 H1 H2; simpl in *.
  - destruct l2 as [|y l2]; simpl in *; [lia|]. split; [lia | tauto].
  - split; [tauto|]. apply IH with b; tauto.
Qed.

Lemma round_evals program params (objects : list Document) round :
  Forall2 (goodEvalOf program params) objects round -> Forall (fun e => isEval e = true) round.
Proof. induction 1 as [|object e objs round [out ->] _ IH]; by constructor. Qed.

Lemma roundsOf_evals program params objects n evals :
  roundsOf program params objects n evals -> Forall (fun e => isEval e = true) evals.
Proof.
  intros (rounds & _ & -> & Hrounds). apply Forall_concat.
  eapply Forall_impl; [apply Hrounds|]. intros round Hround. by eapply round_evals.
Qed.

Lemma readings_blocks objects params programs blocks :
  Forall2 (blockOf objects params) programs blocks ->
  readings (concat (map blockTrace blocks))
  = concat (map (fun b => [blockStart b; blockEnd b]) blocks).
Proof.
  induction 1 as [|program b programs blocks Hb _ IH]; [done|].
  simpl. rewrite !readings_app, IH. f_equal.
  by rewrite (readings_evals _ (roundsOf_evals _ _ _ _ _ Hb)).
Qed.

Lemma ascending_blocks blocks : forall c t1 c',
  ascending c (concat (map (fun b => [blockStart b; blockEnd b]) blocks) ++ [t1]) c' ->
  Forall (fun b => (c <= blockStart b <= blockEnd b)%Z /\ (blockEnd b <= t1)%Z) blocks /\
  (0 <= sumDurations (map measured blocks) <= t1 - c)%Z.
Proof.
  induction blocks as [|b blocks IH]; intros c t1 c' Hup; simpl in *.
  - split; [done | lia].
  - destruct Hup as (Hstart & Hend & Hup). destruct (IH _ _ _ Hup) as [Hblocks Hsum].
    split; [|lia]. constructor; [lia|].
    eapply Forall_impl; [apply Hblocks|]. intros b' Hb'. simpl in Hb'. lia.
Qed.

Section Clock.
Variable clock : World -> Z.
Hypothesis clock_Now : forall w, (clock w <= (time_Now w).1 <= clock (time_Now w).2)%Z.
Hypothesis clock_Eval : forall program object params w,
  (clock w <= clock (program_Eval program object params w).2)%Z.

Lemma timely_ret {A} (a : A) : timely clock (ret a).
Proof. intros w. unfold ret. run_simpl. simpl. lia. Qed.

Lemma timely_emit e : readings [e] = [] -> timely clock (emit e).
Proof. intros He w. rewrite emit_run. run_simpl. rewrite He. simpl. lia. Qed.

Lemma timely_bind {A B} (m : M A) (k : A -> M B) :
  timely clock m -> (forall a, timely clock (k a)) -> timely clock (bind m k).
Proof.
  intros Hm Hk w. rewrite trace_bind, world_bind, readings_app.
  eapply ascending_app; [apply Hm | apply Hk].
Qed.

Lemma timely_call_Eval program object params : timely clock (call_Eval program object params).
Proof. intros w. rewrite call_Eval_run. run_simpl. simpl. apply clock_Eval. Qed.

Lemma timely_call_Now : timely clock call_Now.
Proof. intros w. rewrite call_Now_run. run_simpl. simpl. apply clock_Now. Qed.

Lemma timely_time_Since t : timely clock (time_Since t).
Proof. intros w. rewrite time_Since_run. run_simpl. simpl. apply clock_Now. Qed.

Lemma timely_range {A} (body : nat -> A -> M unit) xs :
  (forall j x, timely clock (body j x)) -> forall i, timely clock (range i xs body).
Proof.
  intros Hbody. induction xs as [|x xs IH]; intros i; simpl; [apply timely_ret|].
  apply timely_bind; [apply Hbody | intros _; apply IH].
Qed.

Lemma timely_times (body : M unit) n : timely clock body -> timely clock (times n body).
Proof.
  intros Hbody. induction n as [|n IH]; simpl; [apply timely_ret|].
  apply timely_bind; [done | by intros _].
Qed.

Lemma timely_rangeUntil {A} (body : A -> M Flow) xs :
  (forall x, timely clock (body x)) -> timely clock (rangeUntil xs body).
Proof.
  intros Hbody. induction xs as [|x xs IH]; simpl; [apply timely_ret|].
  apply timely_bind; [apply Hbody | intros []; [done | apply timely_ret]].
Qed.

Lemma timely_timesUntil (body : M Flow) n : timely clock body -> timely clock (timesUntil n body).
Proof.
  intros Hbody. induction n as [|n IH]; simpl; [apply timely_ret|].
  apply timely_bind; [done | intros []; [done | apply timely_ret]].
Qed.

Lemma timely_timedPhase objects params programs : forall i stats,
  timely clock (timedPhase objects params i programs stats).
Proof.
  induction programs as [|program programs IH]; intros i stats; cbn [timedPhase].
  - apply timely_ret.
  - apply timely_bind; [apply timely_call_Now | intros exprStart].
    apply timely_bind.
    + apply timely_timesUntil, timely_rangeUntil. intros object.
      apply timely_bind; [apply timely_call_Eval | intros [out [e|]]].
      * apply timely_bind; [by apply timely_emit | intros _; apply timely_ret].
      * apply timely_ret.
    + intros []; [|apply timely_ret].
      apply timely_bind; [apply timely_time_Since | intros d; apply IH].
Qed.

Lemma timely_runBenchmark objects programs params expressions :
  timely clock (runBenchmark objects programs params expressions).
Proof.
  unfold runBenchmark.
  apply timely_bind; [by apply timely_emit | intros _].
  apply timely_bind; [by apply timely_emit | intros _].
  apply timely_bind; [|intros _].
  { apply timely_times, timely_range. intros _ object. apply timely_range. intros _ program.
    apply timely_bind; [apply timely_call_Eval | intros _; apply timely_ret]. }
  apply timely_bind; [by apply timely_emit | intros _].
  apply timely_bind; [apply timely_call_Now | intros startTime].
  apply timely_bind; [apply timely_timedPhase | intros [stats|]]; [|apply timely_ret].
  apply timely_bind; [apply timely_time_Since | intros d].
  intros w. rewrite report_run. run_simpl.
  rewrite (readings_report _ (reportLines_are_report_lines _ _ _)). simpl. lia.
Qed.

(** X16. Under a clock that does not go back (neither between two readings
    nor during an evaluation), the readings of a benchmark never go down.  In
    a benchmark that completes, the time reported for an expression is
    therefore never negative and never above the total duration, and the
    times of all the expressions together are at most the total duration. *)
Theorem durations_fit_in_the_total_duration objects programs params expressions w r w' t :
  runBenchmark objects programs params expressions w = (r, w', t) ->
  ascending (clock w) (readings t) (clock w') /\
  ((forall n err, ~ In (PrintBenchmarkError n err) t) ->
   exists warm t0 blocks t1,
     t = [PrintBenchmarkBanner; PrintWarmingUp] ++ warm
         ++ [PrintRunningBenchmark; ReadClock t0]
         ++ concat (map blockTrace blocks)
         ++ ReadClock t1 :: reportLines expressions (map measured blocks) (t1 - t0) /\
     length blocks = length programs /\
     Forall (fun b => (t0 <= blockStart b <= blockEnd b)%Z /\ (blockEnd b <= t1)%Z) blocks /\
     (0 <= sumDurations (map measured blocks) <= t1 - t0)%Z /\
     (forall d, In (PrintTotalTime d) t -> (0 <= d <= t1 - t0)%Z)).
Proof.
  intros Hrun.
  assert (ascending (clock w) (readings t) (clock w')) as Hup.
  { pose proof (timely_runBenchmark objects programs params expressions w) as Hup.
    by rewrite Hrun in Hup. }
  split; [done|]. intros Hquiet.
  destruct (runBenchmark_completed _ _ _ _ _ _ _ _ Hrun Hquiet)
    as (warm & t0 & blocks & t1 & Hwarm & _ & Hblocks & ->).
  exists warm, t0, blocks, t1. split; [done|].
  split; [symmetry; by eapply Forall2_length|].
  rewrite !readings_app, (readings_evals _ Hwarm) in Hup. simpl in Hup.
  rewrite (readings_blocks _ _ _ _ Hblocks) in Hup.
  rewrite (readings_report _ (reportLines_are_report_lines _ _ _)) in Hup.
  destruct Hup as [_ Hup]. apply ascending_blocks in Hup as [Hin Hsum].
  split; [done|]. split; [done|].
  intros d Hd. eapply In_completed in Hd; [|done..].
  apply In_reportLines in Hd as [(i & stat & Hstat & Hd)|Hd].
  - rewrite list_lookup_fmap in Hstat. destruct (blocks !! i) as [b|] eqn:Hb; [|done].
    simpl in Hstat. simplify_eq. rewrite expressionLines_measured in Hd.
    assert (d = (blockEnd b - blockStart b)%Z) as ->.
    { destruct Hd as [Hd|Hd]; [done|]. apply in_app_or in Hd as [Hd|Hd].
      - by destruct (expressions !! i); [destruct Hd as [Hd|[]]|].
      - simpl in Hd. destruct Hd as [Hd|[Hd|[Hd|[Hd|[]]]]]; try done. by simplify_eq. }
    rewrite List.Forall_forall in Hin.
    apply list_elem_of_lookup_2, list_elem_of_In, Hin in Hb. lia.
  - simpl in Hd. by repeat (destruct Hd as [Hd|Hd]; [done|]).
Qed.

End Clock.

(** ** The number of evaluations of a benchmark *)

Lemma filter_all {A} (f : A -> bool) l : Forall (fun x => f x = true) l -> List.filter f l = l.
Proof. induction 1 as [|x l Hx _ IH]; simpl; [done|]. by rewrite Hx, IH. Qed.

Lemma block_evals_count params (objects : list Document) n programs (blocks : list Block) :
  Forall2 (fun program b => roundsOf program params objects n (blockEvals b)) programs blocks ->
  length (List.filter isEval (concat (map blockTrace blocks)))
  = length programs * (n * length objects).
Proof.
  induction 1 as [|program b programs blocks Hb _ IH]; [done|].
  cbn [map concat length]. rewrite List.filter_app, length_app, IH. unfold blockTrace.
  cbn [List.filter isEval]. rewrite List.filter_app, length_app.
  rewrite (filter_all _ _ (roundsOf_evals _ _ _ _ _ Hb)), (roundsOf_length _ _ _ _ _ Hb).
  simpl. lia.
Qed.

(** X17. A benchmark that completes evaluates every program on every object
    10 times to warm up and 1024 * 1024 times in the timed phase: with [K]
    objects and [P] programs it makes (10 + 1024 * 1024) * K * P evaluations
    (while it reports 1024 * 1024 for each program). *)
Theorem completed_benchmark_evaluation_count objects programs params expressions w r w' t :
  runBenchmark objects programs params expressions w = (r, w', t) ->
  (forall n err, ~ In (PrintBenchmarkError n err) t) ->
  Z.of_nat (length (List.filter isEval t))
  = ((10 + iterations) * Z.of_nat (length objects) * Z.of_nat (length programs))%Z.
Proof.
  intros Hrun Hquiet.
  destruct (runBenchmark_completed _ _ _ _ _ _ _ _ Hrun Hquiet)
    as (warm & t0 & blocks & t1 & Hwarm & Hlen & Hblocks & ->).
  assert (Z.of_nat (Z.to_nat iterations) = iterations) as Hn.
  { apply Z2Nat.id. unfold iterations. lia. }
  pose proof (block_evals_count params objects (Z.to_nat iterations) programs blocks Hblocks)
    as Hcount.
  revert Hn Hcount. generalize (Z.to_nat iterations). intros n Hn Hcount.
  rewrite !List.filter_app, !length_app, (filter_all _ _ Hwarm), Hlen, Hcount.
  cbn [List.filter isEval].
  rewrite (filter_none isEval (reportLines _ _ _)).
  - simpl. nia.
  - eapply Forall_impl; [apply reportLines_are_report_lines|]. intros e He. by destruct e.
Qed.

(** ** What is evaluated *)

Lemma leaves_range_In {A} P (body : nat -> A -> M unit) xs :
  (forall j x, In x xs -> leaves P (body j x)) -> forall i, leaves P (range i xs body).
Proof.
  induction xs as [|x xs IH]; intros Hbody i; simpl; [apply leaves_ret|].
  apply leaves_bind; [apply Hbody; by left | intros _; apply IH].
  intros j y Hy. apply Hbody. by right.
Qed.

Lemma leaves_rangeUntil_In {A} P (body : A -> M Flow) xs :
  (forall x, In x xs -> leaves P (body x)) -> leaves P (rangeUntil xs body).
Proof.
  induction xs as [|x xs IH]; intros Hbody; simpl; [apply leaves_ret|].
  apply leaves_bind; [apply Hbody; by left | intros []; [|apply leaves_ret]].
  apply IH. intros y Hy. apply Hbody. by right.
Qed.

Lemma runBenchmark_evaluations (P : Event -> Prop) objects programs params expressions :
  (forall e, isEval e = false -> P e) ->
  (forall program object answer,
     In program programs -> In object objects -> P (CallEval program object params answer)) ->
  leaves P (runBenchmark objects programs params expressions).
Proof.
  intros Hother Heval. unfold runBenchmark.
  apply leaves_bind; [by apply leaves_emit, Hother | intros _].
  apply leaves_bind; [by apply leaves_emit, Hother | intros _].
  apply leaves_bind; [|intros _].
  { apply leaves_times, leaves_range_In. intros _ object Hobject.
    apply leaves_range_In. intros _ program Hprogram.
    apply leaves_bind; [|intros _; apply leaves_ret].
    apply leaves_call_Eval_any. intros answer. by apply Heval. }
  apply leaves_bind; [by apply leaves_emit, Hother | intros _].
  apply leaves_bind; [apply leaves_call_Now_any; intros; by apply Hother | intros startTime].
  apply leaves_bind; [|intros [stats|]]; [| |apply leaves_ret].
  - assert (forall program, In program programs -> In program programs) as Hsub by done.
    revert Hsub. generalize 0 (make_stats (length programs)).
    generalize programs at 1 3 as todo.
    induction todo as [|program todo IH]; intros i stats Hsub; cbn [timedPhase].
    + apply leaves_ret.
    + apply leaves_bind; [apply leaves_call_Now_any; intros; by apply Hother | intros exprStart].
      apply leaves_bind.
      * apply leaves_timesUntil, leaves_rangeUntil_In. intros object Hobject.
        apply leaves_bind; [|intros [out [e|]]].
        -- apply leaves_call_Eval_any. intros answer. apply Heval; [|done]. apply Hsub. by left.
        -- apply leaves_bind; [by apply leaves_emit, Hother | intros _; apply leaves_ret].
        -- apply leaves_ret.
      * intros []; [|apply leaves_ret].
        apply leaves_bind; [apply leaves_time_Since_any; intros; by apply Hother | intros d].
        apply IH. intros p Hp. apply Hsub. by right.
  - apply leaves_bind; [apply leaves_time_Since_any; intros; by apply Hother | intros d].
    intros w. rewrite report_run. simpl.
    eapply Forall_impl; [apply reportLines_are_report_lines|].
    intros e He. apply Hother. by destruct e.
Qed.

Lemma cellOf_fromTheFiles env params objects expressions object cell t :
  cellOf env params object cell t ->
  In cell.2 expressions -> cell.2 <> "" -> In object objects ->
  Forall (fromTheFiles env params objects expressions) t.
Proof.
  intros (ast & issues & Hcompile & Hcell) Hexpr Hne Hobject.
  assert (forall program, (forall c, issues <> Some (Some c)) ->
            env_Program env ast = Ok program ->
            exists expr, In expr expressions /\ expr <> "" /\ compiledFrom env expr program)
    as Hprogram.
  { intros program Hissues Hp. exists cell.2. split; [done|]. split; [done|].
    by exists ast, issues. }
  destruct issues as [[cause|]|].
  - subst t. repeat constructor.
  - destruct (env_Program env ast) as [program|err] eqn:Hp.
    + destruct Hcell as [w0 ->].
      do 3 (apply List.Forall_cons; [exact I|]).
      apply List.Forall_cons; [by repeat split; try apply Hprogram|].
      apply List.Forall_cons; [|apply List.Forall_nil].
      by destruct (program_Eval program object params w0).1 as [out [e|]].
    + subst t. repeat constructor.
  - destruct (env_Program env ast) as [program|err] eqn:Hp.
    + destruct Hcell as [w0 ->].
      do 3 (apply List.Forall_cons; [exact I|]).
      apply List.Forall_cons; [by repeat split; try apply Hprogram|].
      apply List.Forall_cons; [|apply List.Forall_nil].
      by destruct (program_Eval program object params w0).1 as [out [e|]].
    + subst t. repeat constructor.
Qed.

(** X18. Whatever [main] evaluates comes from the three files: every
    evaluation, in either mode and in the warm-up as in the timed phase, is
    given a document of the object file, the first document of the params
    file, and a program made from an expression of the expression file that is
    not empty. *)
Theorem evaluations_use_the_files fuel args benchmarkMode objectFile expressionFile
    paramsFile rest objectData objects expressionData paramsData params env w :
  filterArgs args false [] = (benchmarkMode, objectFile :: expressionFile :: paramsFile :: rest) ->
  loadFile objectFile = Ok objectData ->
  parseYAMLDocuments fuel objectData = Some (Ok objects) ->
  loadFile expressionFile = Ok expressionData ->
  loadFile paramsFile = Ok paramsData ->
  parseSingleYAMLDocument paramsData = Ok params ->
  cel_NewEnv = Ok env ->
  Forall (fromTheFiles env params objects (splitExpressions expressionData))
         (trace (main fuel args w)).
Proof.
  intros Hargs Hobj Hparse Hexpr Hparams Hsingle Henv.
  rewrite (main_loaded _ _ _ _ _ _ _ _ _ _ _ Hargs Hobj Hparse Hexpr Hparams), Hsingle, Henv.
  cbv zeta. set (expressions := splitExpressions expressionData).
  destruct benchmarkMode.
  - rewrite trace_bind. apply Forall_app. split.
    + eapply Forall_impl; [apply compileExpressions_loop_calls|]. intros e He. by destruct e.
    + destruct (compileExpressions env expressions w) as [[[programs|err] w1] compiled] eqn:Hrun;
        run_simpl; [|by repeat constructor].
      rewrite trace_bind. run_simpl. rewrite app_nil_r.
      assert (Forall2 (compiledFrom env) (nonEmpty expressions) programs) as Hprograms.
      { destruct (first_failure env expressions)
          as [Hall|(before & expr & after & err & Hsplit & Hbefore & Hfail)].
        - destruct (compileExpressions_loop_ok env expressions [] w Hall)
            as (new & t & Hok & Hnew).
          unfold compileExpressions in Hrun. rewrite Hrun in Hok. by simplify_eq.
        - destruct (compileExpressions_loop_stop env before expr after err [] w Hbefore Hfail)
            as (new & t & _ & Hstop).
          unfold compileExpressions in Hrun. rewrite Hsplit, Hstop in Hrun. done. }
      apply runBenchmark_evaluations; [intros e He; by destruct e|].
      intros program object answer Hprogram Hobject. split; [done|]. split; [done|].
      apply list_elem_of_In, list_elem_of_lookup_1 in Hprogram as [i Hi].
      destruct (Forall2_lookup_r _ _ _ _ _ Hprograms Hi) as (expr & Hexpr' & Hcompiled).
      exists expr. apply list_elem_of_lookup_2, list_elem_of_In in Hexpr'.
      unfold nonEmpty in Hexpr'. apply List.filter_In in Hexpr' as [Hin Hne].
      split; [done|]. split; [|done]. intros ->. done.
  - rewrite trace_bind. run_simpl. rewrite app_nil_r. unfold evaluationMatrix.
    apply leaves_range_In. intros objIdx object Hobject.
    apply leaves_bind; [by apply leaves_emit | intros _].
    apply leaves_range_In. intros exprIdx expr Hin w0.
    destruct (String.eqb_spec expr "") as [->|Hne]; [by rewrite evaluateCell_empty|].
    eapply cellOf_fromTheFiles; [by apply evaluateCell_cell | done..].
Qed.

(** ** Strings as lists of bytes *)

Lemma bytesOf_inj s1 s2 : list_ascii_of_string s1 = list_ascii_of_string s2 -> s1 = s2.
Proof.
  intros H. rewrite <- (string_of_list_ascii_of_string s1), <- (string_of_list_ascii_of_string s2).
  by rewrite H.
Qed.

Lemma bytesOf_app s1 s2 : list_ascii_of_string (s1 +:+ s2) = list_ascii_of_string s1 ++ list_ascii_of_string s2.
Proof. induction s1 as [|c s1 IH]; simpl; [done|]. by rewrite <- IH. Qed.

Lemma bytesOf_length s : length (list_ascii_of_string s) = String.length s.
Proof. induction s as [|c s IH]; simpl; [done|]. by rewrite IH. Qed.

Lemma bytesOf_string_drop n : forall s, list_ascii_of_string (string_drop n s) = drop n (list_ascii_of_string s).
Proof. induction n as [|n IH]; intros [|c s]; simpl; try done. Qed.

Lemma bytesOf_substring k : forall p s, list_ascii_of_string (substring p k s) = take k (drop p (list_ascii_of_string s)).
Proof.
  induction k as [|k IHk]; intros p s.
  - revert s. induction p as [|p IHp]; intros [|c s]; simpl; rewrite ?IHp; done.
  - revert s. induction p as [|p IHp]; intros [|c s]; simpl; rewrite ?IHp; try done.
    f_equal. apply (IHk 0).
Qed.

Lemma bytesOf_rev_app s : forall acc,
  list_ascii_of_string (String.rev_app s acc) = List.rev (list_ascii_of_string s) ++ list_ascii_of_string acc.
Proof.
  induction s as [|c s IH]; intros acc; simpl; [done|].
  rewrite IH. simpl. by rewrite <- app_assoc.
Qed.

Lemma bytesOf_rev s : list_ascii_of_string (String.rev s) = List.rev (list_ascii_of_string s).
Proof. unfold String.rev. rewrite bytesOf_rev_app. simpl. by rewrite app_nil_r. Qed.

Lemma string_rev_involutive s : String.rev (String.rev s) = s.
Proof. apply bytesOf_inj. by rewrite !bytesOf_rev, List.rev_involutive. Qed.

Lemma prefix_bytes s1 s2 :
  String.prefix s1 s2 = true <-> exists rest, list_ascii_of_string s2 = list_ascii_of_string s1 ++ rest.
Proof.
  revert s2. induction s1 as [|c s1 IH]; intros s2; simpl.
  - split; [intros _; by exists (list_ascii_of_string s2) | by destruct s2].
  - destruct s2 as [|c2 s2]; simpl.
    + split; [done | by intros [rest ?]].
    + destruct (ascii_dec c c2) as [->|Hne].
      * rewrite IH. split; intros [rest Hrest]; exists rest; [by rewrite Hrest | by simplify_eq].
      * split; [done | intros [rest ?]; by simplify_eq].
Qed.

(** ** TrimSpace *)

Lemma string_drop_length n : forall s, String.length (string_drop n s) = String.length s - n.
Proof. induction n as [|n IH]; intros [|c s]; simpl; try done. Qed.

Lemma spaceWidth_positive encs s n :
  Forall (fun enc => enc <> "") encs -> spaceWidth encs s = Some n -> 0 < n /\ s <> "".
Proof.
  intros Hencs. unfold spaceWidth. destruct s as [|c s]; [done|].
  destruct (asciiSpace c); [intros [= <-]; split; [lia | done]|].
  destruct (List.find _ encs) as [enc|] eqn:Hfind; [|done]. simpl. intros [= <-].
  apply List.find_some in Hfind as [Hin _]. rewrite List.Forall_forall in Hencs.
  apply Hencs in Hin. split; [|done]. destruct enc; [done | simpl; lia].
Qed.

Lemma trimLeading_drop encs fuel : forall s, exists n, trimLeading encs fuel s = string_drop n s.
Proof.
  induction fuel as [|fuel IH]; intros s; simpl; [by exists 0|].
  destruct (spaceWidth encs s) as [n|]; [|by exists 0].
  destruct (IH (string_drop n s)) as [m ->]. exists (n + m). by rewrite string_drop_add.
Qed.

Lemma trimLeading_trimmed encs fuel : forall s,
  Forall (fun enc => enc <> "") encs -> String.length s <= fuel ->
  spaceWidth encs (trimLeading encs fuel s) = None.
Proof.
  induction fuel as [|fuel IH]; intros s Hencs Hlen; simpl.
  - by destruct s; [|simpl in Hlen; lia].
  - destruct (spaceWidth encs s) as [n|] eqn:Hs; [|done].
    apply IH; [done|]. destruct (spaceWidth_positive _ _ _ Hencs Hs) as [Hn Hne].
    rewrite string_drop_length. destruct s; [done | simpl in *; lia].
Qed.

Lemma trimLeading_id encs fuel s : spaceWidth encs s = None -> trimLeading encs fuel s = s.
Proof. intros Hs. destruct fuel; simpl; [done|]. by rewrite Hs. Qed.

Lemma spaceWidth_prefix encs s j :
  spaceWidth encs s = None -> spaceWidth encs (substring 0 j s) = None.
Proof.
  destruct s as [|c s]; [by destruct j|]. destruct j as [|j]; [done|].
  change (substring 0 (S j) (String c s)) with (String c (substring 0 j s)).
  unfold spaceWidth. destruct (asciiSpace c); [done|].
  destruct (List.find _ encs) as [enc|] eqn:Hfind; [done|]. intros _.
  destruct (List.find (fun enc => String.prefix enc (String c (substring 0 j s))) encs)
    as [enc|] eqn:Hshort; [|done].
  apply List.find_some in Hshort as [Hin Hprefix].
  eapply List.find_none in Hfind; [|done]. cbv beta in Hfind.
  apply prefix_bytes in Hprefix as [rest Hrest].
  assert (String.prefix enc (String c s) = true) as Hlong; [|congruence].
  apply prefix_bytes.
  change (String c (substring 0 j s)) with (substring 0 (S j) (String c s)) in Hrest.
  rewrite bytesOf_substring in Hrest. simpl drop in Hrest.
  exists (rest ++ drop (S j) (list_ascii_of_string (String c s))).
  by rewrite app_assoc, <- Hrest, take_drop.
Qed.

Lemma unicodeSpaces_nonempty : Forall (fun enc => enc <> "") unicodeSpaces.
Proof. unfold unicodeSpaces. by repeat constructor. Qed.

Lemma reversed_nonempty : Forall (fun enc => enc <> "") (map String.rev unicodeSpaces).
Proof. unfold unicodeSpaces. by repeat constructor. Qed.

Lemma string_rev_length s : String.length (String.rev s) = String.length s.
Proof. by rewrite <- !bytesOf_length, bytesOf_rev, length_rev. Qed.

Lemma TrimLeft_trimmed s : spaceWidth unicodeSpaces (TrimLeft s) = None.
Proof. apply trimLeading_trimmed; [apply unicodeSpaces_nonempty | done]. Qed.

Lemma TrimRight_prefix s : exists j, TrimRight s = substring 0 j s.
Proof.
  unfold TrimRight.
  destruct (trimLeading_drop (map String.rev unicodeSpaces) (String.length s) (String.rev s))
    as [n ->].
  exists (String.length s - n). apply bytesOf_inj.
  rewrite bytesOf_rev, bytesOf_string_drop, bytesOf_rev, bytesOf_substring. simpl drop.
  rewrite List.skipn_rev, List.rev_involutive. by rewrite bytesOf_length.
Qed.

Lemma TrimRight_id s :
  spaceWidth (map String.rev unicodeSpaces) (String.rev s) = None -> TrimRight s = s.
Proof. intros Hs. unfold TrimRight. by rewrite trimLeading_id, string_rev_involutive. Qed.

Lemma TrimRight_trimmed s :
  spaceWidth (map String.rev unicodeSpaces) (String.rev (TrimRight s)) = None.
Proof.
  unfold TrimRight. rewrite string_rev_involutive.
  apply trimLeading_trimmed; [apply reversed_nonempty | by rewrite string_rev_length].
Qed.

Lemma TrimSpace_idempotent s : TrimSpace (TrimSpace s) = TrimSpace s.
Proof.
  unfold TrimSpace.
  assert (TrimLeft (TrimRight (TrimLeft s)) = TrimRight (TrimLeft s)) as ->.
  { destruct (TrimRight_prefix (TrimLeft s)) as [j ->].
    apply trimLeading_id, spaceWidth_prefix, TrimLeft_trimmed. }
  apply TrimRight_id, TrimRight_trimmed.
Qed.

(** ** The separator *)

Lemma occurs_bytes sep s p :
  substring p (String.length sep) s = sep ->
  exists a b, list_ascii_of_string s = a ++ list_ascii_of_string sep ++ b /\ length a <= p.
Proof.
  intros Hsub. apply (f_equal list_ascii_of_string) in Hsub. rewrite bytesOf_substring in Hsub.
  exists (take p (list_ascii_of_string s)),
         (drop (String.length sep) (drop p (list_ascii_of_string s))).
  split; [|rewrite length_take; lia].
  by rewrite <- Hsub, !take_drop.
Qed.

Lemma bytes_occurs sep s a b :
  list_ascii_of_string s = a ++ list_ascii_of_string sep ++ b ->
  substring (length a) (String.length sep) s = sep.
Proof.
  intros Hs. apply bytesOf_inj. rewrite bytesOf_substring, Hs, drop_app_length.
  by rewrite <- bytesOf_length, take_app_length.
Qed.

Lemma Index_None sep s :
  sep <> "" ->
  Index s sep = None <->
  ~ exists a b, list_ascii_of_string s = a ++ list_ascii_of_string sep ++ b.
Proof.
  intros Hsep. unfold Index. split.
  - intros Hnone (a & b & Hs). apply bytes_occurs in Hs.
    by apply (index_correct3 0 (length a) sep s Hnone Hsep ltac:(lia)).
  - intros Hno. destruct (index 0 sep s) as [p|] eqn:Hp; [|done].
    apply index_correct1, occurs_bytes in Hp as (a & b & Hs & _). destruct Hno. by exists a, b.
Qed.

Lemma genSplit_no_separator sep fuel : forall s,
  sep <> "" -> String.length s <= fuel ->
  Forall (fun piece => Index piece sep = None) (genSplit fuel s sep).
Proof.
  induction fuel as [|fuel IH]; intros s Hsep Hlen; simpl.
  - destruct s; [|simpl in Hlen; lia]. repeat constructor. by destruct sep.
  - destruct (Index s sep) as [m|] eqn:Hm; [|by repeat constructor].
    constructor.
    + apply Index_None; [done|]. intros (a & b & Hpiece).
      rewrite bytesOf_substring, drop_0 in Hpiece.
      assert (length a < m) as Ha.
      { apply (f_equal length) in Hpiece. rewrite length_take, !length_app, bytesOf_length in Hpiece.
        destruct sep; [done | simpl in Hpiece; lia]. }
      apply (index_correct2 0 m sep s Hm (length a) ltac:(lia) Ha).
      apply (bytes_occurs sep s a (b ++ drop m (list_ascii_of_string s))).
      rewrite <- (take_drop m (list_ascii_of_string s)) at 1. rewrite Hpiece.
      by rewrite <- !app_assoc.
    + apply IH; [done|]. rewrite string_drop_length.
      destruct sep; [done | simpl; lia].
Qed.

Lemma TrimSpace_infix s :
  exists a b, list_ascii_of_string s = a ++ list_ascii_of_string (TrimSpace s) ++ b.
Proof.
  unfold TrimSpace. destruct (TrimRight_prefix (TrimLeft s)) as [j ->].
  unfold TrimLeft. destruct (trimLeading_drop unicodeSpaces (String.length s) s) as [i ->].
  rewrite bytesOf_substring, bytesOf_string_drop, drop_0.
  exists (take i (list_ascii_of_string s)), (drop j (drop i (list_ascii_of_string s))).
  by rewrite !take_drop.
Qed.

Lemma TrimSpace_no_separator sep s : sep <> "" -> Index s sep = None -> Index (TrimSpace s) sep = None.
Proof.
  intros Hsep Hs. apply Index_None; [done|]. intros (a & b & Ht).
  apply (Index_None sep s Hsep) in Hs. destruct Hs.
  destruct (TrimSpace_infix s) as (a' & b' & ->). rewrite Ht.
  exists (a' ++ a), (b ++ b'). by rewrite <- !app_assoc.
Qed.

(** X19. What the expression file is cut into.  There is always at least
    one expression; no expression starts or ends with white space
    ([strings.TrimSpace] leaves it as it is); no expression holds the
    separator ["---"], so an expression with three dashes in a row cannot be
    written in the file; and white space around the content of the file
    changes nothing. *)
Theorem expressions_are_trimmed_and_hold_no_separator expressionData :
  splitExpressions expressionData <> [] /\
  (forall expr, In expr (splitExpressions expressionData) ->
     TrimSpace expr = expr /\ Index expr "---" = None) /\
  splitExpressions (TrimSpace expressionData) = splitExpressions expressionData.
Proof.
  rewrite !splitExpressions_map, TrimSpace_idempotent. split; [|split; [|done]].
  - unfold Split. by destruct (genSplit_cons (String.length (TrimSpace expressionData))
                                 (TrimSpace expressionData) "---") as (piece & pieces & ->).
  - intros expr (piece & <- & Hpiece)%in_map_iff. split; [apply TrimSpace_idempotent|].
    apply TrimSpace_no_separator; [done|].
    pose proof (genSplit_no_separator "---" (String.length (TrimSpace expressionData))
                  (TrimSpace expressionData) ltac:(done) ltac:(done)) as Hpieces.
    rewrite List.Forall_forall in Hpieces. by apply Hpieces.
Qed.

(** ** The warm-up *)

Lemma inputsOf_app t1 t2 : inputsOf (t1 ++ t2) = inputsOf t1 ++ inputsOf t2.
Proof. induction t1 as [|[] t1 IH]; simpl; by rewrite ?IH. Qed.

Lemma range_inputs {A} (f : A -> list (cel_Program * Document * Document))
    (body : nat -> A -> M unit) xs :
  (forall i x w, inputsOf (trace (body i x w)) = f x) ->
  forall i w, inputsOf (trace (range i xs body w)) = flat_map f xs.
Proof.
  intros Hbody. induction xs as [|x xs IH]; intros i w; [done|].
  cbn [range flat_map]. by rewrite trace_bind, inputsOf_app, Hbody, IH.
Qed.

Lemma times_inputs (X : list (cel_Program * Document * Document)) (body : M unit) :
  (forall w, inputsOf (trace (body w)) = X) ->
  forall n w, inputsOf (trace (times n body w)) = concat (replicate n X).
Proof.
  intros Hbody. induction n as [|n IH]; intros w; [done|].
  cbn [times replicate concat]. by rewrite trace_bind, inputsOf_app, Hbody, IH.
Qed.

(** X20. The warm-up makes 10 rounds; a round goes through the objects in
    the order of the file and, for each object, evaluates every program in
    order (the timed phase goes through the programs first).  An evaluation
    that fails in the warm-up stops nothing and prints nothing. *)
Theorem warm_up_evaluates_every_pair_ten_times objects programs params expressions w r w' t :
  runBenchmark objects programs params expressions w = (r, w', t) ->
  exists warm after,
    t = [PrintBenchmarkBanner; PrintWarmingUp] ++ warm ++ PrintRunningBenchmark :: after /\
    Forall (fun e => isEval e = true) warm /\
    inputsOf warm
    = concat (replicate 10
        (flat_map (fun object => map (fun program => (program, object, params)) programs)
                  objects)).
Proof.
  intros Hrun. apply (f_equal trace) in Hrun. run_simpl. subst t.
  unfold runBenchmark. rewrite 4!trace_bind, !emit_run. run_simpl.
  eexists (trace (warmUp objects programs params w)), _. split; [done|].
  split; [apply warmUp_trace|].
  unfold warmUp. apply times_inputs. intros w0. apply range_inputs. intros _ object w1.
  rewrite (range_inputs (fun program => [(program, object, params)])).
  - clear. induction programs as [|program programs IH]; [done|]. simpl. by rewrite IH.
  - intros _ program w2. by rewrite trace_bind, call_Eval_run, app_nil_r.
Qed.

End Properties.

(** * Runs with the sample collaborators *)

Section SampleRuns.
Local Existing Instance Sample.collaborators.

(** A program that does not start with ["!"] never answers with an error, so
    a benchmark of such programs completes. *)
Lemma sample_benchmark_completes (objects programs : list string) (params : string)
    (expressions : list string) (w : Z) :
  Forall (fun program => String.prefix "!" program = false) programs ->
  forall n err,
    ~ In (PrintBenchmarkError n err) (trace (runBenchmark objects programs params expressions w)).
Proof.
  intros Hprograms n err Hin.
  destruct (reported_error_is_genuine (C:=Sample.collaborators)
              objects programs params expressions w _ _ _ n err
              (run_eta _) Hin) as (program & object & out & w1 & Hprogram & Heval).
  rewrite List.Forall_forall in Hprograms. apply Hprograms in Hprogram.
  cbn in Heval. unfold Sample.eval in Heval. rewrite Hprogram in Heval. done.
Qed.

(** C8, on the stream of the three documents ["a"], ["b"], ["c"]. *)
Lemma parseSingleYAMLDocument_is_first_document_witness :
  parseSingleYAMLDocument "abc" = Ok "a" /\
  parseYAMLDocuments 10 "abc" = Some (Ok ["a"; "b"; "c"]) /\
  ["a"; "b"; "c"] !! 0 = Some "a".
Proof.
  split; [reflexivity|]. split; [reflexivity|].
  apply (parseSingleYAMLDocument_is_first_document (C:=Sample.collaborators)
           10 "abc" "a" ["a"; "b"; "c"]); reflexivity.
Defined.

(** C10, with the empty params file [empty.yaml]. *)
Lemma empty_params_file_is_fatal_witness :
  parseYAMLDocuments 10 "" = Some (Ok []) /\
  parseSingleYAMLDocument "" = Fail io_EOF /\
  main 10 ["objects.yaml"; "expressions.cel"; "empty.yaml"] 0%Z
  = (Some (Exited 1), 0%Z, [LogFatal "Failed to parse params YAML: " io_EOF]).
Proof.
  split; [reflexivity|].
  apply (empty_params_file_is_fatal (C:=Sample.collaborators) 10 ["objects.yaml"; "expressions.cel"; "empty.yaml"]
           false "objects.yaml" "expressions.cel" "empty.yaml" [] "abc" ["a"; "b"; "c"]
           Sample.expressionFile "" 10 0%Z); reflexivity.
Defined.

(** C2 as the code has it, on a batch whose third expression does not
    compile. *)
Lemma compileExpressions_stops_at_first_failure_witness :
  exists programs t,
    compileExpressions tt ["a==1"; ""] 0%Z = (Ok programs, 0%Z, t) /\
    compileExpressions tt (["a==1"; ""] ++ "?bad" :: ["b==2"]) 0%Z
    = (Fail (errorString "compilation failed: syntax error"), 0%Z,
       t ++ compileCalls tt "?bad").
Proof.
  apply (proj1 (compileExpressions_stops_at_first_failure (C:=Sample.collaborators)
           tt ["a==1"; ""] "?bad" ["b==2"] (errorString "compilation failed: syntax error") 0%Z
           ltac:(repeat constructor) eq_refl)).
Defined.

(** C2 as stated fails: two batches that fail at the indices 0 and 1 return
    the same error, so the index cannot be read off the error. *)
Lemma compileExpressions_error_carries_no_index :
  ~ exists indexOf : error -> nat,
      forall (expressions : list string) err (w w' : Z) t,
        compileExpressions tt expressions w = (Fail err, w', t) ->
        failingIndex tt 0 expressions = Some (indexOf err).
Proof.
  intros [indexOf Hindex].
  pose proof (Hindex ["?bad"] (errorString "compilation failed: syntax error") 0%Z 0%Z
                [CallCompile "?bad" ("?bad", Some (Some (errorString "syntax error")))]
                eq_refl) as H0.
  pose proof (Hindex ["ok"; "?bad"] (errorString "compilation failed: syntax error") 0%Z 0%Z
                [CallCompile "ok" ("ok", None); CallProgram "ok" (Ok "ok");
                 CallCompile "?bad" ("?bad", Some (Some (errorString "syntax error")))]
                eq_refl) as H1.
  cbn in H0, H1. congruence.
Qed.

(** The scenario of the benchmark whose expression fails on the second of
    three objects, from [main]: the error is the last thing printed, and
    [main] returns. *)
Example benchmark_scenario_error :
  value (main 10 ["--benchmark"; "objects.yaml"; "throws.cel"; "params.yaml"] 0%Z)
  = Some Returned /\
  List.skipn 34 (trace (main 10 ["--benchmark"; "objects.yaml"; "throws.cel"; "params.yaml"] 0%Z))
  = [PrintRunningBenchmark; ReadClock 30; ReadClock 30;
     CallEval "!object.k" "a" "p" ("!object.k", None);
     CallEval "!object.k" "b" "p" ("", Some (errorString "no such key"));
     PrintBenchmarkError 1 (errorString "no such key")].
Proof. vm_compute. split; reflexivity. Qed.

(** C4, with a program that fails on the second of three objects. *)
Lemma evaluation_error_stops_the_benchmark_witness :
  let r := runBenchmark ["a"; "b"; "c"] ["!object.k"] "p" ["!object.k"] 0%Z in
  exists before quiet,
    trace r = before ++ PrintRunningBenchmark
                :: quiet ++ [CallEval "!object.k" "b" "p" ("", Some (errorString "no such key"));
                             PrintBenchmarkError 1 (errorString "no such key")] /\
    Forall (fun e => isQuiet e = true) quiet /\
    Forall (fun e => isReportLine e = false) (trace r).
Proof.
  intros r.
  assert (exists before,
            trace r = before ++ PrintRunningBenchmark
                        :: [ReadClock 30; ReadClock 30;
                            CallEval "!object.k" "a" "p" ("!object.k", None);
                            CallEval "!object.k" "b" "p" ("", Some (errorString "no such key"));
                            PrintBenchmarkError 1 (errorString "no such key")])
    as [before Hsplit].
  { eexists (_ :: _ :: List.firstn 30 (List.skipn 2 (trace r))). vm_compute. reflexivity. }
  destruct (evaluation_error_stops_the_benchmark (C:=Sample.collaborators)
              ["a"; "b"; "c"] ["!object.k"] "p" ["!object.k"] 0%Z _ _ _
              before _ "!object.k" "b" "" (errorString "no such key")
              (run_eta r) Hsplit)
    as (k & quiet & Hk & Hafter & Hquiet & Hnone).
  { simpl. auto 10. }
  destruct k as [|k]; [|done].
  exists before, quiet. split; [|done]. rewrite Hsplit. by rewrite Hafter.
Defined.

(** With the program ["x"], which never fails, and any number of objects,
    the benchmark completes; the block of the program holds [1048576 * K]
    evaluations for [K] objects, and the count it reports is [1048576]
    whatever [K] is. *)
Lemma sample_benchmark_counts (objects : list string) :
  exists warm t0 b t1,
    trace (runBenchmark objects ["x"] "p" ["x"] 0%Z)
    = [PrintBenchmarkBanner; PrintWarmingUp] ++ warm
      ++ [PrintRunningBenchmark; ReadClock t0] ++ blockTrace b
      ++ ReadClock t1 :: reportLines ["x"] [measured b] (t1 - t0) /\
    Z.of_nat (length (blockEvals b)) = (1048576 * Z.of_nat (length objects))%Z /\
    forall n, In (PrintEvaluations n) (trace (runBenchmark objects ["x"] "p" ["x"] 0%Z)) ->
              n = 1048576%Z.
Proof.
  destruct (completed_benchmark_counts (C:=Sample.collaborators)
              objects ["x"] "p" ["x"] 0%Z _ _ _ (run_eta _))
    as (warm & t0 & blocks & t1 & Hblocks & Ht & Hevals & Hreported & _).
  { apply sample_benchmark_completes. repeat constructor. }
  apply Forall2_cons_inv_l in Hblocks as (b & blocks' & _ & Hnil & ->).
  apply Forall2_nil_inv_l in Hnil as ->.
  exists warm, t0, b, t1. split; [|split].
  - rewrite Ht. cbn [map concat]. rewrite app_nil_r. reflexivity.
  - apply Forall_cons in Hevals as [Hb _]. exact Hb.
  - exact Hreported.
Qed.

(** C1 fails on the code: the count recorded and reported for a program is
    the number of iterations, not multiplied by the number of objects.  With
    two objects the timed phase makes [1048576 * 2] evaluations of the
    program ["x"], with no object it makes none, and both runs report
    "Evaluations: 1048576". *)
Lemma reported_count_is_not_multiplied_by_the_objects :
  (exists warm t0 b t1,
     trace (runBenchmark ["a"; "b"] ["x"] "p" ["x"] 0%Z)
     = [PrintBenchmarkBanner; PrintWarmingUp] ++ warm
       ++ [PrintRunningBenchmark; ReadClock t0] ++ blockTrace b
       ++ ReadClock t1 :: reportLines ["x"] [measured b] (t1 - t0) /\
     Z.of_nat (length (blockEvals b)) = (1048576 * 2)%Z /\
     reportLines ["x"] [measured b] (t1 - t0)
     = [PrintExpressionNumber 1; PrintContent "x..."; PrintEvaluations 1048576;
        PrintTotalTime (blockEnd b - blockStart b);
        PrintAverageTime (Z.quot (blockEnd b - blockStart b) 1048576);
        PrintEvaluationsPerSecond 1048576 (t1 - t0);
        PrintSummaryBanner; PrintTotalDuration (t1 - t0);
        PrintTotalEvaluations 1048576; PrintOverallRate 1048576 (t1 - t0)]) /\
  (exists warm t0 b t1,
     trace (runBenchmark [] ["x"] "p" ["x"] 0%Z)
     = [PrintBenchmarkBanner; PrintWarmingUp] ++ warm
       ++ [PrintRunningBenchmark; ReadClock t0] ++ blockTrace b
       ++ ReadClock t1 :: reportLines ["x"] [measured b] (t1 - t0) /\
     Z.of_nat (length (blockEvals b)) = (1048576 * 0)%Z /\
     reportLines ["x"] [measured b] (t1 - t0)
     = [PrintExpressionNumber 1; PrintContent "x..."; PrintEvaluations 1048576;
        PrintTotalTime (blockEnd b - blockStart b);
        PrintAverageTime (Z.quot (blockEnd b - blockStart b) 1048576);
        PrintEvaluationsPerSecond 1048576 (t1 - t0);
        PrintSummaryBanner; PrintTotalDuration (t1 - t0);
        PrintTotalEvaluations 1048576; PrintOverallRate 1048576 (t1 - t0)]).
Proof.
  split.
  - destruct (sample_benchmark_counts ["a"; "b"]) as (warm & t0 & b & t1 & Ht & Hevals & _).
    exists warm, t0, b, t1. split; [exact Ht|]. split; [exact Hevals | reflexivity].
  - destruct (sample_benchmark_counts []) as (warm & t0 & b & t1 & Ht & Hevals & _).
    exists warm, t0, b, t1. split; [exact Ht|]. split; [exact Hevals | reflexivity].
Qed.

(** C6, with two objects and two programs. *)
Lemma rates_are_over_the_total_duration_witness :
  exists t0 t1 total,
    In (PrintOverallRate total (t1 - t0))
       (trace (runBenchmark ["a"; "b"] ["x"; "y"] "p" ["x"; "y"] 0%Z)) /\
    (forall count d,
       In (PrintOverallRate count d)
          (trace (runBenchmark ["a"; "b"] ["x"; "y"] "p" ["x"; "y"] 0%Z)) ->
       d = (t1 - t0)%Z /\ count = total) /\
    (forall count d,
       In (PrintEvaluationsPerSecond count d)
          (trace (runBenchmark ["a"; "b"] ["x"; "y"] "p" ["x"; "y"] 0%Z)) ->
       d = (t1 - t0)%Z).
Proof.
  pose proof (rates_are_over_the_total_duration (C:=Sample.collaborators)
                ["a"; "b"] ["x"; "y"] "p" ["x"; "y"] 0%Z _ _ _ (run_eta _)) as Hrates.
  specialize (Hrates ltac:(apply sample_benchmark_completes; repeat constructor)).
  revert Hrates. generalize (trace (runBenchmark ["a"; "b"] ["x"; "y"] "p" ["x"; "y"] 0%Z)).
  intros t (warm & t0 & blocks & t1 & _ & _ & _ & _ & Hrates & Hoverall & Hin & _).
  exists t0, t1, (sumEvals (map measured blocks)).
  split; [exact Hin|]. split; [exact Hoverall|].
  intros count d Hd. exact (proj1 (Hrates count d Hd)).
Defined.

(** C7, with one object and one program. *)
Lemma statistics_start_from_zero_witness :
  (forall i stat, make_stats 1 !! i = Some stat -> evalCount stat = 0%Z /\ duration stat = 0%Z) /\
  exists warm after,
    trace (runBenchmark ["a"] ["x"] "p" ["x"] 0%Z)
    = [PrintBenchmarkBanner; PrintWarmingUp] ++ warm ++ PrintRunningBenchmark :: after /\
    Forall (fun e => isEval e = true) warm /\ length warm = 10.
Proof.
  pose proof (statistics_start_from_zero (C:=Sample.collaborators)
                ["a"] ["x"] "p" ["x"] 0%Z _ _ _ (run_eta _)) as Hzero.
  revert Hzero. generalize (trace (runBenchmark ["a"] ["x"] "p" ["x"] 0%Z)).
  intros t (Hzero & warm & after & Ht & Hwarm & Hlen & _).
  split; [exact Hzero|].
  exists warm, after. split; [exact Ht|]. split; [exact Hwarm | exact Hlen].
Defined.

(** C9, with the expression file [leading.cel], whose first segment is
    empty: the only program is compiled from ["x > 0"] and its content line
    is the one of the empty expression. *)
Lemma content_line_is_taken_from_the_split_sequence_witness :
  splitExpressions ("---" +:+ lf +:+ "x > 0") = [""; "x > 0"] /\
  compileExpressions tt [""; "x > 0"] 0%Z
  = (Ok ["x > 0"], 0%Z, [CallCompile "x > 0" ("x > 0", None); CallProgram "x > 0" (Ok "x > 0")]) /\
  exists lines rest,
    trace (main 10 ["--benchmark"; "two.yaml"; "leading.cel"; "params.yaml"] 0%Z)
    = lines ++ PrintExpressionNumber 1 :: PrintContent "..."
               :: PrintEvaluations iterations :: rest.
Proof.
  assert (splitExpressions ("---" +:+ lf +:+ "x > 0") = [""; "x > 0"]) as Hexpressions
    by reflexivity.
  assert (compileExpressions tt (splitExpressions ("---" +:+ lf +:+ "x > 0")) 0%Z
          = (Ok ["x > 0"], 0%Z,
             [CallCompile "x > 0" ("x > 0", None); CallProgram "x > 0" (Ok "x > 0")]))
    as Hcompile by reflexivity.
  split; [exact Hexpressions|]. split; [exact Hcompile|].
  pose proof (main_benchmark_run (C:=Sample.collaborators)
                10 ["--benchmark"; "two.yaml"; "leading.cel"; "params.yaml"]
                "two.yaml" "leading.cel" "params.yaml" [] "ab" ["a"; "b"]
                ("---" +:+ lf +:+ "x > 0") "p" "p" tt ["x > 0"] 0%Z 0%Z _
                eq_refl eq_refl eq_refl eq_refl eq_refl eq_refl eq_refl Hcompile) as [_ Hmain].
  pose proof (sample_benchmark_completes ["a"; "b"] ["x > 0"] "p"
                (splitExpressions ("---" +:+ lf +:+ "x > 0")) 0%Z
                ltac:(repeat constructor)) as Hrun.
  pose proof (content_line_is_taken_from_the_split_sequence (C:=Sample.collaborators)
                10 ["--benchmark"; "two.yaml"; "leading.cel"; "params.yaml"]
                "two.yaml" "leading.cel" "params.yaml" [] "ab" ["a"; "b"]
                ("---" +:+ lf +:+ "x > 0") "p" "p" tt ["x > 0"] 0%Z 0%Z _
                eq_refl eq_refl eq_refl eq_refl eq_refl eq_refl eq_refl Hcompile)
    as Hcontent.
  cbv zeta in Hcontent. revert Hmain Hrun Hcontent.
  generalize (trace (main 10 ["--benchmark"; "two.yaml"; "leading.cel"; "params.yaml"] 0%Z)).
  generalize (trace (runBenchmark (C:=Sample.collaborators) ["a"; "b"] ["x > 0"] "p"
                       (splitExpressions ("---" +:+ lf +:+ "x > 0")) 0%Z)).
  intros bench t Hmain Hrun Hcontent.
  destruct Hcontent as (_ & _ & Hcontent).
  { intros n err Hin. rewrite Hmain in Hin.
    apply in_app_or in Hin as [[Hin|[Hin|[]]]|Hin]; [discriminate Hin..|].
    exact (Hrun n err Hin). }
  destruct (Hcontent [] ["x > 0"] Hexpressions)
    as (i & source & program & lines & rest & Hi & _ & _ & _ & _ & Ht).
  { discriminate. }
  rewrite Hexpressions in Hi. destruct i as [|[|i]]; [|discriminate..].
  exists lines, rest. exact Ht.
Defined.

(** X16, with one object and one program; the world of the sample
    collaborators is its clock. *)
Lemma durations_fit_in_the_total_duration_witness :
  exists t0 t1,
    forall d, In (PrintTotalTime d) (trace (runBenchmark ["a"] ["x"] "p" ["x"] 0%Z)) ->
              (0 <= d <= t1 - t0)%Z.
Proof.
  pose proof (durations_fit_in_the_total_duration (C:=Sample.collaborators) (fun w => w)
                ltac:(intros w; simpl; lia)
                ltac:(intros program object params w; cbn; unfold Sample.eval;
                      destruct (_ && _); simpl; lia)
                ["a"] ["x"] "p" ["x"] 0%Z _ _ _ (run_eta _)) as [_ Hfit].
  specialize (Hfit ltac:(apply sample_benchmark_completes; repeat constructor)).
  revert Hfit. generalize (trace (runBenchmark ["a"] ["x"] "p" ["x"] 0%Z)).
  intros t (warm & t0 & blocks & t1 & _ & _ & _ & _ & Hd).
  exists t0, t1. exact Hd.
Defined.

(** X17, with two objects and one program. *)
Lemma completed_benchmark_evaluation_count_witness :
  Z.of_nat (length (List.filter isEval (trace (runBenchmark ["a"; "b"] ["x"] "p" ["x"] 0%Z))))
  = ((10 + iterations) * 2 * 1)%Z.
Proof.
  pose proof (completed_benchmark_evaluation_count (C:=Sample.collaborators)
                ["a"; "b"] ["x"] "p" ["x"] 0%Z _ _ _ (run_eta _)) as Hcount.
  specialize (Hcount ltac:(apply sample_benchmark_completes; repeat constructor)).
  exact Hcount.
Defined.

(** X20, with two objects and two programs. *)
Lemma warm_up_evaluates_every_pair_ten_times_witness :
  exists warm after,
    trace (runBenchmark ["a"; "b"] ["x"; "y"] "p" ["x"; "y"] 0%Z)
    = [PrintBenchmarkBanner; PrintWarmingUp] ++ warm ++ PrintRunningBenchmark :: after /\
    inputsOf warm
    = concat (replicate 10 [("x", "a", "p"); ("y", "a", "p"); ("x", "b", "p"); ("y", "b", "p")]).
Proof.
  pose proof (warm_up_evaluates_every_pair_ten_times (C:=Sample.collaborators)
                ["a"; "b"] ["x"; "y"] "p" ["x"; "y"] 0%Z _ _ _ (run_eta _)) as Hwarm.
  revert Hwarm. generalize (trace (runBenchmark ["a"; "b"] ["x"; "y"] "p" ["x"; "y"] 0%Z)).
  intros t (warm & after & Ht & _ & Hinputs).
  exists warm, after. split; [exact Ht | exact Hinputs].
Defined.

End SampleRuns.

(** * A run of the normal mode with every outcome *)

Section OutcomeRuns.
Local Existing Instance Outcomes.collaborators.

(** C3, with the three objects of [objects.yaml] and the six segments of
    [outcomes.cel], one of which is empty: fifteen cells.  For every object
    the second cell fails to compile and the fourth has no program, and for
    the object ["b"] the evaluation of the third fails; the cells after them
    are evaluated all the same. *)
Lemma normal_mode_evaluates_every_cell_witness :
  let r := main 10 ["objects.yaml"; "outcomes.cel"; "params.yaml"] 0%Z in
  splitExpressions Outcomes.expressionFile = ["a==1"; "?b"; ""; "!k"; "#p"; "c"] /\
  value r = Some Returned /\
  length (List.filter isCell (trace r)) = 15 /\
  cellTags 0 0 (trace r)
  = [(1, 1); (1, 2); (1, 4); (1, 5); (1, 6);
     (2, 1); (2, 2); (2, 4); (2, 5); (2, 6);
     (3, 1); (3, 2); (3, 4); (3, 5); (3, 6)]%Z /\
  length (List.filter isCompile (trace r)) = 15 /\
  matrixOf tt "p" (splitExpressions Outcomes.expressionFile) 0 ["a"; "b"; "c"] (trace r) /\
  List.filter isCell (trace r)
  = [PrintResult "a==1"; PrintCompilationFailed (errorString "syntax error");
     PrintResult "!k"; PrintProgramFailed (errorString "no matching overload");
     PrintResult "c";
     PrintResult "a==1"; PrintCompilationFailed (errorString "syntax error");
     PrintEvaluationFailed (errorString "no such key");
     PrintProgramFailed (errorString "no matching overload"); PrintResult "c";
     PrintResult "a==1"; PrintCompilationFailed (errorString "syntax error");
     PrintResult "!k"; PrintProgramFailed (errorString "no matching overload");
     PrintResult "c"] /\
  (exists answer, In (CallEval "c" "c" "p" answer) (trace r)).
Proof.
  destruct (normal_mode_evaluates_every_cell (C:=Outcomes.collaborators)
              10 ["objects.yaml"; "outcomes.cel"; "params.yaml"]
              "objects.yaml" "outcomes.cel" "params.yaml" [] "abc" ["a"; "b"; "c"]
              Outcomes.expressionFile "p" "p" tt 0%Z
              eq_refl eq_refl eq_refl eq_refl eq_refl eq_refl eq_refl)
    as (Hvalue & Hcells & Htags & _ & Hcompiled & Hmatrix & _ & _ & Hevery).
  split; [reflexivity|].
  split; [exact Hvalue|]. split; [exact Hcells|]. split; [exact Htags|].
  split; [exact Hcompiled|]. split; [exact Hmatrix|]. split; [reflexivity|].
  apply (Hevery 2 "c" (6%Z, "c") "c"); [reflexivity | vm_compute; tauto |].
  exists "c", None. split; [reflexivity|]. split; [discriminate | reflexivity].
Defined.

End OutcomeRuns.

(** * Runs with the sample collaborators and more files *)

Section FurtherRuns.
Local Existing Instance Files.collaborators.

(** X2: the flag does not count as one of the three files. *)
Lemma too_few_arguments_print_usage_witness :
  length (positional ["--benchmark"; "objects.yaml"; "expressions.cel"]) < 3 /\
  main 10 ["--benchmark"; "objects.yaml"; "expressions.cel"] 0%Z
  = (Some (Exited 1), 0%Z, [PrintUsage]).
Proof.
  split; [vm_compute; lia|].
  apply (too_few_arguments_print_usage (C:=Files.collaborators)). vm_compute. lia.
Defined.

(** X3: a fourth file and a second flag change nothing. *)
Lemma surplus_arguments_are_ignored_witness :
  main 10 ["objects.yaml"; "--benchmark"; "expressions.cel"; "params.yaml"; "notes.txt";
           "--benchmark"]
  = main 10 ["--benchmark"; "objects.yaml"; "expressions.cel"; "params.yaml"].
Proof.
  exact (surplus_arguments_are_ignored (C:=Files.collaborators) 10
           ["objects.yaml"; "--benchmark"; "expressions.cel"; "params.yaml"; "notes.txt";
            "--benchmark"]
           "objects.yaml" "expressions.cel" "params.yaml" ["notes.txt"] eq_refl).
Defined.

(** X6, on the three segments of [expressions.cel]. *)
Lemma compileExpressions_compiles_each_expression_once_witness :
  failingIndex tt 0 ["a==1"; ""; "b==2"] = None /\
  exists programs,
    compileExpressions tt ["a==1"; ""; "b==2"] 0%Z
    = (Ok programs, 0%Z, flat_map (compileCalls tt) (nonEmpty ["a==1"; ""; "b==2"])) /\
    Forall2 (compiledFrom tt) (nonEmpty ["a==1"; ""; "b==2"]) programs /\
    length (List.filter isCompile (flat_map (compileCalls tt) (nonEmpty ["a==1"; ""; "b==2"])))
    = length programs.
Proof.
  split; [reflexivity|].
  apply (compileExpressions_compiles_each_expression_once (C:=Files.collaborators)).
  reflexivity.
Defined.

(** X7, on [broken.cel]: its second expression does not compile. *)
Lemma benchmark_needs_every_expression_to_compile_witness :
  failingIndex tt 0 (splitExpressions
                       ("a==1" +:+ lf +:+ "---" +:+ lf +:+ "?b" +:+ lf +:+ "---" +:+ lf +:+ "c"))
  = Some 1 /\
  main 10 ["--benchmark"; "objects.yaml"; "broken.cel"; "params.yaml"] 0%Z
  = (Some (Exited 1), 0%Z,
     [CallCompile "a==1" ("a==1", None); CallProgram "a==1" (Ok "a==1");
      CallCompile "?b" ("?b", Some (Some (errorString "syntax error")));
      LogFatal "Failed to compile expressions for benchmark: "
               (errorString "compilation failed: syntax error")]).
Proof.
  split; [reflexivity|].
  destruct (benchmark_needs_every_expression_to_compile (C:=Files.collaborators)
              10 ["--benchmark"; "objects.yaml"; "broken.cel"; "params.yaml"]
              "objects.yaml" "broken.cel" "params.yaml" [] "abc" ["a"; "b"; "c"]
              ("a==1" +:+ lf +:+ "---" +:+ lf +:+ "?b" +:+ lf +:+ "---" +:+ lf +:+ "c")
              "p" "p" tt 1 0%Z
              eq_refl eq_refl eq_refl eq_refl eq_refl eq_refl eq_refl eq_refl)
    as (expr & err & Hexpr & Herr & Hmain).
  vm_compute in Hexpr. injection Hexpr as <-.
  vm_compute in Herr. injection Herr as <-.
  exact Hmain.
Defined.

(** X10, on [garbled.yaml]: a malformed document after a first one that is
    fine. *)
Lemma parseSingleYAMLDocument_ignores_what_follows_witness :
  parseYAMLDocuments 10 "a!c" = Some (Fail (errorString "yaml: malformed document")) /\
  parseSingleYAMLDocument "a!c" = answerAt "a!c" 0 /\
  ((parseSingleYAMLDocument "a!c" = Fail (errorString "yaml: malformed document") /\
    answerAt "a!c" 0 = Fail (errorString "yaml: malformed document")) \/
   (exists doc k, parseSingleYAMLDocument "a!c" = Ok doc /\ 0 < k /\
                  answerAt "a!c" k = Fail (errorString "yaml: malformed document"))).
Proof.
  split; [reflexivity|].
  exact (parseSingleYAMLDocument_ignores_what_follows (C:=Files.collaborators)
           10 "a!c" (Fail (errorString "yaml: malformed document")) eq_refl).
Defined.

(** X11, on [blank.cel]: the clock of the sample collaborators does not move
    without an evaluation, so the rate is 0 over 0. *)
Lemma benchmark_without_expressions_witness :
  nonEmpty (splitExpressions (" " +:+ lf)) = [] /\
  main 10 ["--benchmark"; "objects.yaml"; "blank.cel"; "params.yaml"] 0%Z
  = (Some Returned, 0%Z,
     [PrintBenchmarkBanner; PrintWarmingUp; PrintRunningBenchmark;
      ReadClock 0; ReadClock 0;
      PrintSummaryBanner; PrintTotalDuration 0;
      PrintTotalEvaluations 0; PrintOverallRate 0 0]).
Proof.
  split; [reflexivity|].
  exact (benchmark_without_expressions (C:=Files.collaborators)
           10 ["--benchmark"; "objects.yaml"; "blank.cel"; "params.yaml"]
           "objects.yaml" "blank.cel" "params.yaml" [] "abc" ["a"; "b"; "c"]
           (" " +:+ lf) "p" "p" tt 0%Z
           eq_refl eq_refl eq_refl eq_refl eq_refl eq_refl eq_refl eq_refl).
Defined.

(** X12, on [blank.cel] and the three objects of [objects.yaml]. *)
Lemma normal_mode_prints_one_header_per_object_witness :
  main 10 ["objects.yaml"; "blank.cel"; "params.yaml"] 0%Z
  = (Some Returned, 0%Z, [PrintObjectHeader 1; PrintObjectHeader 2; PrintObjectHeader 3]).
Proof.
  exact (proj1 (proj2 (normal_mode_prints_one_header_per_object (C:=Files.collaborators)
           10 ["objects.yaml"; "blank.cel"; "params.yaml"]
           "objects.yaml" "blank.cel" "params.yaml" [] "abc" ["a"; "b"; "c"]
           (" " +:+ lf) "p" "p" tt 0%Z
           eq_refl eq_refl eq_refl eq_refl eq_refl eq_refl eq_refl)) eq_refl).
Defined.

(** X14, on [throws.cel]: the benchmark is stopped by an evaluation error,
    and [main] returns. *)
Lemma exit_status_after_startup_witness :
  value (main 10 ["--benchmark"; "objects.yaml"; "throws.cel"; "params.yaml"] 0%Z)
  = Some Returned.
Proof.
  exact (exit_status_after_startup (C:=Files.collaborators)
           10 ["--benchmark"; "objects.yaml"; "throws.cel"; "params.yaml"] true
           "objects.yaml" "throws.cel" "params.yaml" [] "abc" ["a"; "b"; "c"]
           "!object.k" "p" "p" tt 0%Z
           eq_refl eq_refl eq_refl eq_refl eq_refl eq_refl eq_refl).
Defined.

(** X18, in the normal mode, on the three objects of [objects.yaml] and the
    expressions of [expressions.cel]. *)
Lemma evaluations_use_the_files_witness :
  Forall (fromTheFiles tt "p" ["a"; "b"; "c"] (splitExpressions Sample.expressionFile))
         (trace (main 10 ["objects.yaml"; "expressions.cel"; "params.yaml"] 0%Z)).
Proof.
  exact (evaluations_use_the_files (C:=Files.collaborators)
           10 ["objects.yaml"; "expressions.cel"; "params.yaml"] false
           "objects.yaml" "expressions.cel" "params.yaml" [] "abc" ["a"; "b"; "c"]
           Sample.expressionFile "p" "p" tt 0%Z
           eq_refl eq_refl eq_refl eq_refl eq_refl eq_refl eq_refl).
Defined.

(** X15, on the three objects of [objects.yaml] and the expressions of
    [expressions.cel]. *)
Lemma normal_mode_output_shape_witness :
  matrixOf tt "p" (splitExpressions Sample.expressionFile) 0 ["a"; "b"; "c"]
    (trace (main 10 ["objects.yaml"; "expressions.cel"; "params.yaml"] 0%Z)).
Proof.
  exact (normal_mode_output_shape (C:=Files.collaborators)
           10 ["objects.yaml"; "expressions.cel"; "params.yaml"]
           "objects.yaml" "expressions.cel" "params.yaml" [] "abc" ["a"; "b"; "c"]
           Sample.expressionFile "p" "p" tt 0%Z
           eq_refl eq_refl eq_refl eq_refl eq_refl eq_refl eq_refl).
Defined.

End FurtherRuns.
